(** * Indexing and retrieval pipeline: bounded concurrency, index lifecycle,
      insert batching and session-scoped search.

    Shallow embedding of
    - [src/app/api/index/route.ts]: [processConcurrently],
      [processCodeFileContent], [createIndexIfNeeded], [POST];
    - [lib/milvus.ts] (second document of [src/lib/session-context.tsx]):
      [getMilvusClient], [queryBySessionId], [searchVectors];
    - [src/unnamed/part_001]: [ZillizClient] ([createCollection],
      [insertVectors], [searchVectors], [queryBySessionId], [getAllChunks],
      [deleteSessionData]);
    - the client of the routes (third document of
      [src/lib/session-context.tsx]): [ApiClient.request], [indexCode],
      [chatWithCode], [getBuildGuideStream];
    - [src/unnamed/part_000]: the exchange of [ChatModeContent]
      ([sendChatMessage], [handleChatMessage]).

    Conventions.
    - A promise is represented by the way it settles
      ([PromiseSettledResult]); an [await] of a rejected promise is a
      thrown exception ([Completion]).
    - Calls that leave the process (vector store, clock, timers) are
      recorded in a history of events; the store answers each call as an
      arbitrary function of the history so far.
    - JavaScript numbers that only hold counts and indices are [nat] or
      [Z]; the poll interval and the elapsed time, which are multiplied
      by 1.2 and added up, are binary64 numbers with the rounding of
      IEEE 754 ([Binary64], over the Standard Library's [SpecFloat]). *)

From Stdlib Require Import ZArith QArith Qround Qminmax Qabs Lia.
From Stdlib Require SpecFloat.
From stdpp Require Import base list strings gmap pretty.

Local Open Scope nat_scope.

(** ** Array.prototype.slice for non-negative integer bounds *)

Definition slice {A : Type} (l : list A) (start stop : nat) : list A :=
  take (stop - start) (drop start l).

(** ** Bounded concurrency runner ([processConcurrently]) *)

Module Runner.

(** Result of [Promise.allSettled] for one promise. *)
Inductive PromiseSettledResult (R E : Type) : Type :=
| fulfilled (value : R)
| rejected (reason : E).
Arguments fulfilled {R E} value.
Arguments rejected {R E} reason.

(** What the runner does that is visible outside it: it calls the
    processor on an item ([Launch]) and it resumes from
    [await Promise.allSettled(...)] once the [n] promises of the batch
    have all settled ([AllSettled n]). *)
Inductive RunnerEvent (T : Type) : Type :=
| Launch (item : T)
| AllSettled (n : nat).
Arguments Launch {T} item.
Arguments AllSettled {T} n.

Record RunnerState (T R E : Type) : Type := mkRunnerState {
  results : list R;          (* const results: R[] *)
  warnings : list E;         (* arguments of console.warn, oldest first *)
  events : list (RunnerEvent T)
}.
Arguments mkRunnerState {T R E}.
Arguments results {T R E}.
Arguments warnings {T R E}.
Arguments events {T R E}.

Section Processor.
Context {T R E : Type}.
Variable processor : T -> PromiseSettledResult R E.

(** Body of [for (const result of batchResults)]. *)
Definition collect (st : RunnerState T R E) (result : PromiseSettledResult R E)
  : RunnerState T R E :=
  match result with
  | fulfilled value =>
      mkRunnerState (results st ++ [value]) (warnings st) (events st)
  | rejected reason =>
      mkRunnerState (results st) (warnings st ++ [reason]) (events st)
  end.

(** [batch.map(processor)] followed by the await of [Promise.allSettled]. *)
Definition launch_batch (st : RunnerState T R E) (batch : list T)
  : RunnerState T R E :=
  mkRunnerState (results st) (warnings st)
    (events st ++ map Launch batch ++ [AllSettled (length batch)]).

(** The [for (let i = 0; i < items.length; i += maxConcurrency)] loop,
    for a ceiling that is a non-negative integer. [fuel] bounds the
    number of iterations; [None] means the bound was reached with the
    loop condition still true, which is what happens with a ceiling of
    zero and at least one item. *)
Fixpoint processConcurrently_loop (fuel : nat) (items : list T)
    (maxConcurrency i : nat) (st : RunnerState T R E)
  : option (RunnerState T R E) :=
  if i <? length items then
    match fuel with
    | O => None
    | S fuel' =>
        let batch := slice items i (i + maxConcurrency) in
        let st1 := launch_batch st batch in
        let batchResults := map processor batch in
        let st2 := fold_left collect batchResults st1 in
        processConcurrently_loop fuel' items maxConcurrency
          (i + maxConcurrency) st2
    end
  else Some st.

Definition processConcurrently_run (items : list T) (maxConcurrency : nat)
  : option (RunnerState T R E) :=
  processConcurrently_loop (length items) items maxConcurrency 0
    (mkRunnerState [] [] []).

Definition processConcurrently (items : list T) (maxConcurrency : nat)
  : option (list R) :=
  results <$> processConcurrently_run items maxConcurrency.
End Processor.

(** *** Observations on a run *)

Section Observations.
Context {T R E : Type}.

Definition fulfilled_value (r : PromiseSettledResult R E) : option R :=
  match r with fulfilled v => Some v | rejected _ => None end.

Definition rejected_reason (r : PromiseSettledResult R E) : option E :=
  match r with fulfilled _ => None | rejected e => Some e end.

(** The batches of a trace: the items launched between two
    [AllSettled] events. [cur] holds the launches since the last one. *)
Fixpoint launched_batches_from (cur : list T) (tr : list (RunnerEvent T))
  : list (list T) :=
  match tr with
  | [] => match cur with [] => [] | _ => [cur] end
  | Launch x :: tr' => launched_batches_from (cur ++ [x]) tr'
  | AllSettled _ :: tr' => cur :: launched_batches_from [] tr'
  end.

Definition launched_batches (tr : list (RunnerEvent T)) : list (list T) :=
  launched_batches_from [] tr.

(** Largest number of operations in flight over a trace: an operation is
    in flight from its [Launch] until, at the latest, the next
    [AllSettled]. [cur] is the number in flight before [tr]. *)
Fixpoint high_water (cur : nat) (tr : list (RunnerEvent T)) : nat :=
  match tr with
  | [] => cur
  | Launch _ :: tr' => Nat.max cur (high_water (S cur) tr')
  | AllSettled _ :: tr' => Nat.max cur (high_water 0 tr')
  end.

Definition batch_events (b : list T) : list (RunnerEvent T) :=
  map Launch b ++ [AllSettled (length b)].
End Observations.

(** Partition of a list into consecutive batches of [n] elements, the last
    one possibly shorter, following the words of the specification. The
    list itself is more than enough fuel. *)
Fixpoint consecutive_batches_fuel {A : Type} (fuel n : nat) (l : list A)
  : list (list A) :=
  match fuel, l with
  | _, [] => []
  | O, _ => []
  | S fuel', _ => take n l :: consecutive_batches_fuel fuel' n (drop n l)
  end.

Definition consecutive_batches {A : Type} (n : nat) (l : list A)
  : list (list A) :=
  consecutive_batches_fuel (length l) n l.

(** A processor used to exercise the statements: even numbers succeed. *)
Definition even_processor (n : nat) : PromiseSettledResult nat string :=
  if Nat.even n then fulfilled (10 * n) else rejected "odd".

End Runner.

(** ** JavaScript values at the boundaries *)

(** A thrown value: an [Error] object with its message, or any other
    value, kept as the text [String(error)] gives for it. *)
Inductive Thrown : Type :=
| JsError (message : string)
| ThrownValue (text : string).

(** [error instanceof Error ? error.message : String(error)] *)
Definition error_text (error : Thrown) : string :=
  match error with
  | JsError message => message
  | ThrownValue text => text
  end.

(** How an awaited call of an external service ends. *)
Inductive Completion (A : Type) : Type :=
| Normal (value : A)
| Throw (error : Thrown).
Arguments Normal {A} value.
Arguments Throw {A} error.

(** A JavaScript number: a finite value or [NaN]. *)
Inductive number : Type :=
| Num (q : Q)
| NaN.

#[warnings="-register-all"]
Inductive JsValue : Type :=
| JsUndefined
| JsNull
| JsBool (b : bool)
| JsNumber (n : number)
| JsString (s : string)
| JsArray (elements : list JsValue)
| JsObject (properties : gmap string JsValue).

Definition typeof (v : JsValue) : string :=
  match v with
  | JsUndefined => "undefined"
  | JsNull => "object"
  | JsBool _ => "boolean"
  | JsNumber _ => "number"
  | JsString _ => "string"
  | JsArray _ => "object"
  | JsObject _ => "object"
  end.

(** [key in v], for an object or an array and a key that is neither an
    index nor a name defined on the prototypes. *)
Definition has_property (key : string) (v : JsValue) : bool :=
  match v with
  | JsObject properties => bool_decide (is_Some (properties !! key))
  | _ => false
  end.

(** [v.key] *)
Definition get_property (v : JsValue) (key : string) : JsValue :=
  match v with
  | JsObject properties => default JsUndefined (properties !! key)
  | _ => JsUndefined
  end.

Definition Array_isArray (v : JsValue) : bool :=
  match v with JsArray _ => true | _ => false end.

Definition is_null (v : JsValue) : bool :=
  match v with JsNull => true | _ => false end.

(** Truthiness, as tested by [&&] and [if]. *)
Definition truthy (v : JsValue) : bool :=
  match v with
  | JsUndefined | JsNull => false
  | JsBool b => b
  | JsNumber (Num q) => negb (Qeq_bool q 0)
  | JsNumber NaN => false
  | JsString s => negb (String.eqb s "")
  | JsArray _ | JsObject _ => true
  end.

Definition double_quote : string := String (Ascii.ascii_of_nat 34) EmptyString.

(** ** Session-scoped search of the vector store *)

Module Search.

(** Argument of [client.search]. *)
Record SearchReq : Type := mkSearchReq {
  collection_name : string;
  vectors : list (list number);
  limit : Z;
  output_fields : list string;
  filter : string;
  metric_type : option string
}.

(** What [client.search] resolves to: the code reads only [results]. *)
Record SearchResults : Type := mkSearchResults {
  results : option (list JsValue)
}.

(** The template [`sessionId == "${sessionId}"`]. *)
Definition session_filter (sessionId : string) : string :=
  "sessionId == " +:+ double_quote +:+ sessionId +:+ double_quote.

End Search.

(** *** Assumptions on the vector store and sample stores *)

Module SearchStores.
Import Search.

(** The filter language of a store: [selects text row] tells whether the
    filter expression [text] selects the row; it is [false] for a text
    that the store does not accept as an expression. *)
Definition FilterLanguage : Type := string -> JsValue -> bool.

(** The store applies the filter it is sent: whatever the request, every
    row of the first result set is selected by the filter text of the
    request. Nothing is assumed about the rows themselves. *)
Definition applies_filter (selects : FilterLanguage)
    (client_search : SearchReq -> Completion SearchResults) : Prop :=
  forall req res rows rest row,
    client_search req = Normal res ->
    results res = Some (JsArray rows :: rest) ->
    In row rows ->
    selects (filter req) row = true.

(** The text that the template produces for [sessionId] names that
    session: it selects only rows whose [sessionId] field is that string.
    This is a property of the filter language and of the identifier; it
    fails for an identifier that closes the string literal of the
    template. *)
Definition filter_names_session (selects : FilterLanguage)
    (sessionId : string) : Prop :=
  forall row,
    selects (session_filter sessionId) row = true ->
    get_property row "sessionId" = JsString sessionId.

(** **** A filter language: comparisons of [sessionId] with string
    literals, joined by [||]

    A fragment of the boolean expressions of the store, enough for the
    texts that the template produces. In a string literal a backslash
    makes the next character part of the text. *)

Definition quote_char : Ascii.ascii := Ascii.ascii_of_nat 34.
Definition backslash_char : Ascii.ascii := Ascii.ascii_of_nat 92.

(** The text of a string literal, read after its opening quote, and what
    follows its closing quote. *)
Fixpoint read_literal (input : string) : option (string * string) :=
  match input with
  | EmptyString => None
  | String c rest =>
      if Ascii.eqb c quote_char then Some (EmptyString, rest)
      else if Ascii.eqb c backslash_char then
        match rest with
        | EmptyString => None
        | String c' rest' =>
            match read_literal rest' with
            | Some (text, after) => Some (String c' text, after)
            | None => None
            end
        end
      else
        match read_literal rest with
        | Some (text, after) => Some (String c text, after)
        | None => None
        end
  end.

Fixpoint strip_prefix (prefix input : string) : option string :=
  match prefix, input with
  | EmptyString, _ => Some input
  | String a prefix', String b input' =>
      if Ascii.eqb a b then strip_prefix prefix' input' else None
  | String _ _, EmptyString => None
  end.

(** [sessionId == "text"] or [sessionId != "text"]. *)
Inductive Comparison : Type :=
| SessionIs (text : string)
| SessionIsNot (text : string).

Definition read_comparison (input : string) : option (Comparison * string) :=
  match strip_prefix ("sessionId == " +:+ double_quote) input with
  | Some rest =>
      match read_literal rest with
      | Some (text, after) => Some (SessionIs text, after)
      | None => None
      end
  | None =>
      match strip_prefix ("sessionId != " +:+ double_quote) input with
      | Some rest =>
          match read_literal rest with
          | Some (text, after) => Some (SessionIsNot text, after)
          | None => None
          end
      | None => None
      end
  end.

(** [comparison || comparison || ...], up to the end of the text; each
    comparison takes at least one character, so the length of the text is
    enough fuel. *)
Fixpoint read_filter (fuel : nat) (input : string) : option (list Comparison) :=
  match fuel with
  | O => None
  | S fuel' =>
      match read_comparison input with
      | Some (comparison, EmptyString) => Some [comparison]
      | Some (comparison, rest) =>
          match strip_prefix " || " rest with
          | Some rest' =>
              match read_filter fuel' rest' with
              | Some others => Some (comparison :: others)
              | None => None
              end
          | None => None
          end
      | None => None
      end
  end.

Definition holds (row : JsValue) (comparison : Comparison) : bool :=
  match get_property row "sessionId", comparison with
  | JsString value, SessionIs text => String.eqb value text
  | JsString value, SessionIsNot text => negb (String.eqb value text)
  | _, _ => false
  end.

Definition comparison_filter : FilterLanguage :=
  fun text row =>
    match read_filter (String.length text) text with
    | Some comparisons => existsb (holds row) comparisons
    | None => false
    end.

(** An identifier with neither a double quote nor a backslash in it. *)
Fixpoint plain (sessionId : string) : bool :=
  match sessionId with
  | EmptyString => true
  | String c rest =>
      negb (Ascii.eqb c quote_char) && negb (Ascii.eqb c backslash_char) &&
      plain rest
  end.

(** A stored row, as the store returns it. *)
Definition stored_row (row_id : Z) (row_content row_path row_session : string)
  : JsValue :=
  JsObject
    (<["id" := JsNumber (Num (inject_Z row_id))]>
     (<["content" := JsString row_content]>
     (<["filePath" := JsString row_path]>
     (<["file_path" := JsString row_path]>
     (<["embedding" := JsArray []]>
     (<["sessionId" := JsString row_session]>
     (<["score" := JsNumber (Num 1)]>
     (<["lineNumber" := JsNumber (Num 1)]> ∅)))))))).

Definition sample_rows : list JsValue :=
  [stored_row 1 "def f(): pass" "a.py" "s1";
   stored_row 2 "def g(): pass" "b.py" "s2"].


(** A store that evaluates the filter it is sent, in the language
    [comparison_filter], on each row it holds. *)
Definition evaluating_store (stored : list JsValue)
  : SearchReq -> Completion SearchResults :=
  fun req =>
    Normal {| results :=
      Some [JsArray (List.filter (comparison_filter (filter req)) stored)] |}.

(** An identifier that closes the string literal of the template and adds
    a comparison of its own: [a" || sessionId != "]. The filter text is
    then [sessionId == "a" || sessionId != ] followed by an empty
    literal. *)
Definition closing_sessionId : string :=
  "a" +:+ double_quote +:+ " || sessionId != " +:+ double_quote.

(** A store that keeps the rows of the session named in the filter. *)
Definition filtering_store : SearchReq -> Completion SearchResults :=
  fun req =>
    Normal {| results := Some [JsArray
      (List.filter
         (fun row =>
            match get_property row "sessionId" with
            | JsString s => String.eqb (filter req) (session_filter s)
            | _ => false
            end)
         sample_rows)] |}.

(** A stand-in for the builtin [parseInt]. *)
Definition sample_parseInt : string -> number := fun _ => NaN.

End SearchStores.

(** *** [ZillizClient.searchVectors] ([src/unnamed/part_001]) *)

Module ZillizClient.
Import Search.

(** [RawZillizHit]: TypeScript types are erased, a field holds whatever
    value the guard let through. *)
Record RawZillizHit : Type := mkRawZillizHit {
  id : JsValue;
  content : JsValue;
  filePath : JsValue;
  sessionId : JsValue;
  score : JsValue;
  lineNumber : JsValue
}.

Definition defaultCollectionName : string := "code_embeddings".

Section WithStore.
(** The store behind [this.client], and the builtin [parseInt]. *)
Variable client_search : SearchReq -> Completion SearchResults.
Variable parseInt : string -> number.

(** The type guard of the [forEach] callback. *)
Definition hit_guard (item : JsValue) : bool :=
  String.eqb (typeof item) "object" && negb (is_null item) &&
  has_property "id" item &&
    (String.eqb (typeof (get_property item "id")) "number" ||
     String.eqb (typeof (get_property item "id")) "string") &&
  has_property "content" item &&
    String.eqb (typeof (get_property item "content")) "string" &&
  has_property "filePath" item &&
    String.eqb (typeof (get_property item "filePath")) "string" &&
  has_property "sessionId" item &&
    String.eqb (typeof (get_property item "sessionId")) "string" &&
  has_property "score" item &&
    String.eqb (typeof (get_property item "score")) "number" &&
  has_property "lineNumber" item &&
    String.eqb (typeof (get_property item "lineNumber")) "number".

(** The object pushed for an item that passes the guard. *)
Definition hit_of (hitItem : JsValue) : RawZillizHit :=
  {| id := match get_property hitItem "id" with
           | JsString s => JsNumber (parseInt s)
           | other => other
           end;
     content := get_property hitItem "content";
     filePath := get_property hitItem "filePath";
     sessionId := get_property hitItem "sessionId";
     score := get_property hitItem "score";
     lineNumber := get_property hitItem "lineNumber" |}.

(** Body of the [forEach] callback: push, or warn and skip. *)
Definition push_hit (acc : list RawZillizHit) (item : JsValue)
  : list RawZillizHit :=
  if hit_guard item then acc ++ [hit_of item] else acc.

Definition searchVectors (vector : list number) (sessionId : string)
    (limit : option Z) : Completion (list RawZillizHit) :=
  let limit := default 10%Z limit in
  match client_search
          {| collection_name := defaultCollectionName;
             vectors := [vector];
             limit := limit;
             output_fields :=
               ["content"; "filePath"; "sessionId"; "lineNumber"; "score"; "id"];
             filter := session_filter sessionId;
             metric_type := Some "COSINE" |} with
  | Normal searchResult =>
      match results searchResult with
      | Some (first :: _) =>
          match first with
          | JsArray items => Normal (fold_left push_hit items [])
          | _ => Normal []
          end
      | _ => Normal []
      end
  | Throw error =>
      Throw (JsError ("Failed to search vectors: " +:+ error_text error))
  end.
End WithStore.
End ZillizClient.

(** *** [searchVectors] of [lib/milvus.ts] *)

Module Milvus.
Import Search.

Definition COLLECTION_NAME : string := "code_embeddings".

(** The object pushed by [searchVectors]. *)
Record CodeChunk : Type := mkCodeChunk {
  id : JsValue;
  content : JsValue;
  file_path : JsValue;
  embedding : JsValue;
  sessionId : JsValue;
  similarity : JsValue
}.

Section WithStore.
Variable client_search : SearchReq -> Completion SearchResults.

Definition hit_guard (hit : JsValue) : bool :=
  String.eqb (typeof hit) "object" && negb (is_null hit) &&
  has_property "id" hit &&
    String.eqb (typeof (get_property hit "id")) "number" &&
  has_property "content" hit &&
    String.eqb (typeof (get_property hit "content")) "string" &&
  has_property "file_path" hit &&
    String.eqb (typeof (get_property hit "file_path")) "string" &&
  has_property "embedding" hit &&
    Array_isArray (get_property hit "embedding") &&
  has_property "sessionId" hit &&
    String.eqb (typeof (get_property hit "sessionId")) "string".

Definition chunk_of (hit : JsValue) : CodeChunk :=
  {| id := get_property hit "id";
     content := get_property hit "content";
     file_path := get_property hit "file_path";
     embedding := get_property hit "embedding";
     sessionId := get_property hit "sessionId";
     similarity := get_property hit "score" |}.

Definition push_hit (acc : list CodeChunk) (hit : JsValue) : list CodeChunk :=
  if hit_guard hit then acc ++ [chunk_of hit] else acc.

(** The function starts with [await getMilvusClient()], before its [try]:
    the calls that this makes on the store are those of
    [MilvusMethods.getMilvusClient], and when it fails the function rejects
    with that error and makes no search. What follows is the rest of the
    function, [client_search] being the search of the client obtained.

    [searchResult.results[0].forEach] exists only on an array: on any
    other truthy value the call is a [TypeError], caught like the
    failures of the store. *)
Definition searchVectors (queryEmbedding : list number) (sessionId : string)
    (limit : option Z) : Completion (list CodeChunk) :=
  let limit := default 5%Z limit in
  let failed error :=
    Throw (JsError ("Failed to search session data: " +:+ error_text error)) in
  match client_search
          {| collection_name := COLLECTION_NAME;
             vectors := [queryEmbedding];
             limit := limit;
             filter := session_filter sessionId;
             output_fields :=
               ["id"; "content"; "file_path"; "embedding"; "sessionId"];
             metric_type := None |} with
  | Normal searchResult =>
      match results searchResult with
      | Some (first :: _) =>
          if truthy first then
            match first with
            | JsArray hits => Normal (fold_left push_hit hits [])
            | _ =>
                failed (JsError
                  "searchResult.results[0].forEach is not a function")
            end
          else Normal []
      | _ => Normal []
      end
  | Throw error => failed error
  end.
End WithStore.
End Milvus.

(** ** Numbers of the polling loop: binary64

    The poll interval and the elapsed time are JavaScript numbers: each
    product and each sum is rounded to the nearest binary64 number, ties
    to even. *)

Module Binary64.

Definition float64 : Type := SpecFloat.spec_float.

Definition prec : Z := 53.
Definition emax : Z := 1024.

(** The number an integer literal stands for. *)
Definition of_Z (z : Z) : float64 :=
  SpecFloat.binary_normalize prec emax z 0 false.

Definition add : float64 -> float64 -> float64 := SpecFloat.SFadd prec emax.
Definition mul : float64 -> float64 -> float64 := SpecFloat.SFmul prec emax.
Definition div : float64 -> float64 -> float64 := SpecFloat.SFdiv prec emax.

(** [a < b] *)
Definition ltb : float64 -> float64 -> bool := SpecFloat.SFltb.

(** The literal [1.2]: the binary64 number nearest to 6/5, which is the
    correctly rounded quotient of 6 by 5. *)
Definition literal_1_2 : float64 := div (of_Z 6) (of_Z 5).

(** [Math.min(a, b)], for arguments that are not zeros of opposite
    signs. *)
Definition Math_min (a b : float64) : float64 :=
  match a, b with
  | SpecFloat.S754_nan, _ | _, SpecFloat.S754_nan => SpecFloat.S754_nan
  | _, _ => if ltb b a then b else a
  end.

(** The rational a finite number stands for. *)
Definition to_Q (x : float64) : Q :=
  match x with
  | SpecFloat.S754_finite s m e =>
      (if s then -1 else 1) * inject_Z (Zpos m) * 2 ^ e
  | _ => 0
  end.

End Binary64.

(** ** The indexing route ([src/app/api/index/route.ts]) *)

Module IndexRoute.
Import Runner.

(** *** Data *)

Inductive FileNodeType : Type := file | directory.

#[warnings="-register-all"]
Inductive FileNode : Type := mkFileNode {
  name : string;
  path : string;
  type : FileNodeType;
  size : option Z;
  extension : option string;
  children : option (list FileNode);
  content : option string
}.

(** A chunk as [CodeChunker.generateChunks] returns it. *)
Record Chunk : Type := mkChunk {
  chunk_content : string;
  chunk_startLine : option Z;
  chunk_endLine : option Z;
  chunk_type : option string
}.

(** Reply of [novitaClient.generateEmbeddings]. *)
Record EmbeddingResponse : Type := mkEmbeddingResponse {
  data : option (list (list number))   (* the [embedding] of each entry *)
}.

(** An element of [embeddingsToInsert]. *)
Record EmbeddingRecord : Type := mkEmbeddingRecord {
  rec_content : string;
  rec_file_path : string;
  rec_embedding : list number;
  rec_sessionId : string;
  rec_startLine : option Z;
  rec_endLine : option Z;
  rec_chunkType : option string
}.

(** [extra_params] of [createIndex]; [nlist] is the number that
    [JSON.stringify] writes into [params]. *)
Record IndexParams : Type := mkIndexParams {
  index_type : string;
  metric_type : string;
  nlist : Z
}.

Record DescribeIndexResponse : Type := mkDescribeIndexResponse {
  index_descriptions : option (list string)
}.

(** The JSON body of a request: [sessionId] is [None] when absent,
    [codeFiles] is [None] when absent or not an array. *)
Record IndexRequestBody : Type := mkIndexRequestBody {
  body_sessionId : option string;
  body_codeFiles : option (list FileNode)
}.

Inductive Json : Type :=
| JBool (b : bool)
| JNum (z : Z)
| JStr (s : string).

(** [NextResponse.json(payload, { status })]: the payload as serialised,
    a field whose value is [undefined] being left out. *)
Record Response : Type := mkResponse {
  payload : list (string * Json);
  status : Z
}.

Definition payload_field (key : string) (r : Response) : option Json :=
  snd <$> List.find (fun kv => String.eqb (fst kv) key) (payload r).

(** *** Effects *)

(** Calls that leave the function, in the order they are made. *)
Inductive Event : Type :=
| EDateNow
| EGetMilvusClient
| EInsert (batch : list EmbeddingRecord)
| EDescribeIndex
| ECreateIndex (params : IndexParams)
| EGetIndexState
| ESetTimeout (ms : Binary64.float64).

Definition History : Type := list Event.

(** The world around the route. The clock and the vector store answer as
    functions of everything that happened before the call; the chunker
    and the embedding service, which are called from concurrently running
    operations, answer as functions of their arguments. *)
Record Env : Type := mkEnv {
  Date_now : History -> Z;
  NODE_ENV_development : bool;
  generateChunks : string -> string -> Completion (list Chunk);
  generateEmbeddings : string -> Completion EmbeddingResponse;
  getMilvusClient : History -> Completion unit;
  insert : History -> list EmbeddingRecord -> Completion unit;
  describeIndex : History -> Completion DescribeIndexResponse;
  createIndex : History -> IndexParams -> Completion unit;
  getIndexState : History -> Completion string
}.

(** How a computation ends: it returns, it throws, or the model ran out
    of fuel while a loop was still running. *)
Inductive Outcome (A : Type) : Type :=
| Returned (value : A)
| Threw (error : Thrown)
| OutOfFuel.
Arguments Returned {A} value.
Arguments Threw {A} error.
Arguments OutOfFuel {A}.

(** A computation is given the history before it starts and answers with
    the way it ends and the events it added, oldest first. *)
Definition M (A : Type) : Type := History -> Outcome A * list Event.

Definition ret {A} (a : A) : M A := fun _ => (Returned a, []).

Definition throw {A} (error : Thrown) : M A := fun _ => (Threw error, []).

Definition out_of_fuel {A} : M A := fun _ => (OutOfFuel, []).

Definition bind {A B} (m : M A) (f : A -> M B) : M B :=
  fun h =>
    match m h with
    | (Returned a, tr) =>
        let (out, tr') := f a (h ++ tr) in (out, tr ++ tr')
    | (Threw error, tr) => (Threw error, tr)
    | (OutOfFuel, tr) => (OutOfFuel, tr)
    end.

(** [try { m } catch (error) { handler }] *)
Definition try_catch {A} (m : M A) (handler : Thrown -> M A) : M A :=
  fun h =>
    match m h with
    | (Threw error, tr) =>
        let (out, tr') := handler error (h ++ tr) in (out, tr ++ tr')
    | other => other
    end.

(** An awaited external call: record it, then return or throw. *)
Definition call {A} (e : Event) (reply : History -> Completion A) : M A :=
  fun h =>
    match reply h with
    | Normal a => (Returned a, [e])
    | Throw error => (Threw error, [e])
    end.

(** [await req.json()] and the like: a completion known beforehand. *)
Definition await {A} (c : Completion A) : M A :=
  match c with
  | Normal a => ret a
  | Throw error => throw error
  end.

(** The computation ends, by returning or by throwing, whatever the
    history it starts from. *)
Definition ends {A} (m : M A) : Prop := forall h, fst (m h) <> OutOfFuel.

Declare Scope route_scope.
Delimit Scope route_scope with route.
Notation "'let*' x ':=' m 'in' k" := (bind m (fun x => k))
  (at level 10, x name, m at level 100, k at level 200) : route_scope.
Notation "m ;;; k" := (bind m (fun _ => k))
  (at level 100, right associativity) : route_scope.
Local Open Scope route_scope.

(** *** Configuration constants *)

Definition MAX_INDEX_WAIT_TIME : Binary64.float64 :=
  Binary64.of_Z (10 * 60 * 1000).
Definition POLLING_INTERVAL : Binary64.float64 := Binary64.of_Z 2000.
Definition MAX_CONCURRENT_FILES : nat := 5.
Definition MAX_CONCURRENT_EMBEDDINGS : nat := 10.
Definition MAX_RETRIES : nat := 30.

Section WithEnv.
Variable env : Env.

(** *** [processCodeFileContent] *)

Definition processChunk (filePath sessionId : string) (chunk : Chunk)
  : PromiseSettledResult (option EmbeddingRecord) Thrown :=
  match generateEmbeddings env (chunk_content chunk) with
  | Normal embeddingResponse =>
      match data embeddingResponse with
      | Some (embedding :: _) =>
          fulfilled (Some
            {| rec_content := chunk_content chunk;
               rec_file_path := filePath;
               rec_embedding := embedding;
               rec_sessionId := sessionId;
               rec_startLine := chunk_startLine chunk;
               rec_endLine := chunk_endLine chunk;
               rec_chunkType := chunk_type chunk |})
      | _ => fulfilled None
      end
  | Throw _ => fulfilled None
  end.

(** The inner call of [processConcurrently] always returns, its ceiling
    being [MAX_CONCURRENT_EMBEDDINGS]; the [None] branch is there for
    the type only. *)
Definition processCodeFileContent (sessionId : string) (file : FileNode)
  : PromiseSettledResult (list EmbeddingRecord) Thrown :=
  let fileContent := default "" (content file) in
  let filePath := path file in
  let fileExtension := default "" (extension file) in
  match generateChunks env fileContent fileExtension with
  | Normal codeChunks =>
      if Nat.eqb (length codeChunks) 0 then fulfilled []
      else
        match processConcurrently (processChunk filePath sessionId)
                codeChunks MAX_CONCURRENT_EMBEDDINGS with
        | Some results =>
            let validResults := omap id results in
            fulfilled ([] ++ validResults)
        | None => fulfilled []
        end
  | Throw _ => fulfilled []
  end.

(** [processCodeFileContent] on an element of [codeFiles] as the request
    body has it: a file object, or [null] ([None]). On [null] the first
    statement of the [try] block throws a TypeError, and so does the
    [catch] block, which reads [file.path] for its warning: the promise is
    rejected with the second error. *)
Definition null_property_error (key : string) : Thrown :=
  JsError ("Cannot read properties of null (reading '" +:+ key +:+ "')").

Definition processCodeFileElement (sessionId : string)
    (file : option FileNode)
  : PromiseSettledResult (list EmbeddingRecord) Thrown :=
  match file with
  | Some f => processCodeFileContent sessionId f
  | None => rejected (null_property_error "path")
  end.

(** *** [createIndexIfNeeded] *)

Definition compute_nlist (totalEmbeddings : Z) : Z :=
  Z.min 128 (Z.max 4 (Qceiling (inject_Z totalEmbeddings / 2))).

Definition index_finished (indexState : string) : bool :=
  String.eqb indexState "Finished" || String.eqb indexState "IndexStateFinished".

Definition index_failed (indexState : string) : bool :=
  String.eqb indexState "Failed" || String.eqb indexState "IndexStateFailed".

(** [Math.min(pollInterval * 1.2, 10000)] *)
Definition next_pollInterval (pollInterval : Binary64.float64)
  : Binary64.float64 :=
  Binary64.Math_min (Binary64.mul pollInterval Binary64.literal_1_2)
    (Binary64.of_Z 10000).

Definition timeout_error : Thrown :=
  JsError "Index creation timed out after 600 seconds or exceeded 30 retries.".

(** [elapsedTime < MAX_INDEX_WAIT_TIME && retryCount < MAX_RETRIES] *)
Definition within_bounds (elapsedTime : Binary64.float64) (retryCount : nat)
  : bool :=
  Binary64.ltb elapsedTime MAX_INDEX_WAIT_TIME && (retryCount <? MAX_RETRIES).

(** The [while] loop. One unit of [fuel] is spent per iteration. *)
Fixpoint poll_loop (fuel : nat) (elapsedTime pollInterval : Binary64.float64)
    (retryCount : nat) : M bool :=
  if within_bounds elapsedTime retryCount then
    match fuel with
    | O => out_of_fuel
    | S fuel' =>
        let* indexState := call EGetIndexState (getIndexState env) in
        if index_finished indexState then ret true
        else if index_failed indexState then
          throw (JsError "Index creation failed")
        else
          call (ESetTimeout pollInterval) (fun _ => Normal tt) ;;;
          poll_loop fuel' (Binary64.add elapsedTime pollInterval)
            (next_pollInterval pollInterval) (S retryCount)
    end
  else throw timeout_error.

(** [indexInfo && indexInfo.index_descriptions?.length > 0] *)
Definition index_exists (indexInfo : option DescribeIndexResponse) : bool :=
  match indexInfo with
  | Some info =>
      match index_descriptions info with
      | Some descriptions => 0 <? length descriptions
      | None => false
      end
  | None => false
  end.

(** The [extra_params] sent with the creation request. *)
Definition index_request (totalEmbeddings : Z) : IndexParams :=
  {| index_type := "IVF_FLAT";
     metric_type := "COSINE";
     nlist := compute_nlist totalEmbeddings |}.

Definition createIndexIfNeeded (totalEmbeddings : Z) : M bool :=
  try_catch
    (let* indexInfo :=
       try_catch (let* info := call EDescribeIndex (describeIndex env) in
                  ret (Some info))
                 (fun _ => ret None) in
     if index_exists indexInfo then ret true
     else
       call (ECreateIndex (index_request totalEmbeddings))
            (fun h => createIndex env h (index_request totalEmbeddings)) ;;;
       poll_loop MAX_RETRIES (Binary64.of_Z 0) POLLING_INTERVAL 0)
    (fun error => throw error).

(** *** [POST] *)

Definition milvus_insert (batch : list EmbeddingRecord) : M unit :=
  call (EInsert batch) (fun h => insert env h batch).

(** [for (let i = 0; i < embeddingsToInsert.length; i += 1000)] *)
Fixpoint insert_loop (fuel : nat) (embeddingsToInsert : list EmbeddingRecord)
    (i : nat) : M unit :=
  if i <? length embeddingsToInsert then
    match fuel with
    | O => out_of_fuel
    | S fuel' =>
        let batch := slice embeddingsToInsert i (i + 1000) in
        milvus_insert batch ;;;
        insert_loop fuel' embeddingsToInsert (i + 1000)
    end
  else ret tt.

(** The insert step: [if (embeddingsToInsert.length > 1000) ... else ...] *)
Definition insert_embeddings (embeddingsToInsert : list EmbeddingRecord)
  : M unit :=
  if 1000 <? length embeddingsToInsert then
    insert_loop (length embeddingsToInsert) embeddingsToInsert 0
  else milvus_insert embeddingsToInsert.

Definition date_now : M Z := fun h => (Returned (Date_now env h), [EDateNow]).

(** [!sessionId]: absent, or the empty string. *)
Definition falsy_sessionId (sessionId : option string) : bool :=
  match sessionId with
  | Some s => String.eqb s ""
  | None => true
  end.

(** The arrays handed to the vector store by a request whose body passed
    the checks: [allEmbeddings.flat()]. *)
Definition flat_embeddings (sessionId : string) (codeFiles : list FileNode)
  : option (list EmbeddingRecord) :=
  (fun allEmbeddings => concat allEmbeddings) <$>
    processConcurrently (processCodeFileContent sessionId)
               codeFiles MAX_CONCURRENT_FILES.

(** The same for an array that may hold [null] elements. *)
Definition flat_embeddings_elements (sessionId : string)
    (codeFiles : list (option FileNode))
  : option (list EmbeddingRecord) :=
  (fun allEmbeddings => concat allEmbeddings) <$>
    processConcurrently (processCodeFileElement sessionId)
               codeFiles MAX_CONCURRENT_FILES.

Definition POST (req_json : Completion IndexRequestBody) : M Response :=
  let* startTime := date_now in
  try_catch
    (let* body := await req_json in
     match body_sessionId body, body_codeFiles body with
     | Some sessionId, Some codeFiles =>
         if falsy_sessionId (Some sessionId) then
           ret {| payload := [("error", JStr "Invalid request parameters");
                              ("details", JStr "SessionId and codeFiles array are required")];
                  status := 400 |}
         else
           match flat_embeddings sessionId codeFiles with
           | None => out_of_fuel
           | Some embeddingsToInsert =>
               let* now1 := date_now in
               let totalProcessingTime := (now1 - startTime)%Z in
               if Nat.eqb (length embeddingsToInsert) 0 then
                 ret {| payload :=
                          [("message", JStr "No embeddings could be generated");
                           ("details", JStr "Check file contents and embedding generation");
                           ("processingTime", JNum totalProcessingTime)];
                        status := 400 |}
               else
                 call EGetMilvusClient (getMilvusClient env) ;;;
                 let* insertStartTime := date_now in
                 insert_embeddings embeddingsToInsert ;;;
                 let* now2 := date_now in
                 let _insertTime := (now2 - insertStartTime)%Z in
                 createIndexIfNeeded (Z.of_nat (length embeddingsToInsert)) ;;;
                 let* now3 := date_now in
                 let* now4 := date_now in
                 ret {| payload :=
                          [("success", JBool true);
                           ("message", JStr "Codebase indexed successfully.");
                           ("totalChunks", JNum (Z.of_nat (length embeddingsToInsert)));
                           ("processingTime", JNum totalProcessingTime);
                           ("indexingTime", JNum (now4 - startTime - totalProcessingTime)%Z)];
                        status := 200 |}
           end
     | _, _ =>
         ret {| payload := [("error", JStr "Invalid request parameters");
                            ("details", JStr "SessionId and codeFiles array are required")];
                status := 400 |}
     end)
    (fun error =>
       ret {| payload :=
                [("success", JBool false);
                 ("message",
                  JStr match error with
                       | JsError message => message
                       | ThrownValue _ =>
                           "An unexpected error occurred during indexing."
                       end)] ++
                match error with
                | JsError message =>
                    if NODE_ENV_development env then [("error", JStr message)] else []
                | ThrownValue _ => []
                end;
              status := 500 |}).

(** Two calls in succession. The second is made whatever the first did:
    the caller, [POST], catches what a call throws and is free to call
    again. The outcome is the one of the second call. *)
Definition createIndexIfNeeded_twice (total1 total2 : Z) : M bool :=
  fun h =>
    let first := createIndexIfNeeded total1 h in
    let second := createIndexIfNeeded total2 (h ++ snd first) in
    (fst second, snd first ++ snd second).

(** *** The polling loop as a relation

    [polled e p r h out tr]: entered with [elapsedTime = e],
    [pollInterval = p], [retryCount = r] after the history [h], the loop
    ends as [out] having added the events [tr]. *)
Inductive polled : Binary64.float64 -> Binary64.float64 -> nat -> History ->
                   Outcome bool -> list Event -> Prop :=
| polled_timeout e p r h :
    within_bounds e r = false ->
    polled e p r h (Threw timeout_error) []
| polled_unreachable e p r h error :
    within_bounds e r = true ->
    getIndexState env h = Throw error ->
    polled e p r h (Threw error) [EGetIndexState]
| polled_finished e p r h indexState :
    within_bounds e r = true ->
    getIndexState env h = Normal indexState ->
    index_finished indexState = true ->
    polled e p r h (Returned true) [EGetIndexState]
| polled_failed e p r h indexState :
    within_bounds e r = true ->
    getIndexState env h = Normal indexState ->
    index_finished indexState = false ->
    index_failed indexState = true ->
    polled e p r h (Threw (JsError "Index creation failed")) [EGetIndexState]
| polled_again e p r h indexState out tr :
    within_bounds e r = true ->
    getIndexState env h = Normal indexState ->
    index_finished indexState = false ->
    index_failed indexState = false ->
    polled (Binary64.add e p) (next_pollInterval p) (S r)
           (h ++ [EGetIndexState; ESetTimeout p]) out tr ->
    polled e p r h out (EGetIndexState :: ESetTimeout p :: tr).

(** *** Assumptions on the vector store *)

(** The describe-index query made after [h] answers with at least one
    index description. *)
Definition reports_index (h : History) : bool :=
  match describeIndex env h with
  | Normal info => index_exists (Some info)
  | Throw _ => false
  end.

(** The index lifecycle of the store never goes back to absent: once a
    creation request was accepted, every later describe-index query
    reports the index. *)
Definition store_keeps_index : Prop :=
  forall h params rest,
    createIndex env h params = Normal tt ->
    reports_index (h ++ ECreateIndex params :: rest) = true.

(** The store answers every state query with a state that is neither
    finished nor failed. *)
Definition remains_building : Prop :=
  forall h, exists indexState,
    getIndexState env h = Normal indexState /\
    index_finished indexState = false /\
    index_failed indexState = false.

(** The three ways a call of [createIndexIfNeeded] goes. *)
Inductive index_run (totalEmbeddings : Z) (h : History)
  : Outcome bool -> list Event -> Prop :=
| index_run_exists :
    reports_index h = true ->
    index_run totalEmbeddings h (Returned true) [EDescribeIndex]
| index_run_refused error :
    reports_index h = false ->
    createIndex env (h ++ [EDescribeIndex]) (index_request totalEmbeddings)
      = Throw error ->
    index_run totalEmbeddings h (Threw error)
      [EDescribeIndex; ECreateIndex (index_request totalEmbeddings)]
| index_run_polled out tr :
    reports_index h = false ->
    createIndex env (h ++ [EDescribeIndex]) (index_request totalEmbeddings)
      = Normal tt ->
    polled (Binary64.of_Z 0) POLLING_INTERVAL 0
      (h ++ [EDescribeIndex; ECreateIndex (index_request totalEmbeddings)])
      out tr ->
    index_run totalEmbeddings h out
      (EDescribeIndex :: ECreateIndex (index_request totalEmbeddings) :: tr).

(** *** The insert step as a relation

    [issued h batches out tr]: the insert calls for [batches] are made one
    after the other from the history [h], each awaited before the next,
    until one is refused. *)
Inductive issued : History -> list (list EmbeddingRecord) ->
                   Outcome unit -> list Event -> Prop :=
| issued_done h :
    issued h [] (Returned tt) []
| issued_refused h batch batches error :
    insert env h batch = Throw error ->
    issued h (batch :: batches) (Threw error) [EInsert batch]
| issued_next h batch batches out tr :
    insert env h batch = Normal tt ->
    issued (h ++ [EInsert batch]) batches out tr ->
    issued h (batch :: batches) out (EInsert batch :: tr).

(** The batches the insert step sets out to send. *)
Definition insert_plan (embeddingsToInsert : list EmbeddingRecord)
  : list (list EmbeddingRecord) :=
  if 1000 <? length embeddingsToInsert then
    consecutive_batches 1000 embeddingsToInsert
  else [embeddingsToInsert].

(** *** Observations on a history *)

Definition inserted_batch (e : Event) : option (list EmbeddingRecord) :=
  match e with EInsert batch => Some batch | _ => None end.

Definition is_createIndex (e : Event) : bool :=
  match e with ECreateIndex _ => true | _ => false end.

Definition is_getIndexState (e : Event) : bool :=
  match e with EGetIndexState => true | _ => false end.

Definition timeout_ms (e : Event) : option Binary64.float64 :=
  match e with ESetTimeout ms => Some ms | _ => None end.

(** The interval before the [k]-th sleep of a loop entered with
    [pollInterval = p]. *)
Definition interval_at (p : Binary64.float64) (k : nat) : Binary64.float64 :=
  Nat.iter k next_pollInterval p.

(** [elapsedTime] after [k] sleeps of a loop entered with
    [elapsedTime = e] and [pollInterval = p]: the intervals are added to
    it one after the other. *)
Definition elapsed_after (e p : Binary64.float64) (k : nat)
  : Binary64.float64 :=
  fold_left Binary64.add (map (interval_at p) (seq 0 k)) e.

(** The events of [n] turns of the loop in which the state is neither
    finished nor failed. *)
Definition building_turns (p : Binary64.float64) (n : nat) : list Event :=
  concat (map (fun k => [EGetIndexState; ESetTimeout (interval_at p k)])
              (seq 0 n)).
End WithEnv.

(** *** Sample worlds, used to exercise the statements *)

(** A file with some content is one chunk; every chunk gets the same
    three-element embedding; the store accepts every call. The answers
    to describe-index and to the state query are left open. *)
Definition sample_env
    (describe : History -> Completion DescribeIndexResponse)
    (state : History -> Completion string) : Env :=
  {| Date_now := fun h => Z.of_nat (length h);
     NODE_ENV_development := false;
     generateChunks := fun fileContent _ =>
       Normal (if String.eqb fileContent "" then []
               else [{| chunk_content := fileContent;
                        chunk_startLine := Some 1%Z;
                        chunk_endLine := Some 1%Z;
                        chunk_type := Some "file" |}]);
     generateEmbeddings := fun _ =>
       Normal {| data := Some [[Num 1; Num 2; Num 3]] |};
     getMilvusClient := fun _ => Normal tt;
     insert := fun _ _ => Normal tt;
     describeIndex := describe;
     createIndex := fun _ _ => Normal tt;
     getIndexState := state |}.

Definition no_index : History -> Completion DescribeIndexResponse :=
  fun _ => Normal {| index_descriptions := Some [] |}.

(** The index is described once its creation was requested. *)
Definition index_once_created : History -> Completion DescribeIndexResponse :=
  fun h =>
    Normal {| index_descriptions :=
                Some (if existsb is_createIndex h then ["embedding_index"] else []) |}.

(** The build never leaves the state in progress. *)
Definition env_building : Env :=
  sample_env no_index (fun _ => Normal "InProgress").

(** The build is in progress at the first state query and failed at the
    second. *)
Definition env_failing : Env :=
  sample_env no_index
    (fun h => Normal (if existsb is_getIndexState h then "Failed"
                      else "InProgress")).

(** The build is finished at the first state query and the index is
    described from then on. *)
Definition env_finishing : Env :=
  sample_env index_once_created (fun _ => Normal "Finished").

(** The describe-index query fails every time; the build is finished at
    the first state query. *)
Definition env_describe_fails : Env :=
  sample_env (fun _ => Throw (JsError "describe index: unavailable"))
             (fun _ => Normal "Finished").

(** The first creation request is refused and the later ones are
    accepted; the index is described once a creation request was
    accepted; the build is then finished. *)
Definition env_refusing_once : Env :=
  {| Date_now := Date_now env_finishing;
     NODE_ENV_development := false;
     generateChunks := generateChunks env_finishing;
     generateEmbeddings := generateEmbeddings env_finishing;
     getMilvusClient := getMilvusClient env_finishing;
     insert := insert env_finishing;
     describeIndex := fun h =>
       Normal {| index_descriptions :=
                   Some (if 2 <=? length (List.filter is_createIndex h)
                         then ["embedding_index"] else []) |};
     createIndex := fun h _ =>
       if existsb is_createIndex h then Normal tt
       else Throw (JsError "create index: denied");
     getIndexState := fun _ => Normal "Finished" |}.

(** The store accepts the first insert call and refuses the others. *)
Definition env_insert_refused : Env :=
  {| Date_now := Date_now env_finishing;
     NODE_ENV_development := false;
     generateChunks := generateChunks env_finishing;
     generateEmbeddings := generateEmbeddings env_finishing;
     getMilvusClient := getMilvusClient env_finishing;
     insert := fun h _ =>
       if existsb (fun e => match e with EInsert _ => true | _ => false end) h
       then Throw (JsError "insert: denied") else Normal tt;
     describeIndex := describeIndex env_finishing;
     createIndex := createIndex env_finishing;
     getIndexState := getIndexState env_finishing |}.

Definition sample_record : EmbeddingRecord :=
  {| rec_content := "def f(): pass"; rec_file_path := "a.py";
     rec_embedding := [Num 1; Num 2; Num 3]; rec_sessionId := "s1";
     rec_startLine := Some 1%Z; rec_endLine := Some 1%Z;
     rec_chunkType := Some "file" |}.

Definition sample_file (file_path file_content : string) : FileNode :=
  {| name := file_path; path := file_path; type := file; size := None;
     extension := Some ".py"; children := None;
     content := Some file_content |}.

End IndexRoute.

(** ** The runs of [POST] on an accepted request *)

Module RouteRuns.
Import Runner IndexRoute.

(** The payload built by the [catch] block of [POST]. *)
Definition error_response (development : bool) (error : Thrown) : Response :=
  {| payload :=
       [("success", JBool false);
        ("message",
         JStr match error with
              | JsError message => message
              | ThrownValue _ => "An unexpected error occurred during indexing."
              end)] ++
       match error with
       | JsError message =>
           if development then [("error", JStr message)] else []
       | ThrownValue _ => []
       end;
     status := 500 |}.

(** The payload of the first [return] of [POST]. *)
Definition invalid_request_response : Response :=
  {| payload := [("error", JStr "Invalid request parameters");
                 ("details", JStr "SessionId and codeFiles array are required")];
     status := 400 |}.

(** The payload of the last [return] of [POST]. *)
Definition success_response (totalChunks : nat) (processingTime indexingTime : Z)
  : Response :=
  {| payload :=
       [("success", JBool true);
        ("message", JStr "Codebase indexed successfully.");
        ("totalChunks", JNum (Z.of_nat totalChunks));
        ("processingTime", JNum processingTime);
        ("indexingTime", JNum indexingTime)];
     status := 200 |}.

(** All the records of the insert calls of a history, in order. *)
Definition inserted_records (tr : list Event) : list EmbeddingRecord :=
  concat (omap inserted_batch tr).

Section WithEnv.
Variable env : Env.

(** The four ways [POST] goes once it has a non-empty array of records to
    insert, from the history [h] it was started in: the client cannot be
    obtained, an insert call is refused, the index step throws, or
    everything succeeds. [tr] are the events of the insert step and [tr']
    those of [createIndexIfNeeded]. *)
Inductive post_run (embeddingsToInsert : list EmbeddingRecord) (h : History)
  : Outcome Response -> list Event -> Prop :=
| post_no_client error :
    getMilvusClient env (h ++ [EDateNow; EDateNow]) = Throw error ->
    post_run embeddingsToInsert h
      (Returned (error_response (NODE_ENV_development env) error))
      [EDateNow; EDateNow; EGetMilvusClient]
| post_insert_refused error tr :
    getMilvusClient env (h ++ [EDateNow; EDateNow]) = Normal tt ->
    insert_embeddings env embeddingsToInsert
      (h ++ [EDateNow; EDateNow; EGetMilvusClient; EDateNow]) = (Threw error, tr) ->
    post_run embeddingsToInsert h
      (Returned (error_response (NODE_ENV_development env) error))
      ([EDateNow; EDateNow; EGetMilvusClient; EDateNow] ++ tr)
| post_index_failed error tr tr' :
    getMilvusClient env (h ++ [EDateNow; EDateNow]) = Normal tt ->
    insert_embeddings env embeddingsToInsert
      (h ++ [EDateNow; EDateNow; EGetMilvusClient; EDateNow]) = (Returned tt, tr) ->
    createIndexIfNeeded env (Z.of_nat (length embeddingsToInsert))
      (h ++ [EDateNow; EDateNow; EGetMilvusClient; EDateNow] ++ tr ++ [EDateNow])
      = (Threw error, tr') ->
    post_run embeddingsToInsert h
      (Returned (error_response (NODE_ENV_development env) error))
      ([EDateNow; EDateNow; EGetMilvusClient; EDateNow] ++ tr ++ [EDateNow] ++ tr')
| post_indexed tr b tr' :
    getMilvusClient env (h ++ [EDateNow; EDateNow]) = Normal tt ->
    insert_embeddings env embeddingsToInsert
      (h ++ [EDateNow; EDateNow; EGetMilvusClient; EDateNow]) = (Returned tt, tr) ->
    createIndexIfNeeded env (Z.of_nat (length embeddingsToInsert))
      (h ++ [EDateNow; EDateNow; EGetMilvusClient; EDateNow] ++ tr ++ [EDateNow])
      = (Returned b, tr') ->
    post_run embeddingsToInsert h
      (Returned
         (success_response (length embeddingsToInsert)
            (Date_now env (h ++ [EDateNow]) - Date_now env h)
            (Date_now env
               (h ++ [EDateNow; EDateNow; EGetMilvusClient; EDateNow] ++ tr ++
                  [EDateNow] ++ tr' ++ [EDateNow])
             - Date_now env h
             - (Date_now env (h ++ [EDateNow]) - Date_now env h))))
      ([EDateNow; EDateNow; EGetMilvusClient; EDateNow] ++ tr ++ [EDateNow] ++
         tr' ++ [EDateNow; EDateNow]).

End WithEnv.

(** A store that refuses to create the index. *)
Definition env_refusing : Env :=
  {| Date_now := Date_now env_building;
     NODE_ENV_development := true;
     generateChunks := generateChunks env_building;
     generateEmbeddings := generateEmbeddings env_building;
     getMilvusClient := getMilvusClient env_building;
     insert := insert env_building;
     describeIndex := describeIndex env_building;
     createIndex := fun _ _ => Throw (JsError "create index: denied");
     getIndexState := getIndexState env_building |}.

(** A store whose state query fails. *)
Definition env_unreachable : Env :=
  sample_env no_index (fun _ => Throw (JsError "get index state: unavailable")).

End RouteRuns.

(** ** The other calls of the two store gateways *)

Module StoreCalls.
Import Search.

Inductive DataType : Type := Int64 | VarChar | FloatVector.

(** A field of a collection schema; a property that is not given is
    [None]. *)
Record FieldSchema : Type := mkFieldSchema {
  field_name : string;
  data_type : DataType;
  is_primary_key : option bool;
  autoID : option bool;
  max_length : option Z;
  dim : option number;
  type_params_dim : option string
}.

Record CreateCollectionReq : Type := mkCreateCollectionReq {
  cc_collection_name : string;
  cc_fields : list FieldSchema;
  cc_metric_type : option string;
  cc_enable_dynamic_field : bool
}.

(** Argument of [client.query]. *)
Record QueryReq : Type := mkQueryReq {
  q_collection_name : string;
  q_filter : string;
  q_output_fields : list string;
  q_limit : option Z
}.

(** What [client.query] resolves to: the code reads only [data]. *)
Record QueryResults : Type := mkQueryResults {
  data : option (list JsValue)
}.

(** The calls made on the store client, in order. *)
Inductive StoreCall : Type :=
| HasCollection (name : string)
| CreateCollection (req : CreateCollectionReq)
| InsertRows (collection : string) (rows : list JsValue)
| Query (req : QueryReq)
| Delete (collection : string) (filter : string).

(** The store client: each call is answered as a function of the calls
    made on the store before it and of its argument. [hasCollection] answers with the
    truth value of [value]; the results of [insert] and [delete] are
    passed on unread. *)
Record StoreClient : Type := mkStoreClient {
  hasCollection : list StoreCall -> string -> Completion bool;
  createCollection_ : list StoreCall -> CreateCollectionReq -> Completion unit;
  insert_ : list StoreCall -> string -> list JsValue -> Completion JsValue;
  query : list StoreCall -> QueryReq -> Completion QueryResults;
  delete_ : list StoreCall -> string -> string -> Completion JsValue
}.

Definition is_createCollection (c : StoreCall) : bool :=
  match c with CreateCollection _ => true | _ => false end.

Definition is_query (c : StoreCall) : bool :=
  match c with Query _ => true | _ => false end.

(** The store keeps the collections it has created: once a creation has
    succeeded, [hasCollection] answers [true] for its name. *)
Definition remembers_collections (client : StoreClient) : Prop :=
  forall before req after,
    createCollection_ client before req = Normal tt ->
    hasCollection client (before ++ CreateCollection req :: after)
      (cc_collection_name req) = Normal true.

End StoreCalls.

(** *** [ZillizClient]: [createCollection], [insertVectors],
        [queryBySessionId], [getAllChunks], [deleteSessionData] *)

Module ZillizMethods.
Import Search StoreCalls.

(** [CodeChunk] of [part_001], the argument of [insertVectors]. *)
Record CodeChunk : Type := mkCodeChunk {
  id : option JsValue;
  content : string;
  filePath : string;
  embedding : list number;
  sessionId : string;
  lineNumber : number
}.

(** The objects pushed by [queryBySessionId] and [getAllChunks]: the
    fields hold the values the guard let through. *)
Record StoredChunk : Type := mkStoredChunk {
  s_id : JsValue;
  s_content : JsValue;
  s_filePath : JsValue;
  s_embedding : JsValue;
  s_sessionId : JsValue;
  s_lineNumber : JsValue
}.

Definition defaultCollectionName : string := "code_embeddings".

(** Each method takes the calls made on the store before it, and returns
    how it ends with the calls it makes. *)
Section WithClient.
Variable client : StoreClient.
Variable parseInt : string -> number.

Definition collection_request (collectionName : string) (dimension : number)
  : CreateCollectionReq :=
  {| cc_collection_name := collectionName;
     cc_fields :=
       [ {| field_name := "id"; data_type := Int64;
            is_primary_key := Some true; autoID := Some true;
            max_length := None; dim := None; type_params_dim := None |};
         {| field_name := "embedding"; data_type := FloatVector;
            is_primary_key := None; autoID := None;
            max_length := None; dim := Some dimension;
            type_params_dim := None |} ];
     cc_metric_type := Some "COSINE";
     cc_enable_dynamic_field := true |}.

Definition createCollection (calls : list StoreCall)
    (collectionName : string) (dimension : number)
  : Completion unit * list StoreCall :=
  let failed error :=
    Throw (JsError ("Failed to create collection: " +:+ error_text error)) in
  match hasCollection client calls collectionName with
  | Normal value =>
      if negb value then
        let req := collection_request collectionName dimension in
        match createCollection_ client (calls ++ [HasCollection collectionName])
                req with
        | Normal _ =>
            (Normal tt, [HasCollection collectionName; CreateCollection req])
        | Throw error =>
            (failed error, [HasCollection collectionName; CreateCollection req])
        end
      else (Normal tt, [HasCollection collectionName])
  | Throw error => (failed error, [HasCollection collectionName])
  end.

(** The object built for a chunk by the callback of [data.map]. *)
Definition formatted_properties (chunk : CodeChunk) : gmap string JsValue :=
  <["vector" := JsArray (map JsNumber (embedding chunk))]>
  (<["content" := JsString (content chunk)]>
  (<["filePath" := JsString (filePath chunk)]>
  (<["sessionId" := JsString (sessionId chunk)]>
  (<["lineNumber" := JsNumber (lineNumber chunk)]> ∅)))).

Definition formatted_row (chunk : CodeChunk) : JsValue :=
  JsObject (formatted_properties chunk).

Definition insertVectors (calls : list StoreCall) (data : list CodeChunk)
  : Completion JsValue * list StoreCall :=
  let formattedData := map formatted_row data in
  (match insert_ client calls defaultCollectionName formattedData with
   | Normal result => Normal result
   | Throw error =>
       Throw (JsError ("Failed to insert vectors: " +:+ error_text error))
   end,
   [InsertRows defaultCollectionName formattedData]).

(** The type guard of [queryBySessionId]. *)
Definition query_guard (item : JsValue) : bool :=
  String.eqb (typeof item) "object" && negb (is_null item) &&
  has_property "id" item &&
    (String.eqb (typeof (get_property item "id")) "number" ||
     String.eqb (typeof (get_property item "id")) "string") &&
  has_property "content" item &&
    String.eqb (typeof (get_property item "content")) "string" &&
  has_property "filePath" item &&
    String.eqb (typeof (get_property item "filePath")) "string" &&
  has_property "embedding" item &&
    Array_isArray (get_property item "embedding") &&
  has_property "sessionId" item &&
    String.eqb (typeof (get_property item "sessionId")) "string" &&
  has_property "lineNumber" item &&
    String.eqb (typeof (get_property item "lineNumber")) "number".

(** The type guard of [getAllChunks]: the one above without the test on
    [embedding]. *)
Definition chunks_guard (item : JsValue) : bool :=
  String.eqb (typeof item) "object" && negb (is_null item) &&
  has_property "id" item &&
    (String.eqb (typeof (get_property item "id")) "number" ||
     String.eqb (typeof (get_property item "id")) "string") &&
  has_property "content" item &&
    String.eqb (typeof (get_property item "content")) "string" &&
  has_property "filePath" item &&
    String.eqb (typeof (get_property item "filePath")) "string" &&
  has_property "sessionId" item &&
    String.eqb (typeof (get_property item "sessionId")) "string" &&
  has_property "lineNumber" item &&
    String.eqb (typeof (get_property item "lineNumber")) "number".

(** [typeof x.id === 'string' ? parseInt(x.id) : x.id] *)
Definition numeric_id (item : JsValue) : JsValue :=
  match get_property item "id" with
  | JsString s => JsNumber (parseInt s)
  | other => other
  end.

(** The object pushed by [queryBySessionId] for an item that passes its
    guard. *)
Definition queried_chunk (item : JsValue) : StoredChunk :=
  {| s_id := numeric_id item;
     s_content := get_property item "content";
     s_filePath := get_property item "filePath";
     s_embedding := get_property item "embedding";
     s_sessionId := get_property item "sessionId";
     s_lineNumber := get_property item "lineNumber" |}.

(** The object pushed by [getAllChunks]: its [embedding] is the literal
    [[]]. *)
Definition listed_chunk (item : JsValue) : StoredChunk :=
  {| s_id := numeric_id item;
     s_content := get_property item "content";
     s_filePath := get_property item "filePath";
     s_embedding := JsArray [];
     s_sessionId := get_property item "sessionId";
     s_lineNumber := get_property item "lineNumber" |}.

Definition push_queried (acc : list StoredChunk) (item : JsValue)
  : list StoredChunk :=
  if query_guard item then acc ++ [queried_chunk item] else acc.

Definition push_chunk (acc : list StoredChunk) (item : JsValue)
  : list StoredChunk :=
  if chunks_guard item then acc ++ [listed_chunk item] else acc.

Definition queryBySessionId (calls : list StoreCall) (sessionId : string)
  : Completion (list StoredChunk) * list StoreCall :=
  let req :=
    {| q_collection_name := defaultCollectionName;
       q_filter := session_filter sessionId;
       q_output_fields :=
         ["content"; "filePath"; "embedding"; "sessionId"; "lineNumber"; "id"];
       q_limit := None |} in
  (match query client calls req with
   | Normal queryResult =>
       match data queryResult with
       | Some items => Normal (fold_left push_queried items [])
       | None => Normal []
       end
   | Throw error =>
       Throw (JsError ("Failed to query session data: " +:+ error_text error))
   end,
   [Query req]).

Definition getAllChunks (calls : list StoreCall) (sessionId : string)
    (limit : option Z)
  : Completion (list StoredChunk) * list StoreCall :=
  let limit := default 1000%Z limit in
  let req :=
    {| q_collection_name := defaultCollectionName;
       q_filter := session_filter sessionId;
       q_output_fields := ["content"; "filePath"; "sessionId"; "lineNumber"; "id"];
       q_limit := Some limit |} in
  (match query client calls req with
   | Normal queryResult =>
       match data queryResult with
       | Some items => Normal (fold_left push_chunk items [])
       | None => Normal []
       end
   | Throw error =>
       Throw (JsError ("Failed to retrieve all chunks: " +:+ error_text error))
   end,
   [Query req]).

Definition deleteSessionData (calls : list StoreCall) (sessionId : string)
  : Completion JsValue * list StoreCall :=
  (match delete_ client calls defaultCollectionName (session_filter sessionId) with
   | Normal result => Normal result
   | Throw error =>
       Throw (JsError ("Failed to delete session data: " +:+ error_text error))
   end,
   [Delete defaultCollectionName (session_filter sessionId)]).

End WithClient.

(** A row written by [insertVectors], as a store returns it from a search:
    with the identifier it was given and the score of the match. *)
Definition returned_row (chunk : CodeChunk) (row_id score : number) : JsValue :=
  JsObject (<["id" := JsNumber row_id]>
            (<["score" := JsNumber score]> (formatted_properties chunk))).

(** The store applies the filter of the query it is sent: whatever the
    query, every row it returns is selected by the filter text of the
    query. Nothing is assumed about the rows themselves. *)
Definition applies_query_filter (selects : SearchStores.FilterLanguage)
    (client : StoreClient) : Prop :=
  forall calls req res rows row,
    query client calls req = Normal res ->
    data res = Some rows ->
    In row rows ->
    selects (q_filter req) row = true.

(** A store that evaluates the filter of a query, in the language
    [SearchStores.comparison_filter], on each row it holds. *)
Definition evaluating_client (stored : list JsValue) : StoreClient :=
  {| hasCollection := fun _ _ => Normal true;
     createCollection_ := fun _ _ => Normal tt;
     insert_ := fun _ _ _ => Normal JsUndefined;
     query := fun _ req =>
       Normal {| data := Some
         (List.filter (SearchStores.comparison_filter (q_filter req)) stored) |};
     delete_ := fun _ _ _ => Normal JsUndefined |}.

(** A store holding the rows written for two chunks of two sessions, which
    answers a query with the rows of the session named in its filter. *)
Definition chunk_s1 : CodeChunk :=
  {| id := None; content := "def f(): pass"; filePath := "a.py";
     embedding := [Num 1; Num 2; Num 3]; sessionId := "s1";
     lineNumber := Num 1 |}.

Definition chunk_s2 : CodeChunk :=
  {| id := None; content := "def g(): pass"; filePath := "b.py";
     embedding := [Num 4; Num 5; Num 6]; sessionId := "s2";
     lineNumber := Num 7 |}.

Definition sample_client : StoreClient :=
  {| hasCollection := fun calls _ =>
       Normal (existsb is_createCollection calls);
     createCollection_ := fun _ _ => Normal tt;
     insert_ := fun _ _ _ => Normal JsUndefined;
     query := fun _ req =>
       Normal {| data := Some
         (List.filter
            (fun row =>
               match get_property row "sessionId" with
               | JsString s => String.eqb (q_filter req) (session_filter s)
               | _ => false
               end)
            [returned_row chunk_s1 (Num 11) (Num 1);
             JsString "not a row";
             returned_row chunk_s2 (Num 12) (Num 1)]) |};
     delete_ := fun _ _ _ => Normal JsUndefined |}.

(** What the sample stores hold: the rows of the two chunks, and a value
    that is not a row. *)
Definition sample_stored_rows : list JsValue :=
  [returned_row chunk_s1 (Num 11) (Num 1);
   JsString "not a row";
   returned_row chunk_s2 (Num 12) (Num 1)].

(** The rows a store holds for chunks written by [insertVectors], each
    with the identifier it was given and the score of a match. *)
Definition stored_rows (stored : list (CodeChunk * number * number))
  : list JsValue :=
  map (fun '(chunk, row_id, score) => returned_row chunk row_id score) stored.

(** A store that answers every search and every query with the same
    rows. *)
Definition answering_search (rows : list JsValue)
  : SearchReq -> Completion SearchResults :=
  fun _ => Normal {| results := Some [JsArray rows] |}.

Definition answering_client (rows : list JsValue) : StoreClient :=
  {| hasCollection := fun _ _ => Normal true;
     createCollection_ := fun _ _ => Normal tt;
     insert_ := fun _ _ _ => Normal JsUndefined;
     query := fun _ _ => Normal {| data := Some rows |};
     delete_ := fun _ _ _ => Normal JsUndefined |}.

(** A store client on which every call fails. *)
Definition failing_client : StoreClient :=
  {| hasCollection := fun _ _ => Throw (JsError "connection refused");
     createCollection_ := fun _ _ => Throw (JsError "connection refused");
     insert_ := fun _ _ _ => Throw (JsError "connection refused");
     query := fun _ _ => Throw (JsError "connection refused");
     delete_ := fun _ _ _ => Throw (ThrownValue "timeout") |}.

End ZillizMethods.

(** *** [lib/milvus.ts]: [getMilvusClient] and [queryBySessionId] *)

Module MilvusMethods.
Import Search StoreCalls.

(** The variables of [process.env] that [getMilvusClient] reads. *)
Record ProcessEnv : Type := mkProcessEnv {
  MILVUS_HOST : option string;
  MILVUS_PORT : option string;
  MILVUS_TOKEN : option string
}.

(** The argument of [new MilvusClient]. *)
Record ClientConfig : Type := mkClientConfig {
  address : string;
  port : number;
  ssl : bool;
  token : option string
}.

Definition COLLECTION_NAME : string := "code_embeddings".

(** A variable of the environment counts when it is set and not empty. *)
Definition env_value (v : option string) : option string :=
  match v with
  | Some s => if String.eqb s "" then None else Some s
  | None => None
  end.

Definition collection_request : CreateCollectionReq :=
  {| cc_collection_name := COLLECTION_NAME;
     cc_fields :=
       [ {| field_name := "id"; data_type := Int64;
            is_primary_key := Some true; autoID := Some true;
            max_length := None; dim := None; type_params_dim := None |};
         {| field_name := "content"; data_type := VarChar;
            is_primary_key := None; autoID := None;
            max_length := Some 65535%Z; dim := None; type_params_dim := None |};
         {| field_name := "file_path"; data_type := VarChar;
            is_primary_key := None; autoID := None;
            max_length := Some 1024%Z; dim := None; type_params_dim := None |};
         {| field_name := "embedding"; data_type := FloatVector;
            is_primary_key := None; autoID := None;
            max_length := None; dim := None;
            type_params_dim := Some "1024" |} ];
     cc_metric_type := None;
     cc_enable_dynamic_field := true |}.

Section WithClient.
Variable process_env : ProcessEnv.
Variable parseInt : string -> number.
(** [new MilvusClient(config)]: the client answering for a configuration. *)
Variable client : ClientConfig -> StoreClient.

Definition client_config : ClientConfig :=
  {| address := default "localhost" (env_value (MILVUS_HOST process_env));
     port := match env_value (MILVUS_PORT process_env) with
             | Some p => parseInt p
             | None => Num 19530
             end;
     ssl := true;
     token := env_value (MILVUS_TOKEN process_env) |}.

(** The result is the configuration the returned client was built with;
    [calls] are the calls made on the store before, as in [ZillizMethods]. *)
Definition getMilvusClient (calls : list StoreCall)
  : Completion ClientConfig * list StoreCall :=
  let config := client_config in
  match hasCollection (client config) calls COLLECTION_NAME with
  | Normal value =>
      if negb value then
        match createCollection_ (client config)
                (calls ++ [HasCollection COLLECTION_NAME])
                collection_request with
        | Normal _ =>
            (Normal config,
             [HasCollection COLLECTION_NAME; CreateCollection collection_request])
        | Throw error =>
            (Throw error,
             [HasCollection COLLECTION_NAME; CreateCollection collection_request])
        end
      else (Normal config, [HasCollection COLLECTION_NAME])
  | Throw error => (Throw error, [HasCollection COLLECTION_NAME])
  end.

(** [queryBySessionId]: the calls of [getMilvusClient], then the query,
    made outside the [try] block when the client could be obtained. *)
Definition queryBySessionId (calls : list StoreCall) (sessionId : string)
  : Completion (list JsValue) * list StoreCall :=
  match getMilvusClient calls with
  | (Normal config, checks) =>
      let req :=
        {| q_collection_name := COLLECTION_NAME;
           q_filter := session_filter sessionId;
           q_output_fields := ["content"; "file_path"; "embedding"; "sessionId"];
           q_limit := None |} in
      (match query (client config) (calls ++ checks) req with
       | Normal queryResult => Normal (default [] (data queryResult))
       | Throw error =>
           Throw (JsError ("Failed to query session data: " +:+ error_text error))
       end,
       checks ++ [Query req])
  | (Throw error, checks) => (Throw error, checks)
  end.

End WithClient.
End MilvusMethods.

(** ** The client of the routes ([ApiClient], in [src/lib/session-context.tsx]) *)

(** *** [getBuildGuideStream]: reading the event stream *)

Module BuildGuideStream.

(** The text of the stream, as the sequence of its code units. *)
Definition text : Type := list Ascii.ascii.

Definition newline : Ascii.ascii := Ascii.ascii_of_nat 10.

(** The calls of [onUpdate], [onComplete] and [onError], in order. The
    callbacks are taken to return normally. *)
Inductive Callback (Parsed : Type) : Type :=
| OnUpdate (data : Parsed)
| OnComplete
| OnError (message : string).
Arguments OnUpdate {Parsed} data.
Arguments OnComplete {Parsed}.
Arguments OnError {Parsed} message.

(** How the reads of a reader end: with [done], or with a rejected
    [read]. *)
Inductive ReadEnd : Type :=
| Done
| ReadFails (error : Thrown).

(** [response.body.getReader()]: the chunks it yields, as [decoder.decode]
    returns them, and how it ends. A stream that never ends is not
    represented. *)
Record Reader : Type := mkReader {
  chunks : list text;
  ending : ReadEnd
}.

(** What [getBuildGuideStream] reads of the response of [fetch]. *)
Record StreamResponse : Type := mkStreamResponse {
  ok : bool;
  status : N;
  response_text : Completion string;
  body : option Reader
}.

(** [buffer.indexOf('\n\n')], [None] standing for [-1]. *)
Fixpoint indexOf_blank_line (buffer : text) : option nat :=
  match buffer with
  | [] => None
  | a :: rest =>
      if Ascii.eqb a newline &&
         match rest with
         | b :: _ => Ascii.eqb b newline
         | [] => false
         end
      then Some 0
      else S <$> indexOf_blank_line rest
  end.

(** [eventBlock.split('\n')] *)
Fixpoint split_lines (block : text) : list text :=
  match block with
  | [] => [[]]
  | a :: rest =>
      if Ascii.eqb a newline then [] :: split_lines rest
      else match split_lines rest with
           | line :: lines => (a :: line) :: lines
           | [] => [[a]]
           end
  end.

(** [line.startsWith(prefix)] *)
Fixpoint startsWith (prefix line : text) : bool :=
  match prefix, line with
  | [], _ => true
  | p :: prefix, a :: line => Ascii.eqb p a && startsWith prefix line
  | _ :: _, [] => false
  end.

(** The message passed to [onError] by the outer [catch]. *)
Definition stream_error (error : Thrown) : string :=
  match error with
  | JsError message => message
  | ThrownValue _ => "An unknown error occurred during stream."
  end.

Section WithBuiltins.
(** The values [JSON.parse] returns, [JSON.parse] and [String.prototype.trim]. *)
Variable Parsed : Type.
Variable JSON_parse : text -> Completion Parsed.
Variable trim : text -> text.

(** Body of the [for] loop over the lines of an event block. *)
Definition process_line (line : text) : list (Callback Parsed) :=
  if startsWith (String.list_ascii_of_string "data: ") line then
    let jsonString := trim (drop 6 line) in
    match jsonString with
    | [] => []
    | _ :: _ =>
        match JSON_parse jsonString with
        | Normal parsedData => [OnUpdate parsedData]
        | Throw parseError =>
            [OnError ("Failed to parse stream data: " +:+ error_text parseError)]
        end
    end
  else if startsWith (String.list_ascii_of_string "event: ") line ||
          startsWith (String.list_ascii_of_string "id: ") line ||
          startsWith (String.list_ascii_of_string ":") line then []
  else match line with
       | [] => []
       | _ :: _ => []
       end.

(** The inner [while (true)] loop: the events that are complete in the
    buffer are processed, what follows the last of them stays in the
    buffer. [None] when the fuel runs out. *)
Fixpoint process_events (fuel : nat) (buffer : text)
  : option (list (Callback Parsed) * text) :=
  match fuel with
  | 0 => None
  | S fuel =>
      match indexOf_blank_line buffer with
      | None => Some ([], buffer)
      | Some eventEndIndex =>
          let eventBlock := trim (take eventEndIndex buffer) in
          let buffer := drop (eventEndIndex + 2) buffer in
          let lines := split_lines eventBlock in
          match process_events fuel buffer with
          | Some (later, buffer) =>
              Some (flat_map process_line lines ++ later, buffer)
          | None => None
          end
      end
  end.

(** The outer [while (true)] loop, by recursion on the chunks still to be
    read. *)
Fixpoint read_loop (chunks : list text) (ending : ReadEnd) (buffer : text)
  : option (list (Callback Parsed)) :=
  match chunks with
  | [] =>
      match ending with
      | Done => Some [OnComplete]
      | ReadFails error => Some [OnError (stream_error error)]
      end
  | value :: chunks =>
      let buffer := buffer ++ value in
      match process_events (S (length buffer)) buffer with
      | Some (events, buffer) =>
          match read_loop chunks ending buffer with
          | Some later => Some (events ++ later)
          | None => None
          end
      | None => None
      end
  end.

(** [getBuildGuideStream]: [fetch] is given the address and the session of
    the request body. *)
Definition getBuildGuideStream
    (fetch : string -> string -> Completion StreamResponse)
    (baseUrl sessionId : string) : option (list (Callback Parsed)) :=
  match fetch (baseUrl +:+ "/build-guide-stream") sessionId with
  | Normal response =>
      if negb (ok response) then
        match response_text response with
        | Normal errorText =>
            Some [OnError ("Failed to get build guide stream: HTTP " +:+
                           pretty (status response) +:+ " - " +:+ errorText)]
        | Throw error => Some [OnError (stream_error error)]
        end
      else
        match body response with
        | None => Some [OnError "Failed to get readable stream from response."]
        | Some reader => read_loop (chunks reader) (ending reader) []
        end
  | Throw error => Some [OnError (stream_error error)]
  end.

End WithBuiltins.

(** The event a server writes for a message. *)
Definition sse_event (message : text) : text :=
  String.list_ascii_of_string "data: " ++ message ++ [newline; newline].

Definition is_OnComplete {Parsed} (c : Callback Parsed) : bool :=
  match c with OnComplete => true | _ => false end.

Definition is_OnUpdate {Parsed} (c : Callback Parsed) : bool :=
  match c with OnUpdate _ => true | _ => false end.

(** The callback made for the message of a [data] line. *)
Definition delivered {Parsed} (JSON_parse : text -> Completion Parsed)
    (message : text) : Callback Parsed :=
  match JSON_parse message with
  | Normal parsedData => OnUpdate parsedData
  | Throw parseError =>
      OnError ("Failed to parse stream data: " +:+ error_text parseError)
  end.

(** Stand-ins for the builtins: a parser that accepts the texts starting
    with an opening brace, and a [trim] for texts without surrounding
    white space. *)
Definition sample_parse : text -> Completion text :=
  fun t =>
    match t with
    | a :: _ => if Ascii.eqb a (Ascii.ascii_of_nat 123) then Normal t
                else Throw (JsError "Unexpected token")
    | [] => Throw (JsError "Unexpected end of JSON input")
    end.

Definition sample_trim : text -> text := fun t => t.

End BuildGuideStream.

(** *** [indexCode]: the client of the indexing route *)

Module ApiClient.

(** The argument of [fetch]; [body] is the value given to
    [JSON.stringify]. *)
Record Request : Type := mkRequest {
  url : string;
  method : string;
  body : option JsValue
}.

(** What the client reads of the response: [json] is how
    [response.json()] settles. *)
Record HttpResponse : Type := mkHttpResponse {
  ok : bool;
  status : Z;
  json : Completion JsValue
}.

(** [a || b] *)
Definition or_else (a b : JsValue) : JsValue := if truthy a then a else b.

(** [v.key] where [v] may be [null] or [undefined]: the access is then a
    [TypeError]. *)
Definition property_of (v : JsValue) (key : string) : Completion JsValue :=
  match v with
  | JsNull =>
      Throw (JsError ("Cannot read properties of null (reading '" +:+ key +:+ "')"))
  | JsUndefined =>
      Throw (JsError ("Cannot read properties of undefined (reading '" +:+ key
                      +:+ "')"))
  | _ => Normal (get_property v key)
  end.

Section WithBuiltins.
(** The conversion to a string of a value that is not one. *)
Variable ToString : JsValue -> string.

(** The text a template literal gives for a value. *)
Definition template_text (v : JsValue) : string :=
  match v with
  | JsString s => s
  | other => ToString other
  end.

(** The request [indexCode] sends. *)
Definition index_request (baseUrl sessionId : string)
    (codeFiles tempDir totalFiles : JsValue) : Request :=
  {| url := baseUrl +:+ "/index";
     method := "POST";
     body := Some (JsObject
       (<["sessionId" := JsString sessionId]>
        (<["codeFiles" := codeFiles]>
        (<["tempDir" := tempDir]>
        (<["totalFiles" := totalFiles]> ∅))))) |}.

Definition indexCode (fetch : Request -> Completion HttpResponse)
    (baseUrl sessionId : string) (codeFiles tempDir totalFiles : JsValue)
  : Completion unit :=
  let rethrow error :=
    match error with
    | JsError message => Throw (JsError message)
    | ThrownValue _ => Throw (JsError "Indexing request failed")
    end in
  match fetch (index_request baseUrl sessionId codeFiles tempDir totalFiles) with
  | Normal response =>
      if negb (ok response) then
        let errorData :=
          match json response with
          | Normal value => value
          | Throw _ => JsObject ∅
          end in
        match property_of errorData "error" with
        | Normal error =>
            Throw (JsError ("Indexing failed: " +:+
              template_text
                (or_else error
                   (or_else (get_property errorData "message")
                      (JsString ("HTTP " +:+ pretty (status response)))))))
        | Throw error => rethrow error
        end
      else
        match json response with
        | Normal data =>
            match property_of data "message" with
            | Normal _ => Normal tt
            | Throw error => rethrow error
            end
        | Throw error => rethrow error
        end
  | Throw error => rethrow error
  end.

(** [request]: [data] is sent as the body when it is
    truthy. *)
Definition request (fetch : Request -> Completion HttpResponse)
    (baseUrl endpoint http_method : string) (data : JsValue)
  : Completion JsValue :=
  match fetch {| url := baseUrl +:+ endpoint;
                 method := http_method;
                 body := if truthy data then Some data else None |} with
  | Normal response =>
      if negb (ok response) then
        let errorData :=
          match json response with
          | Normal value => value
          | Throw _ => JsObject ∅
          end in
        match property_of errorData "message" with
        | Normal message =>
            Throw (JsError
              (template_text
                 (or_else message
                    (JsString ("API request failed with status " +:+
                               pretty (status response))))))
        | Throw error => Throw error
        end
      else json response
  | Throw error => Throw error
  end.

(** [chatWithCode]: a [limit] that is not given is left out of the body. *)
Definition chatWithCode (fetch : Request -> Completion HttpResponse)
    (baseUrl : string) (message sessionId : JsValue) (limit : option JsValue)
  : Completion JsValue :=
  request fetch baseUrl "/chat" "POST"
    (JsObject
       (<["message" := message]>
        (<["sessionId" := sessionId]>
        (match limit with
         | Some l => <["limit" := l]> ∅
         | None => ∅
         end)))).

End WithBuiltins.

(** The response the client receives for a response of the route: the
    payload as [response.json()] parses it. *)
Definition js_of_json (v : IndexRoute.Json) : JsValue :=
  match v with
  | IndexRoute.JBool b => JsBool b
  | IndexRoute.JNum z => JsNumber (Num (inject_Z z))
  | IndexRoute.JStr s => JsString s
  end.

Definition received (response : IndexRoute.Response) : HttpResponse :=
  {| ok := (200 <=? IndexRoute.status response)%Z &&
           (IndexRoute.status response <=? 299)%Z;
     status := IndexRoute.status response;
     json := Normal (JsObject
               (list_to_map
                  (map (fun kv => (fst kv, js_of_json (snd kv)))
                       (IndexRoute.payload response)))) |}.

(** A stand-in for the conversion of values to strings. *)
Definition sample_ToString : JsValue -> string := fun _ => "[object Object]".

End ApiClient.

(** ** The chat panel ([ChatModeContent], in [src/unnamed/part_000]) *)

Module ChatMode.

Inductive Sender : Type := user | ai.

(** A [ChatMessage]; its [id] and its [timestamp], both read from the
    clock, are left out. *)
Record ChatMessage : Type := mkChatMessage {
  type : Sender;
  content : JsValue
}.

(** The state of the component. *)
Record State : Type := mkState {
  messages : list ChatMessage;
  isTyping : bool;
  chatError : option JsValue
}.

(** The calls of the state setters; [setMessages] is only called with the
    function that appends one message. *)
Inductive Update : Type :=
| AppendMessage (newMessage : ChatMessage)
| SetIsTyping (value : bool)
| SetChatError (value : option JsValue).

Definition apply_update (st : State) (u : Update) : State :=
  match u with
  | AppendMessage newMessage =>
      {| messages := messages st ++ [newMessage];
         isTyping := isTyping st;
         chatError := chatError st |}
  | SetIsTyping value =>
      {| messages := messages st; isTyping := value; chatError := chatError st |}
  | SetChatError value =>
      {| messages := messages st; isTyping := isTyping st; chatError := value |}
  end.

(** The base address of the exported [apiClient]. *)
Definition apiClient_baseUrl : string := "/api".

Definition addMessage (content : JsValue) (type : Sender) : list Update :=
  [AppendMessage {| type := type; content := content |}].

Section WithBuiltins.
Variable ToString : JsValue -> string.
Variable fetch : ApiClient.Request -> Completion ApiClient.HttpResponse.

(** [sendChatMessage]: the setter calls it makes, in order. *)
Definition sendChatMessage (userMessage currentSessionId : JsValue)
  : list Update :=
  let failed error :=
    let text :=
      JsString match error with
               | JsError message => message
               | ThrownValue _ => "An unexpected error occurred during chat."
               end in
    [SetChatError (Some text)] ++ addMessage text ai in
  [SetIsTyping true; SetChatError None] ++
  match ApiClient.chatWithCode ToString fetch apiClient_baseUrl
          userMessage currentSessionId None with
  | Normal response =>
      match ApiClient.property_of response "success" with
      | Normal success =>
          if truthy success then addMessage (get_property response "response") ai
          else
            let text :=
              ApiClient.or_else (get_property response "message")
                (JsString "Failed to get chat response.") in
            [SetChatError (Some text)] ++ addMessage text ai
      | Throw error => failed error
      end
  | Throw error => failed error
  end ++
  [SetIsTyping false].

(** [handleChatMessage], with the exchange it starts run to its end. *)
Definition handleChatMessage (userMessage currentSessionId : JsValue)
  : list Update :=
  if truthy currentSessionId then
    addMessage userMessage user ++ sendChatMessage userMessage currentSessionId
  else
    [SetChatError
       (Some (JsString "No session ID available. Please upload a codebase first."))].

End WithBuiltins.

(** The state the component starts in. *)
Definition initial_state : State :=
  {| messages :=
       [{| type := ai;
           content := JsString
             "HELLO! I'M YOUR AI ASSISTANT FOR THIS CODEBASE. ASK ME ANYTHING ABOUT YOUR CODE!" |}];
     isTyping := false;
     chatError := None |}.

(** A server that answers every request with a chat response. *)
Definition answering_fetch
  : ApiClient.Request -> Completion ApiClient.HttpResponse :=
  fun _ =>
    Normal {| ApiClient.ok := true;
              ApiClient.status := 200;
              ApiClient.json :=
                Normal (JsObject
                  (<["success" := JsBool true]>
                   (<["response" := JsString "It parses the files."]> ∅))) |}.

End ChatMode.

(** * Properties *)

(** ** Runner *)

Module RunnerFacts.
Import Runner.

Section Facts.
Context {T R E : Type}.
Variable processor : T -> PromiseSettledResult R E.

Lemma fold_collect (rs : list (PromiseSettledResult R E)) :
  forall st : RunnerState T R E,
    fold_left collect rs st =
    mkRunnerState (results st ++ omap fulfilled_value rs)
                  (warnings st ++ omap rejected_reason rs)
                  (events st).
Proof.
  induction rs as [|r rs IH]; intros st; simpl.
  - destruct st; simpl. by rewrite !app_nil_r.
  - rewrite IH. destruct r; simpl; by rewrite <- !app_assoc.
Qed.

Lemma consecutive_batches_fuel_enough (n : nat) :
  1 <= n -> forall fuel (l : list T),
    length l <= fuel ->
    consecutive_batches_fuel fuel n l = consecutive_batches n l.
Proof.
  intros Hn. unfold consecutive_batches.
  assert (Hgen : forall f1 f2 (l : list T), length l <= f1 -> length l <= f2 ->
             consecutive_batches_fuel f1 n l = consecutive_batches_fuel f2 n l).
  { induction f1 as [|f1 IH]; intros f2 l H1 H2.
    - destruct l; [|simpl in H1; lia]. by destruct f2.
    - destruct l as [|x l]; [by destruct f2|].
      destruct f2 as [|f2]; [simpl in H2; lia|].
      cbn [consecutive_batches_fuel]. f_equal.
      apply IH; rewrite length_drop; simpl in *; lia. }
  intros fuel l Hl. by apply Hgen.
Qed.

Lemma consecutive_batches_unfold (n : nat) (l : list T) :
  1 <= n -> l <> [] ->
  consecutive_batches n l = take n l :: consecutive_batches n (drop n l).
Proof.
  intros Hn Hl. unfold consecutive_batches at 1.
  destruct l as [|x l]; [done|].
  cbn [length consecutive_batches_fuel]. f_equal.
  apply consecutive_batches_fuel_enough; [done|].
  rewrite length_drop. simpl. lia.
Qed.

(** Induction principle following the batches of a list. *)
Lemma batches_ind (n : nat) (P : list T -> Prop) :
  1 <= n ->
  P [] ->
  (forall l, l <> [] -> P (drop n l) -> P l) ->
  forall l, P l.
Proof.
  intros Hn Hnil Hstep l.
  remember (length l) as k eqn:Hk.
  revert l Hk. induction k as [k IH] using lt_wf_ind. intros l Hk.
  destruct l as [|x l]; [done|].
  apply Hstep; [done|].
  apply (IH (length (drop n (x :: l)))); [|done].
  rewrite length_drop. subst k. simpl. lia.
Qed.

Lemma concat_consecutive_batches (n : nat) (l : list T) :
  1 <= n -> concat (consecutive_batches n l) = l.
Proof.
  intros Hn. pattern l. apply (batches_ind n); [done|done|].
  clear l. intros l Hl IH.
  rewrite consecutive_batches_unfold by done. simpl.
  rewrite IH. apply take_drop.
Qed.

Lemma consecutive_batches_sizes (n : nat) (l : list T) :
  1 <= n ->
  Forall (fun b => 1 <= length b <= n) (consecutive_batches n l).
Proof.
  intros Hn. pattern l. apply (batches_ind n); [done|constructor|].
  clear l. intros l Hl IH.
  rewrite consecutive_batches_unfold by done.
  constructor; [|done].
  rewrite length_take. destruct l; [done|]. simpl. lia.
Qed.

Lemma consecutive_batches_full (n : nat) (l : list T) :
  1 <= n ->
  forall k b, consecutive_batches n l !! k = Some b ->
    S k < length (consecutive_batches n l) -> length b = n.
Proof.
  intros Hn. pattern l. apply (batches_ind n); [done|done|].
  clear l. intros l Hl IH.
  rewrite consecutive_batches_unfold by done.
  intros [|k] b Hb Hlen; simpl in *.
  - injection Hb as <-. rewrite length_take.
    destruct (decide (length l <= n)) as [Hle|]; [|lia].
    rewrite drop_ge in Hlen by done. simpl in Hlen. lia.
  - apply (IH k); [done|lia].
Qed.

Lemma launched_batches_batch_events (bs : list (list T)) :
  launched_batches (concat (map batch_events bs)) = bs.
Proof.
  unfold launched_batches.
  assert (Hone : forall (b cur : list T) k tr,
    launched_batches_from cur ((map Launch b ++ [AllSettled k]) ++ tr) =
    (cur ++ b) :: launched_batches_from [] tr).
  { induction b as [|x b IH]; intros cur k tr; simpl.
    - by rewrite app_nil_r.
    - rewrite IH. by rewrite <- app_assoc. }
  induction bs as [|b bs IH]; [done|].
  cbn [map concat]. unfold batch_events at 1. rewrite Hone, IH. done.
Qed.

Lemma high_water_batch_events (n : nat) (bs : list (list T)) :
  Forall (fun b => length b <= n) bs ->
  high_water 0 (concat (map batch_events bs)) <= n.
Proof.
  assert (Hone : forall (b : list T) cur k tr m,
    cur + length b <= m -> high_water 0 tr <= m ->
    high_water cur ((map Launch b ++ [AllSettled k]) ++ tr) <= m).
  { induction b as [|x b IH]; intros cur k tr m Hc Ht; simpl in *.
    - lia.
    - specialize (IH (S cur) k tr m). lia. }
  induction 1 as [|b bs Hb _ IH]; cbn [map concat]; [simpl; lia|].
  unfold batch_events at 1. apply Hone; [simpl; lia|done].
Qed.

(** The loop, from index [i] on, absorbs the rest of the items batch by
    batch. *)
Lemma processConcurrently_loop_spec (items : list T) (maxConcurrency : nat) :
  1 <= maxConcurrency ->
  forall fuel i (st : RunnerState T R E),
    length items - i <= fuel ->
    processConcurrently_loop processor fuel items maxConcurrency i st =
    Some (mkRunnerState
      (results st ++ omap fulfilled_value (map processor (drop i items)))
      (warnings st ++ omap rejected_reason (map processor (drop i items)))
      (events st ++
         concat (map batch_events
                   (consecutive_batches maxConcurrency (drop i items))))).
Proof.
  intros Hmc. induction fuel as [|fuel IH]; intros i st Hfuel.
  - cbn [processConcurrently_loop].
    destruct (Nat.ltb_spec i (length items)) as [Hlt|Hge]; [lia|].
    rewrite drop_ge by done. destruct st; simpl. by rewrite !app_nil_r.
  - cbn [processConcurrently_loop].
    destruct (Nat.ltb_spec i (length items)) as [Hlt|Hge].
    + rewrite fold_collect, IH by lia. cbn [results warnings events launch_batch].
      assert (Hne : drop i items <> []).
      { intros Hnil. apply drop_nil_inv in Hnil. lia. }
      assert (Hsplit : drop i items =
                take maxConcurrency (drop i items) ++
                drop (i + maxConcurrency) items).
      { by rewrite <- drop_drop, take_drop. }
      rewrite (consecutive_batches_unfold _ (drop i items)) by done.
      unfold slice. replace (i + maxConcurrency - i) with maxConcurrency by lia.
      rewrite drop_drop.
      set (b := take maxConcurrency (drop i items)) in *.
      rewrite Hsplit, map_app, !omap_app.
      cbn [map concat]. unfold batch_events at 2.
      by rewrite <- !app_assoc.
    + rewrite drop_ge by done. destruct st; simpl. by rewrite !app_nil_r.
Qed.

Lemma processConcurrently_run_spec (items : list T) (maxConcurrency : nat) :
  1 <= maxConcurrency ->
  processConcurrently_run processor items maxConcurrency =
  Some (mkRunnerState
    (omap fulfilled_value (map processor items))
    (omap rejected_reason (map processor items))
    (concat (map batch_events (consecutive_batches maxConcurrency items)))).
Proof.
  intros Hmc. unfold processConcurrently_run.
  rewrite processConcurrently_loop_spec by (done || lia). done.
Qed.
End Facts.
End RunnerFacts.

(** ** Claims on [processConcurrently] *)

Module RunnerClaims.
Import Runner RunnerFacts.

Lemma omap_in_iff {A B : Type} (f : A -> option B) (l : list A) (b : B) :
  In b (omap f l) <-> exists a, In a l /\ f a = Some b.
Proof.
  rewrite <- list_elem_of_In, list_elem_of_omap.
  split; intros (a & Ha & Hf); exists a; by rewrite ?list_elem_of_In in *.
Qed.

(** Two positions of [omap f l] come from two positions of [l] in the
    same order. *)
Lemma omap_lookup_order {A B : Type} (f : A -> option B) (l : list A) :
  forall p q b1 b2,
    p < q -> omap f l !! p = Some b1 -> omap f l !! q = Some b2 ->
    exists i j a1 a2,
      i < j /\ l !! i = Some a1 /\ l !! j = Some a2 /\
      f a1 = Some b1 /\ f a2 = Some b2.
Proof.
  induction l as [|a l IH]; intros p q b1 b2 Hpq Hp Hq; [done|].
  cbn [omap list_omap] in Hp, Hq. destruct (f a) as [b|] eqn:Hfa.
  - destruct p as [|p]; destruct q as [|q]; try lia; simpl in Hp, Hq.
    + injection Hp as ->.
      apply list_elem_of_lookup_2, list_elem_of_omap in Hq as (a2 & Ha2 & Hf2).
      apply list_elem_of_lookup_1 in Ha2 as [j Hj].
      exists 0, (S j), a, a2. repeat split; [lia|done..].
    + destruct (IH p q b1 b2) as (i & j & a1 & a2 & ? & ? & ? & ? & ?);
        [lia|done|done|].
      exists (S i), (S j), a1, a2. repeat split; [lia|done..].
  - destruct (IH p q b1 b2) as (i & j & a1 & a2 & ? & ? & ? & ? & ?);
      [lia|done|done|].
    exists (S i), (S j), a1, a2. repeat split; [lia|done..].
Qed.

Lemma fulfilled_value_Some {R E : Type} (r : PromiseSettledResult R E) (v : R) :
  fulfilled_value r = Some v <-> r = fulfilled v.
Proof. destruct r; simpl; split; congruence. Qed.

Lemma omap_map {A B C : Type} (g : A -> B) (f : B -> option C) (l : list A) :
  omap f (map g l) = omap (fun a => f (g a)) l.
Proof.
  induction l as [|a l IH]; [done|].
  cbn [map omap list_omap]. destruct (f (g a)); by rewrite <- IH.
Qed.

Lemma length_omap_split {R E : Type} (rs : list (PromiseSettledResult R E)) :
  length (omap fulfilled_value rs) + length (omap rejected_reason rs) = length rs.
Proof.
  induction rs as [|[v|e] rs IH]; [done|..];
    cbn [omap list_omap fulfilled_value rejected_reason length] in *; lia.
Qed.

Section Claims.
Context {T R E : Type}.
Variable processor : T -> PromiseSettledResult R E.

(** C1. For a ceiling [maxConcurrency >= 1], [processConcurrently]
    returns; the batches it launches are the consecutive batches of
    [maxConcurrency] items, the last one possibly smaller; the trace is,
    batch after batch, the launches of the batch followed by the wait
    for all of them to settle, so that never more than [maxConcurrency]
    operations are in flight; for no items nothing is launched and the
    result is empty; seven items with ceiling five give batches of
    sizes 5 and 2. *)
Theorem processConcurrently_batches (items : list T) (maxConcurrency : nat) :
  1 <= maxConcurrency ->
  exists st,
    processConcurrently_run processor items maxConcurrency = Some st /\
    let batches := launched_batches (events st) in
    batches = consecutive_batches maxConcurrency items /\
    concat batches = items /\
    Forall (fun b => 1 <= length b <= maxConcurrency) batches /\
    (forall k b, batches !! k = Some b -> S k < length batches ->
                 length b = maxConcurrency) /\
    events st = concat (map batch_events batches) /\
    high_water 0 (events st) <= maxConcurrency /\
    (items = [] -> results st = [] /\ events st = []) /\
    (length items = 7 -> maxConcurrency = 5 -> map length batches = [5; 2]).
Proof.
  intros Hmc. eexists. split; [by apply processConcurrently_run_spec|].
  cbn [events results]. rewrite launched_batches_batch_events. cbv zeta.
  split; [done|].
  split; [by apply concat_consecutive_batches|].
  split; [by apply consecutive_batches_sizes|].
  split; [by apply consecutive_batches_full|].
  split; [done|].
  split.
  { apply high_water_batch_events.
    eapply Forall_impl; [by apply consecutive_batches_sizes|].
    simpl. lia. }
  split.
  - intros ->. done.
  - intros Hlen ->.
    do 8 (destruct items as [|? items]; try discriminate Hlen). done.
Qed.

(** C2. A rejected operation costs only its own result: every item is
    launched, every fulfilled operation of a batch has its value in the
    returned array whatever the other operations of the batch did, the
    returned array holds exactly the values of the fulfilled
    operations, and each rejection is logged with its reason. *)
Theorem processConcurrently_isolates_failures
    (items : list T) (maxConcurrency : nat) :
  1 <= maxConcurrency ->
  exists st,
    processConcurrently_run processor items maxConcurrency = Some st /\
    processConcurrently processor items maxConcurrency = Some (results st) /\
    concat (launched_batches (events st)) = items /\
    (forall batch x v,
       In batch (launched_batches (events st)) -> In x batch ->
       processor x = fulfilled v -> In v (results st)) /\
    (forall v, In v (results st) <->
               exists x, In x items /\ processor x = fulfilled v) /\
    results st = omap fulfilled_value (map processor items) /\
    warnings st = omap rejected_reason (map processor items) /\
    length (results st) + length (warnings st) = length items.
Proof.
  intros Hmc. eexists. split; [by apply processConcurrently_run_spec|].
  unfold processConcurrently. rewrite processConcurrently_run_spec by done.
  cbn [events results warnings fmap option_fmap option_map].
  rewrite launched_batches_batch_events.
  assert (Hin : forall v,
    In v (omap fulfilled_value (map processor items)) <->
    exists x, In x items /\ processor x = fulfilled v).
  { intros v. rewrite omap_map, omap_in_iff.
    split; intros (x & Hx & Hv); exists x; split; try done;
      by apply fulfilled_value_Some. }
  split; [done|]. split; [by apply concat_consecutive_batches|].
  split; [|split; [done|]].
  - intros batch x v Hb Hx Hv. apply Hin. exists x. split; [|done].
    rewrite <- (concat_consecutive_batches maxConcurrency items) by done.
    apply in_concat. eauto.
  - split; [done|]. split; [done|].
    rewrite length_omap_split. apply length_map.
Qed.

(** C10. The returned array keeps the order of the items: it is the
    list of the values of the fulfilled operations taken in item order,
    and two results come from two items that stand in the same order. *)
Theorem processConcurrently_preserves_order
    (items : list T) (maxConcurrency : nat) :
  1 <= maxConcurrency ->
  exists out,
    processConcurrently processor items maxConcurrency = Some out /\
    out = omap (fun x => fulfilled_value (processor x)) items /\
    (forall p q v1 v2,
       p < q -> out !! p = Some v1 -> out !! q = Some v2 ->
       exists i j x1 x2,
         i < j /\ items !! i = Some x1 /\ items !! j = Some x2 /\
         processor x1 = fulfilled v1 /\ processor x2 = fulfilled v2).
Proof.
  intros Hmc. eexists. split.
  { unfold processConcurrently.
    rewrite processConcurrently_run_spec by done. reflexivity. }
  cbn [results]. rewrite omap_map. split; [done|].
  intros p q v1 v2 Hpq Hp Hq.
  destruct (omap_lookup_order _ _ p q v1 v2 Hpq Hp Hq)
    as (i & j & x1 & x2 & Hij & Hi & Hj & H1 & H2).
  exists i, j, x1, x2. by rewrite <- !fulfilled_value_Some.
Qed.
End Claims.

Lemma processConcurrently_batches_witness :
  1 <= 5 /\
  exists st,
    processConcurrently_run even_processor [1; 2; 3; 4; 5; 6; 7] 5 = Some st /\
    map length (launched_batches (events st)) = [5; 2].
Proof.
  split; [lia|].
  destruct (processConcurrently_batches even_processor [1; 2; 3; 4; 5; 6; 7] 5)
    as (st & Hrun & _ & _ & _ & _ & _ & _ & _ & Hseven); [lia|].
  exists st. split; [exact Hrun|]. by apply Hseven.
Defined.

Lemma processConcurrently_isolates_failures_witness :
  1 <= 2 /\
  processConcurrently even_processor [1; 2; 3; 4; 6] 2 = Some [20; 40; 60].
Proof.
  split; [lia|].
  destruct (processConcurrently_isolates_failures even_processor [1; 2; 3; 4; 6] 2)
    as (st & _ & Hres & _ & _ & _ & Hvals & _); [lia|].
  rewrite Hres, Hvals. reflexivity.
Defined.

Lemma processConcurrently_preserves_order_witness :
  1 <= 3 /\
  processConcurrently even_processor [8; 1; 2; 5; 4] 3 = Some [80; 20; 40].
Proof.
  split; [lia|].
  destruct (processConcurrently_preserves_order even_processor [8; 1; 2; 5; 4] 3)
    as (out & Hres & Hout & _); [lia|].
  rewrite Hres, Hout. reflexivity.
Defined.

End RunnerClaims.

(** ** The index lifecycle ([createIndexIfNeeded]) *)

Module IndexFacts.
Import Runner IndexRoute.

Lemma Qceiling_half (n : Z) : Qceiling (inject_Z n / 2) = ((n + 1) / 2)%Z.
Proof.
  unfold Qceiling, Qfloor, Qdiv, Qmult, Qinv, Qopp, inject_Z. simpl.
  Z.div_mod_to_equations. lia.
Qed.

Lemma compute_nlist_Z (n : Z) :
  compute_nlist n = Z.min 128 (Z.max 4 ((n + 1) / 2)).
Proof. unfold compute_nlist. by rewrite Qceiling_half. Qed.

Lemma index_failed_not_finished (indexState : string) :
  index_failed indexState = true -> index_finished indexState = false.
Proof.
  unfold index_failed, index_finished.
  rewrite orb_true_iff, !String.eqb_eq. by intros [-> | ->].
Qed.

Lemma within_bounds_false (e : Binary64.float64) (r : nat) :
  within_bounds e r = false <->
  Binary64.ltb e MAX_INDEX_WAIT_TIME = false \/ MAX_RETRIES <= r.
Proof.
  unfold within_bounds. by rewrite andb_false_iff, Nat.ltb_ge.
Qed.

Lemma within_bounds_true (e : Binary64.float64) (r : nat) :
  within_bounds e r = true <->
  Binary64.ltb e MAX_INDEX_WAIT_TIME = true /\ r < MAX_RETRIES.
Proof.
  unfold within_bounds. by rewrite andb_true_iff, Nat.ltb_lt.
Qed.

(** The schedule of a loop entered one turn later. *)
Lemma interval_at_next (p : Binary64.float64) (k : nat) :
  interval_at (next_pollInterval p) k = interval_at p (S k).
Proof. unfold interval_at. cbn [Nat.iter]. by rewrite Nat.iter_swap. Qed.

Lemma elapsed_after_next (e p : Binary64.float64) (k : nat) :
  elapsed_after (Binary64.add e p) (next_pollInterval p) k =
  elapsed_after e p (S k).
Proof.
  unfold elapsed_after. rewrite <- cons_seq, <- seq_shift.
  cbn [map fold_left]. rewrite map_map. f_equal.
  apply map_ext. intros j. apply interval_at_next.
Qed.

Lemma building_turns_next (p : Binary64.float64) (n : nat) :
  building_turns p (S n) =
  EGetIndexState :: ESetTimeout p :: building_turns (next_pollInterval p) n.
Proof.
  unfold building_turns. rewrite <- cons_seq, <- seq_shift.
  cbn [map concat app]. rewrite map_map. do 3 f_equal.
  apply map_ext. intros j. by rewrite interval_at_next.
Qed.

(** From the tenth sleep on the interval is the cap. *)
Lemma interval_at_capped (k : nat) :
  9 <= k -> interval_at POLLING_INTERVAL k = Binary64.of_Z 10000.
Proof.
  intros Hk. replace k with ((k - 9) + 9) by lia.
  induction (k - 9) as [|j IH].
  - vm_compute. reflexivity.
  - unfold interval_at in *. change (S j + 9) with (S (j + 9)).
    rewrite Nat.iter_succ, IH. vm_compute. reflexivity.
Qed.

Section WithEnv.
Variable env : Env.

(** One turn of the loop. *)
Lemma poll_loop_unfold (fuel : nat) (e p : Binary64.float64) (r : nat)
    (h : History) :
  poll_loop env fuel e p r h =
  if within_bounds e r then
    match fuel with
    | O => (OutOfFuel, [])
    | S fuel' =>
        match getIndexState env h with
        | Throw error => (Threw error, [EGetIndexState])
        | Normal indexState =>
            if index_finished indexState then (Returned true, [EGetIndexState])
            else if index_failed indexState then
              (Threw (JsError "Index creation failed"), [EGetIndexState])
            else
              let (out, tr) :=
                poll_loop env fuel' (Binary64.add e p) (next_pollInterval p)
                  (S r) (h ++ [EGetIndexState; ESetTimeout p]) in
              (out, EGetIndexState :: ESetTimeout p :: tr)
        end
    end
  else (Threw timeout_error, []).
Proof.
  destruct fuel; cbn [poll_loop]; destruct (within_bounds e r); try done.
  unfold bind, call. destruct (getIndexState env h) as [indexState|]; [|done].
  destruct (index_finished indexState); [done|].
  destruct (index_failed indexState); [done|].
  simpl. rewrite <- app_assoc. simpl.
  by destruct (poll_loop env fuel _ _ _ _).
Qed.

(** With a unit of fuel for each retry still allowed, the loop ends the
    way the relation says. *)
Lemma poll_loop_polled (fuel : nat) :
  forall (e p : Binary64.float64) (r : nat) (h : History),
    MAX_RETRIES - r <= fuel ->
    polled env e p r h (fst (poll_loop env fuel e p r h))
                       (snd (poll_loop env fuel e p r h)).
Proof.
  induction fuel as [|fuel IH]; intros e p r h Hfuel;
    rewrite poll_loop_unfold; destruct (within_bounds e r) eqn:Hb;
    try (by apply polled_timeout).
  - apply within_bounds_true in Hb as [_ Hr]. lia.
  - destruct (getIndexState env h) as [indexState|error] eqn:Hs;
      [|by apply polled_unreachable].
    destruct (index_finished indexState) eqn:Hfin;
      [by eapply polled_finished|].
    destruct (index_failed indexState) eqn:Hfail;
      [by eapply polled_failed|].
    specialize (IH (Binary64.add e p) (next_pollInterval p) (S r)
                  (h ++ [EGetIndexState; ESetTimeout p])).
    destruct (poll_loop env fuel _ _ _ _) as [out tr].
    eapply polled_again; try done. apply IH. lia.
Qed.

Lemma polled_ends (e p : Binary64.float64) (r : nat) (h : History)
    out tr :
  polled env e p r h out tr -> out <> OutOfFuel.
Proof. induction 1; done. Qed.

(** The [k]-th sleep of the loop lasts the [k]-th iterate of the
    interval update. *)
Lemma polled_intervals (e p : Binary64.float64) (r : nat) (h : History)
    out tr :
  polled env e p r h out tr ->
  forall k ms, omap timeout_ms tr !! k = Some ms ->
    ms = interval_at p k.
Proof.
  induction 1 as [| | | |e p r h s out tr Hb Hs Hfin Hfail Hrec IH];
    intros k ms Hk; try done.
  cbn [omap list_omap timeout_ms] in Hk. destruct k as [|k].
  - simpl in Hk. by injection Hk as <-.
  - simpl in Hk. rewrite (IH k ms Hk). apply interval_at_next.
Qed.

Lemma polled_checks (e p : Binary64.float64) (r : nat) (h : History)
    out tr :
  polled env e p r h out tr ->
  length (List.filter is_getIndexState tr) <= MAX_RETRIES - r.
Proof.
  induction 1 as [|e p r h error Hb|e p r h s Hb|e p r h s Hb|
                  e p r h s out tr Hb Hs Hfin Hfail Hrec IH];
    try apply within_bounds_true in Hb as [_ Hb]; simpl; try lia.
Qed.

(** A state check answered with a failed state is the last event of the
    loop, which then throws the index-build error. *)
Lemma polled_failed_last (e p : Binary64.float64) (r : nat) (h : History)
    out tr :
  polled env e p r h out tr ->
  forall tr1 rest indexState,
    tr = tr1 ++ EGetIndexState :: rest ->
    getIndexState env (h ++ tr1) = Normal indexState ->
    index_failed indexState = true ->
    rest = [] /\ out = Threw (JsError "Index creation failed").
Proof.
  induction 1 as [|e p r h error Hb Hs|e p r h s Hb Hs Hfin|
                  e p r h s Hb Hs Hfin Hfail|
                  e p r h s out tr Hb Hs Hfin Hfail Hrec IH];
    intros tr1 rest s' Htr Hs' Hfail'.
  - by destruct tr1.
  - destruct tr1 as [|? [|? ?]]; try done.
    rewrite app_nil_r in Hs'. congruence.
  - destruct tr1 as [|? [|? ?]]; try done.
    rewrite app_nil_r in Hs'. apply index_failed_not_finished in Hfail'.
    congruence.
  - destruct tr1 as [|? [|? ?]]; try done. by injection Htr as <-.
  - destruct tr1 as [|a [|b tr1]].
    + rewrite app_nil_r in Hs'. congruence.
    + done.
    + simpl in Htr. injection Htr as <- <- Htr.
      apply (IH tr1 rest s'); [done| |done].
      by rewrite <- app_assoc.
Qed.

(** A state check is made only while both bounds hold of the elapsed
    time accumulated so far and of the retry counter. *)
Lemma polled_guard (e p : Binary64.float64) (r : nat) (h : History) out tr :
  polled env e p r h out tr ->
  forall j, j < length (List.filter is_getIndexState tr) ->
    within_bounds (elapsed_after e p j) (r + j) = true.
Proof.
  induction 1 as [e p r h Hb|e p r h error Hb Hs|e p r h s Hb Hs Hfin|
                  e p r h s Hb Hs Hfin Hfail|
                  e p r h s out tr Hb Hs Hfin Hfail Hrec IH];
    intros j Hj; cbn [List.filter is_getIndexState length] in Hj;
    try lia;
    try (replace j with 0 by lia; by rewrite Nat.add_0_r).
  destruct j as [|j]; [by rewrite Nat.add_0_r|].
  rewrite <- elapsed_after_next, <- Nat.add_succ_comm. apply IH. lia.
Qed.

(** While the store keeps answering with a state that is neither finished
    nor failed, the loop goes on until one of its bounds is reached and
    then throws the timeout error. *)
Lemma polled_building (e p : Binary64.float64) (r : nat) (h : History) out tr :
  remains_building env ->
  polled env e p r h out tr ->
  out = Threw timeout_error /\
  exists n,
    tr = building_turns p n /\
    within_bounds (elapsed_after e p n) (r + n) = false.
Proof.
  intros Hbuild.
  induction 1 as [e p r h Hb|e p r h error Hb Hs|e p r h s Hb Hs Hfin|
                  e p r h s Hb Hs Hfin Hfail|
                  e p r h s out tr Hb Hs Hfin Hfail Hrec IH];
    try (destruct (Hbuild h) as (s' & Hs' & Hfin' & Hfail'); congruence).
  - split; [done|]. exists 0. split; [done|]. by rewrite Nat.add_0_r.
  - destruct IH as (-> & n & -> & Hn). split; [done|]. exists (S n).
    split; [by rewrite building_turns_next|].
    by rewrite <- elapsed_after_next, <- Nat.add_succ_comm.
Qed.

Lemma building_turns_checks (p : Binary64.float64) (n : nat) :
  length (List.filter is_getIndexState (building_turns p n)) = n /\
  omap timeout_ms (building_turns p n) = map (interval_at p) (seq 0 n).
Proof.
  revert p. induction n as [|n IH]; intros p; [done|].
  rewrite building_turns_next.
  cbn [List.filter is_getIndexState length omap list_omap timeout_ms].
  destruct (IH (next_pollInterval p)) as [-> ->]. split; [done|].
  rewrite <- cons_seq, <- seq_shift. cbn [map]. rewrite map_map. f_equal.
  apply map_ext. intros j. apply interval_at_next.
Qed.

(** In the loop of [createIndexIfNeeded], which is entered with no time
    elapsed, the first interval and no retry, the elapsed time stays below
    the wait budget for as long as the retry counter allows a turn. *)
Lemma schedule_within_bounds (j : nat) :
  j <= MAX_RETRIES ->
  Binary64.ltb (elapsed_after (Binary64.of_Z 0) POLLING_INTERVAL j)
    MAX_INDEX_WAIT_TIME = true.
Proof.
  intros Hj.
  assert (forallb (fun j =>
            Binary64.ltb (elapsed_after (Binary64.of_Z 0) POLLING_INTERVAL j)
              MAX_INDEX_WAIT_TIME) (seq 0 (S MAX_RETRIES)) = true) as Hall
    by (vm_compute; reflexivity).
  rewrite forallb_forall in Hall. apply Hall. apply in_seq. lia.
Qed.

Lemma polled_sleeps_count (e p : Binary64.float64) (r : nat) (h : History)
    out tr :
  polled env e p r h out tr ->
  length (omap timeout_ms tr) <= MAX_RETRIES - r.
Proof.
  induction 1 as [|e p r h error Hb|e p r h s Hb|e p r h s Hb|
                  e p r h s out tr Hb Hs Hfin Hfail Hrec IH];
    try apply within_bounds_true in Hb as [_ Hb];
    cbn [omap list_omap timeout_ms length]; lia.
Qed.

(** The intervals of the loop of [createIndexIfNeeded] against the
    geometric sequence capped at 10000: equal for the first four and from
    the tenth on, and within [10^-11] in between, where the products are
    rounded. Each lies between 2000 and 10000 and none is shorter than
    the one before. *)
Lemma schedule_values (k : nat) :
  k < MAX_RETRIES ->
  let ms := Binary64.to_Q (interval_at POLLING_INTERVAL k) in
  let exact := Qmin (2000 * 1.2 ^ Z.of_nat k) 10000 in
  (Qabs (ms - exact) <= 1 # 100000000000)%Q /\
  (k <= 3 \/ 9 <= k -> ms == exact) /\
  (2000 <= ms)%Q /\ (ms <= 10000)%Q /\
  (ms <= Binary64.to_Q (interval_at POLLING_INTERVAL (S k)))%Q.
Proof.
  intros Hk.
  assert (forallb (fun k =>
            let ms := Binary64.to_Q (interval_at POLLING_INTERVAL k) in
            let exact := Qmin (2000 * 1.2 ^ Z.of_nat k) 10000 in
            Qle_bool (Qabs (ms - exact)) (1 # 100000000000) &&
            implb ((k <=? 3) || (9 <=? k)) (Qeq_bool ms exact) &&
            Qle_bool 2000 ms && Qle_bool ms 10000 &&
            Qle_bool ms (Binary64.to_Q (interval_at POLLING_INTERVAL (S k))))
            (seq 0 MAX_RETRIES) = true) as Hall
    by (vm_compute; reflexivity).
  rewrite forallb_forall in Hall.
  specialize (Hall k ltac:(apply in_seq; lia)). cbv zeta in Hall |- *.
  rewrite !andb_true_iff, !Qle_bool_iff in Hall.
  destruct Hall as ((((Hclose & Hexact) & Hlo) & Hhi) & Hup).
  repeat split; try done.
  intros Hrange. apply Qeq_bool_iff.
  assert ((k <=? 3) || (9 <=? k) = true) as Hb.
  { apply orb_true_iff. destruct Hrange; [left|right]; by apply Nat.leb_le. }
  by rewrite Hb in Hexact.
Qed.

(** The elapsed time of that loop is at most 10000 for each sleep made,
    hence at most 300000. *)
Lemma schedule_elapsed (j : nat) :
  j <= MAX_RETRIES ->
  (Binary64.to_Q (elapsed_after (Binary64.of_Z 0) POLLING_INTERVAL j)
     <= 10000 * inject_Z (Z.of_nat j))%Q /\
  (Binary64.to_Q (elapsed_after (Binary64.of_Z 0) POLLING_INTERVAL j)
     <= 300000)%Q.
Proof.
  intros Hj.
  assert (forallb (fun j =>
            Qle_bool
              (Binary64.to_Q (elapsed_after (Binary64.of_Z 0) POLLING_INTERVAL j))
              (10000 * inject_Z (Z.of_nat j)) &&
            Qle_bool
              (Binary64.to_Q (elapsed_after (Binary64.of_Z 0) POLLING_INTERVAL j))
              300000)
            (seq 0 (S MAX_RETRIES)) = true) as Hall
    by (vm_compute; reflexivity).
  rewrite forallb_forall in Hall.
  specialize (Hall j ltac:(apply in_seq; lia)).
  apply andb_true_iff in Hall as [H1 H2].
  split; by apply Qle_bool_iff.
Qed.

(** The sleeps of the loop are the first intervals of its schedule. *)
Lemma polled_schedule (e p : Binary64.float64) (r : nat) (h : History) out tr :
  polled env e p r h out tr ->
  omap timeout_ms tr =
    map (interval_at p) (seq 0 (length (omap timeout_ms tr))).
Proof.
  induction 1 as [| | | |e p r h s out tr Hb Hs Hfin Hfail Hrec IH]; try done.
  cbn [omap list_omap timeout_ms length].
  rewrite <- cons_seq, <- seq_shift. cbn [map]. rewrite map_map.
  f_equal. rewrite IH at 1. apply map_ext. intros j. apply interval_at_next.
Qed.

(** A loop whose last event is a sleep ended through its guard: one of the
    two bounds is reached by the elapsed time and the retry counter after
    the sleeps made, and the timeout error is thrown. *)
Lemma polled_ends_after_sleep (e p : Binary64.float64) (r : nat)
    (h : History) out tr :
  polled env e p r h out tr ->
  forall tr0 ms, tr = tr0 ++ [ESetTimeout ms] ->
    out = Threw timeout_error /\
    within_bounds (elapsed_after e p (length (omap timeout_ms tr)))
      (r + length (omap timeout_ms tr)) = false.
Proof.
  induction 1 as [e p r h Hb|e p r h error Hb Hs|e p r h s Hb Hs Hfin|
                  e p r h s Hb Hs Hfin Hfail|
                  e p r h s out tr Hb Hs Hfin Hfail Hrec IH];
    intros tr0 ms Htr;
    try (by destruct tr0 as [|? [|? ?]]).
  cbn [omap list_omap timeout_ms length].
  rewrite <- elapsed_after_next, <- Nat.add_succ_comm.
  destruct tr0 as [|a [|b tr0]]; try done.
  - cbn [app] in Htr. injection Htr as _ _ ->.
    inversion Hrec; subst. by rewrite Nat.add_0_r.
  - cbn [app] in Htr. injection Htr as _ _ ->. by eapply IH.
Qed.

Lemma createIndexIfNeeded_run (totalEmbeddings : Z) (h : History) :
  index_run env totalEmbeddings h
    (fst (createIndexIfNeeded env totalEmbeddings h))
    (snd (createIndexIfNeeded env totalEmbeddings h)).
Proof.
  unfold createIndexIfNeeded.
  pose proof (fun h => poll_loop_polled MAX_RETRIES (Binary64.of_Z 0)
                         POLLING_INTERVAL 0 h (Nat.le_sub_l _ _)) as Hloop.
  set (loop := poll_loop env MAX_RETRIES (Binary64.of_Z 0) POLLING_INTERVAL 0)
    in *.
  clearbody loop.
  pose proof (index_run_exists env totalEmbeddings h) as Hexists.
  pose proof (index_run_refused env totalEmbeddings h) as Hrefused.
  pose proof (index_run_polled env totalEmbeddings h) as Hpolled.
  unfold reports_index in *.
  set (request := index_request totalEmbeddings) in *. clearbody request.
  assert (Hstart : forall a b : Event, (h ++ [a]) ++ [b] = h ++ [a; b])
    by (intros; by rewrite <- app_assoc).
  unfold try_catch, bind, call, ret, throw.
  destruct (describeIndex env h) as [info|error]; cbn [fst snd app].
  - destruct (index_exists (Some info)) eqn:Hinfo; simpl; [by apply Hexists|].
    destruct (createIndex env (h ++ [EDescribeIndex]) request) as [[]|error]
      eqn:Hc; simpl; [|by apply Hrefused].
    rewrite Hstart.
    specialize (Hloop (h ++ [EDescribeIndex; ECreateIndex request])).
    destruct (loop _) as [[b|error|] tr]; simpl in *;
      rewrite ?app_nil_r; by apply Hpolled.
  - simpl.
    destruct (createIndex env (h ++ [EDescribeIndex]) request) as [[]|error']
      eqn:Hc; simpl; [|by apply Hrefused].
    rewrite Hstart.
    specialize (Hloop (h ++ [EDescribeIndex; ECreateIndex request])).
    destruct (loop _) as [[b|error'|] tr]; simpl in *;
      rewrite ?app_nil_r; by apply Hpolled.
Qed.

Lemma polled_no_create (e p : Binary64.float64) (r : nat) (h : History)
    out tr :
  polled env e p r h out tr -> List.filter is_createIndex tr = [].
Proof. induction 1; done. Qed.

End WithEnv.

Lemma index_run_ends env n h out tr :
  index_run env n h out tr -> out <> OutOfFuel.
Proof. destruct 1; try done. by eapply polled_ends. Qed.

Lemma index_run_creations env n h out tr :
  index_run env n h out tr ->
  length (List.filter is_createIndex tr) <= 1.
Proof.
  destruct 1 as [| |out tr ? ? Hpolled]; simpl; try lia.
  rewrite (polled_no_create _ _ _ _ _ _ _ Hpolled). simpl. lia.
Qed.

End IndexFacts.

(** ** Claims on [createIndexIfNeeded] *)

Module IndexClaims.
Import Runner IndexRoute IndexFacts.

(** C5, as the code has it. The numbers of the loop are binary64. In
    every run of [createIndexIfNeeded] the interval before the [k]-th
    sleep is the number obtained from 2000 by [k] products by 1.2, each
    rounded and capped at 10000; it equals [min(2000 * 1.2^k, 10000)] for
    [k <= 3] and [k >= 9] and is within [10^-11] of it otherwise. At most
    [MAX_RETRIES] state checks are made and the function ends.

    The loop, entered in any state: it throws the timeout error without a
    state check when the elapsed time is not below [MAX_INDEX_WAIT_TIME]
    or the retry counter not below [MAX_RETRIES], and makes a state check
    otherwise; a state check that follows [j] sleeps is made only if the
    elapsed time on entry plus those [j] sleeps is below
    [MAX_INDEX_WAIT_TIME] and the counter on entry plus [j] below
    [MAX_RETRIES]; and while the state remains building the loop sleeps
    after each check and throws the timeout error at the first turn where
    one of the two bounds is reached.

    When the index is absent, its creation is accepted and the state
    remains building, [createIndexIfNeeded] makes exactly [MAX_RETRIES]
    checks and sleeps and throws the timeout error. *)
Theorem createIndexIfNeeded_polling (env : Env) (n : Z) (h : History) :
  let run := createIndexIfNeeded env n h in
  (forall k ms, omap timeout_ms (snd run) !! k = Some ms ->
     ms = interval_at POLLING_INTERVAL k /\
     (Qabs (Binary64.to_Q ms - Qmin (2000 * 1.2 ^ Z.of_nat k) 10000)
        <= 1 # 100000000000)%Q /\
     (k <= 3 \/ 9 <= k ->
      Binary64.to_Q ms == Qmin (2000 * 1.2 ^ Z.of_nat k) 10000)) /\
  length (List.filter is_getIndexState (snd run)) <= MAX_RETRIES /\
  fst run <> OutOfFuel /\
  (forall fuel e p r h',
     Binary64.ltb e MAX_INDEX_WAIT_TIME = false \/ MAX_RETRIES <= r ->
     poll_loop env fuel e p r h' = (Threw timeout_error, [])) /\
  (forall fuel e p r h',
     Binary64.ltb e MAX_INDEX_WAIT_TIME = true -> r < MAX_RETRIES ->
     exists tr', snd (poll_loop env (S fuel) e p r h') = EGetIndexState :: tr') /\
  (forall fuel e p r h' j,
     MAX_RETRIES - r <= fuel ->
     j < length (List.filter is_getIndexState
                   (snd (poll_loop env fuel e p r h'))) ->
     Binary64.ltb (elapsed_after e p j) MAX_INDEX_WAIT_TIME = true /\
     r + j < MAX_RETRIES) /\
  (remains_building env ->
   forall fuel e p r h',
     MAX_RETRIES - r <= fuel ->
     exists turns,
       poll_loop env fuel e p r h' =
         (Threw timeout_error, building_turns p turns) /\
       (forall j, j < turns ->
          Binary64.ltb (elapsed_after e p j) MAX_INDEX_WAIT_TIME = true /\
          r + j < MAX_RETRIES) /\
       (Binary64.ltb (elapsed_after e p turns) MAX_INDEX_WAIT_TIME = false \/
        MAX_RETRIES <= r + turns)) /\
  (remains_building env ->
   reports_index env h = false ->
   createIndex env (h ++ [EDescribeIndex]) (index_request n) = Normal tt ->
   run = (Threw timeout_error,
          EDescribeIndex :: ECreateIndex (index_request n) ::
            building_turns POLLING_INTERVAL MAX_RETRIES) /\
   length (List.filter is_getIndexState (snd run)) = MAX_RETRIES /\
   length (omap timeout_ms (snd run)) = MAX_RETRIES).
Proof.
  intros run. pose proof (createIndexIfNeeded_run env n h) as Hrun.
  fold run in Hrun.
  assert (Hloop : forall fuel e p r h',
            MAX_RETRIES - r <= fuel ->
            polled env e p r h' (fst (poll_loop env fuel e p r h'))
              (snd (poll_loop env fuel e p r h')))
    by (intros; by apply poll_loop_polled).
  split; [|split; [|split; [|split; [|split; [|split; [|split]]]]]].
  - intros k ms Hk.
    destruct run as [out tr]. cbn [fst snd] in *.
    destruct Hrun as [| |out tr ? ? Hpolled]; try done.
    cbn [omap list_omap timeout_ms] in Hk.
    pose proof (polled_sleeps_count _ _ _ _ _ _ _ Hpolled) as Hcount.
    apply lookup_lt_Some in Hk as Hlt.
    rewrite (polled_intervals _ _ _ _ _ _ _ Hpolled k ms Hk).
    destruct (schedule_values k) as (Hclose & Hexact & _); [lia|].
    done.
  - destruct run as [out tr]. cbn [fst snd] in *.
    destruct Hrun as [| |out tr ? ? Hpolled]; simpl; try (unfold MAX_RETRIES; lia).
    pose proof (polled_checks _ _ _ _ _ _ _ Hpolled). lia.
  - by eapply index_run_ends.
  - intros fuel e p r h' Hbound. rewrite poll_loop_unfold.
    by apply within_bounds_false in Hbound as ->.
  - intros fuel e p r h' He Hr. rewrite poll_loop_unfold.
    assert (within_bounds e r = true) as -> by by apply within_bounds_true.
    destruct (getIndexState env h') as [s|]; [|by eexists].
    destruct (index_finished s); [by eexists|].
    destruct (index_failed s); [by eexists|].
    destruct (poll_loop env fuel _ _ _ _). by eexists.
  - intros fuel e p r h' j Hfuel Hj. apply within_bounds_true.
    by eapply polled_guard; [apply Hloop|].
  - intros Hbuild fuel e p r h' Hfuel.
    specialize (Hloop fuel e p r h' Hfuel).
    destruct (polled_building _ _ _ _ _ _ _ Hbuild Hloop)
      as (Hout & turns & Htr & Hend).
    exists turns. split; [|split].
    + destruct (poll_loop env fuel e p r h') as [out tr].
      cbn [fst snd] in *. by subst.
    + intros j Hj. apply within_bounds_true.
      eapply polled_guard; [exact Hloop|].
      rewrite Htr. by rewrite (proj1 (building_turns_checks p turns)).
    + by apply within_bounds_false.
  - intros Hbuild Habsent Hcreate.
    destruct run as [out tr]. cbn [fst snd] in *.
    destruct Hrun as [Hex|error ? Hrefused|out tr ? ? Hpolled]; try congruence.
    pose proof (polled_checks _ _ _ _ _ _ _ Hpolled) as Hmost.
    destruct (polled_building _ _ _ _ _ _ _ Hbuild Hpolled)
      as (-> & turns & -> & Hend).
    destruct (building_turns_checks POLLING_INTERVAL turns) as [Hchecks Hsleeps].
    rewrite Hchecks in Hmost.
    assert (turns = MAX_RETRIES) as Hturns.
    { apply within_bounds_false in Hend as [Hwait|Hretry]; [|lia].
      rewrite schedule_within_bounds in Hwait by lia. done. }
    cbn [List.filter is_getIndexState omap list_omap timeout_ms].
    rewrite Hchecks, Hsleeps, length_map, length_seq.
    clear -Hturns. rewrite Hturns. split; [reflexivity|]. split; reflexivity.
Qed.

Lemma createIndexIfNeeded_polling_witness :
  (exists turns,
     poll_loop env_building 30 (Binary64.of_Z 599000) POLLING_INTERVAL 0 [] =
       (Threw timeout_error, building_turns POLLING_INTERVAL turns) /\
     turns = 1) /\
  fst (createIndexIfNeeded env_building 10 []) = Threw timeout_error /\
  length (List.filter is_getIndexState
            (snd (createIndexIfNeeded env_building 10 []))) = 30.
Proof.
  assert (remains_building env_building) as Hbuild
    by (intros h; exists "InProgress"; repeat split; reflexivity).
  destruct (createIndexIfNeeded_polling env_building 10 [])
    as (_ & _ & _ & _ & _ & _ & Hloop & Hbuilding).
  split.
  - destruct (Hloop Hbuild 30 (Binary64.of_Z 599000) POLLING_INTERVAL 0 [])
      as (turns & Hrun & Hbefore & Hend); [unfold MAX_RETRIES; lia|].
    exists turns. split; [exact Hrun|].
    destruct turns as [|[|turns]]; [| reflexivity |].
    + destruct Hend as [Hend|Hend]; [|unfold MAX_RETRIES in Hend; lia].
      vm_compute in Hend. discriminate.
    + destruct (Hbefore 1) as [Hwait _]; [lia|].
      vm_compute in Hwait. discriminate.
  - destruct Hbuilding as (Hrun & Hchecks & _); [exact Hbuild|reflexivity..|].
    split; [by rewrite Hrun|exact Hchecks].
Defined.

(** C5 as stated fails for the intervals whose product is rounded: the
    interval before the sleep of index 4 is not [2000 * 1.2^4]. *)
Lemma createIndexIfNeeded_polling_rounding_counterexample :
  exists ms,
    omap timeout_ms (snd (createIndexIfNeeded env_building 10 [])) !! 4
      = Some ms /\
    ~ Binary64.to_Q ms == Qmin (2000 * 1.2 ^ 4) 10000.
Proof.
  eexists. split; [vm_compute; reflexivity|].
  intros Heq. apply Qeq_bool_iff in Heq. vm_compute in Heq. discriminate.
Qed.

(** C6. For [n >= 1] vectors, every creation request of
    [createIndexIfNeeded] carries [nlist = min(128, max(4, c))] where [c]
    is the ceiling of [n / 2]; this value lies in [4, 128], is 4 up to
    [n = 8] and 128 from [n = 255] on; and a creation request is made
    whenever the describe-index query does not report an index. *)
Theorem createIndexIfNeeded_nlist (env : Env) (n : Z) (h : History) :
  (1 <= n)%Z ->
  let run := createIndexIfNeeded env n h in
  (forall params, In (ECreateIndex params) (snd run) ->
     (exists c, (n <= 2 * c < n + 2)%Z /\
                nlist params = Z.min 128 (Z.max 4 c)) /\
     (4 <= nlist params <= 128)%Z /\
     ((n <= 8)%Z -> nlist params = 4%Z) /\
     ((255 <= n)%Z -> nlist params = 128%Z)) /\
  (reports_index env h = false ->
   exists tr, snd run = EDescribeIndex :: ECreateIndex (index_request n) :: tr).
Proof.
  intros Hn run. pose proof (createIndexIfNeeded_run env n h) as Hrun.
  fold run in Hrun. destruct run as [out tr]. cbn [fst snd] in *.
  assert (Hparams : forall params, In (ECreateIndex params) tr ->
            params = index_request n).
  { intros params Hin.
    destruct Hrun as [| |out tr ? ? Hpolled]; simpl in Hin.
    - by destruct Hin as [|[]].
    - destruct Hin as [|[Heq|[]]]; [done|]. by injection Heq.
    - destruct Hin as [|[Heq|Hin]]; [done|by injection Heq|].
      exfalso. pose proof (polled_no_create _ _ _ _ _ _ _ Hpolled) as Hnone.
      assert (Hf : In (ECreateIndex params) (List.filter is_createIndex tr))
        by (by apply filter_In).
      by rewrite Hnone in Hf. }
  split.
  - intros params Hin. rewrite (Hparams params Hin).
    cbn [nlist index_request]. rewrite compute_nlist_Z.
    split; [|split; [|split]].
    + exists ((n + 1) / 2)%Z. split; [|done].
      Z.div_mod_to_equations. lia.
    + lia.
    + intros Hle. Z.div_mod_to_equations. lia.
    + intros Hge. Z.div_mod_to_equations. lia.
  - intros Habsent.
    destruct Hrun as [| |out tr ? ? Hpolled]; try congruence; by eexists.
Qed.

Lemma createIndexIfNeeded_nlist_witness :
  (1 <= 9)%Z /\
  In (ECreateIndex {| index_type := "IVF_FLAT"; metric_type := "COSINE";
                      nlist := 5 |})
     (snd (createIndexIfNeeded env_finishing 9 [])).
Proof.
  split; [lia|].
  destruct (createIndexIfNeeded_nlist env_finishing 9 []) as [_ Hmade]; [lia|].
  destruct Hmade as [tr ->]; [reflexivity|].
  right. left. reflexivity.
Defined.

(** C7. A state check answered with a failed state is the last thing
    [createIndexIfNeeded] does: no event follows it and the call throws
    the index-build error. *)
Theorem createIndexIfNeeded_failed_state
    (env : Env) (n : Z) (h : History) tr1 rest indexState :
  snd (createIndexIfNeeded env n h) = tr1 ++ EGetIndexState :: rest ->
  getIndexState env (h ++ tr1) = Normal indexState ->
  index_failed indexState = true ->
  rest = [] /\
  fst (createIndexIfNeeded env n h) = Threw (JsError "Index creation failed").
Proof.
  pose proof (createIndexIfNeeded_run env n h) as Hrun.
  destruct (createIndexIfNeeded env n h) as [out tr]. cbn [fst snd] in *.
  intros Htr Hstate Hfailed.
  destruct Hrun as [| |out tr ? ? Hpolled].
  - by destruct tr1 as [|? [|? ?]].
  - by destruct tr1 as [|? [|? [|? ?]]].
  - destruct tr1 as [|a [|b tr1]]; try done.
    simpl in Htr. injection Htr as <- <- Htr.
    eapply (polled_failed_last _ _ _ _ _ _ _ Hpolled tr1 rest indexState);
      [done| |done].
    by rewrite <- app_assoc.
Qed.

Lemma createIndexIfNeeded_failed_state_witness :
  let tr1 := [EDescribeIndex; ECreateIndex (index_request 40);
              EGetIndexState; ESetTimeout POLLING_INTERVAL] in
  snd (createIndexIfNeeded env_failing 40 []) = tr1 ++ [EGetIndexState] /\
  getIndexState env_failing ([] ++ tr1) = Normal "Failed" /\
  index_failed "Failed" = true /\
  fst (createIndexIfNeeded env_failing 40 []) =
    Threw (JsError "Index creation failed").
Proof.
  intros tr1.
  split; [reflexivity|]. split; [reflexivity|]. split; [reflexivity|].
  apply (createIndexIfNeeded_failed_state env_failing 40 [] tr1 [] "Failed");
    reflexivity.
Defined.

(** C8, as the code has it. When the describe-index query reports an
    index, [createIndexIfNeeded] returns [true] having made that query
    only: no creation request, no state check. Two calls in succession,
    the second made whatever the first did, make at most one creation
    request provided the store accepts the creation request of the first
    call, if that call makes one, and reports the index on every
    describe-index query made after it accepted a creation request. *)
Theorem createIndexIfNeeded_idempotent (env : Env) (n : Z) (h : History) :
  (reports_index env h = true ->
   createIndexIfNeeded env n h = (Returned true, [EDescribeIndex])) /\
  (store_keeps_index env ->
   (reports_index env h = false ->
    createIndex env (h ++ [EDescribeIndex]) (index_request n) = Normal tt) ->
   forall m,
     length (List.filter is_createIndex
               (snd (createIndexIfNeeded_twice env n m h))) <= 1).
Proof.
  assert (Hshort : forall k h0, reports_index env h0 = true ->
            createIndexIfNeeded env k h0 = (Returned true, [EDescribeIndex])).
  { intros k h0 Hreports.
    pose proof (createIndexIfNeeded_run env k h0) as Hrun.
    destruct (createIndexIfNeeded env k h0) as [out tr]. cbn [fst snd] in *.
    destruct Hrun; congruence. }
  split; [by apply Hshort|].
  intros Hkeeps Haccepted m. unfold createIndexIfNeeded_twice. cbn [snd].
  pose proof (createIndexIfNeeded_run env n h) as Hrun.
  destruct (createIndexIfNeeded env n h) as [out tr]. cbn [fst snd] in *.
  pose proof (createIndexIfNeeded_run env m (h ++ tr)) as Hrun2.
  destruct (createIndexIfNeeded env m (h ++ tr)) as [out2 tr2] eqn:Hsecond.
  cbn [fst snd] in *. rewrite List.filter_app, length_app.
  inversion Hrun as [Hex|error Habsent Hrefused|out' tr' Habsent Hcreate Hpolled];
    subst.
  - pose proof (index_run_creations _ _ _ _ _ Hrun2). simpl. lia.
  - rewrite (Haccepted Habsent) in Hrefused. done.
  - rewrite Hshort in Hsecond.
    + injection Hsecond as <- <-.
      pose proof (index_run_creations _ _ _ _ _ Hrun) as Hfirst.
      simpl in *. lia.
    + replace (h ++ EDescribeIndex :: ECreateIndex (index_request n) :: tr')
        with ((h ++ [EDescribeIndex]) ++ ECreateIndex (index_request n) :: tr')
        by (by rewrite <- app_assoc).
      by apply Hkeeps.
Qed.

Lemma env_finishing_keeps_index : store_keeps_index env_finishing.
Proof.
  intros h params rest _. unfold reports_index. simpl.
  rewrite existsb_app. simpl. by rewrite orb_true_r.
Qed.

Lemma createIndexIfNeeded_idempotent_witness :
  createIndexIfNeeded env_finishing 9
    [EDescribeIndex; ECreateIndex (index_request 9); EGetIndexState] =
    (Returned true, [EDescribeIndex]) /\
  length (List.filter is_createIndex
            (snd (createIndexIfNeeded_twice env_finishing 9 9 []))) <= 1.
Proof.
  split.
  - apply (createIndexIfNeeded_idempotent env_finishing 9). reflexivity.
  - apply (createIndexIfNeeded_idempotent env_finishing 9 []).
    + exact env_finishing_keeps_index.
    + reflexivity.
Defined.

(** The condition on the first creation request is needed: a store that
    refuses it, and keeps every index whose creation it accepted, gets a
    second creation request from the second call. *)
Example createIndexIfNeeded_twice_after_refusal :
  store_keeps_index env_refusing_once /\
  createIndexIfNeeded_twice env_refusing_once 9 9 [] =
    (Returned true,
     [EDescribeIndex; ECreateIndex (index_request 9);
      EDescribeIndex; ECreateIndex (index_request 9); EGetIndexState]).
Proof.
  split; [|reflexivity].
  intros h params rest Haccepted. unfold reports_index.
  cbn [describeIndex createIndex env_refusing_once] in *.
  destruct (existsb is_createIndex h) eqn:Hsome; [|done].
  assert (1 <= length (List.filter is_createIndex h)) as Hone.
  { clear -Hsome. induction h as [|e h IH]; [done|].
    cbn in *. destruct (is_createIndex e); cbn; [lia|]. by apply IH. }
  rewrite List.filter_app, length_app.
  cbn [List.filter is_createIndex length index_exists index_descriptions].
  destruct (Nat.leb_spec 2
    (length (List.filter is_createIndex h) +
     S (length (List.filter is_createIndex rest)))) as [_|Hlt]; [done|lia].
Qed.

(** C8 as stated fails: when the describe-index query of the second call
    fails, the code takes the index to be absent and requests its
    creation again. *)
Lemma createIndexIfNeeded_twice_counterexample :
  createIndexIfNeeded_twice env_describe_fails 9 9 [] =
    (Returned true,
     [EDescribeIndex; ECreateIndex (index_request 9); EGetIndexState;
      EDescribeIndex; ECreateIndex (index_request 9); EGetIndexState]) /\
  ~ (length (List.filter is_createIndex
               (snd (createIndexIfNeeded_twice env_describe_fails 9 9 []))) <= 1).
Proof.
  split; [reflexivity|].
  assert (Hcount : length (List.filter is_createIndex
            (snd (createIndexIfNeeded_twice env_describe_fails 9 9 []))) = 2)
    by reflexivity.
  rewrite Hcount. lia.
Qed.

End IndexClaims.

(** ** The insert step and the empty outcome of [POST] *)

Module PostFacts.
Import Runner RunnerFacts IndexRoute.

Section WithEnv.
Variable env : Env.

Lemma insert_loop_issued (embeddingsToInsert : list EmbeddingRecord) :
  forall fuel i h,
    length embeddingsToInsert - i <= fuel ->
    issued env h (consecutive_batches 1000 (drop i embeddingsToInsert))
      (fst (insert_loop env fuel embeddingsToInsert i h))
      (snd (insert_loop env fuel embeddingsToInsert i h)).
Proof.
  induction fuel as [|fuel IH]; intros i h Hfuel; cbn [insert_loop];
    destruct (Nat.ltb_spec i (length embeddingsToInsert)) as [Hlt|Hge];
    try lia; try (rewrite drop_ge by done; apply issued_done).
  assert (Hne : drop i embeddingsToInsert <> []).
  { intros Hnil. apply drop_nil_inv in Hnil. lia. }
  rewrite consecutive_batches_unfold by (done || lia).
  rewrite drop_drop. unfold slice.
  replace (i + 1000 - i) with 1000 by lia.
  unfold bind, milvus_insert, call.
  destruct (insert env h _) as [[]|error] eqn:Hinsert;
    [|by apply issued_refused].
  specialize (IH (i + 1000) (h ++ [EInsert (take 1000 (drop i embeddingsToInsert))])).
  destruct (insert_loop env fuel _ _ _) as [out tr].
  apply issued_next; [done|]. apply IH. lia.
Qed.

Lemma insert_embeddings_issued (embeddingsToInsert : list EmbeddingRecord)
    (h : History) :
  issued env h (insert_plan embeddingsToInsert)
    (fst (insert_embeddings env embeddingsToInsert h))
    (snd (insert_embeddings env embeddingsToInsert h)).
Proof.
  unfold insert_embeddings, insert_plan.
  destruct (1000 <? length embeddingsToInsert).
  - rewrite <- (drop_0 embeddingsToInsert) at 1.
    apply insert_loop_issued. lia.
  - unfold milvus_insert, call.
    destruct (insert env h embeddingsToInsert) as [[]|error] eqn:Hinsert.
    + apply issued_next; [done|]. apply issued_done.
    + by apply issued_refused.
Qed.

Lemma insert_plan_concat (embeddingsToInsert : list EmbeddingRecord) :
  concat (insert_plan embeddingsToInsert) = embeddingsToInsert.
Proof.
  unfold insert_plan. destruct (1000 <? length embeddingsToInsert).
  - apply concat_consecutive_batches. lia.
  - simpl. apply app_nil_r.
Qed.

Lemma insert_plan_sizes (embeddingsToInsert : list EmbeddingRecord) :
  embeddingsToInsert <> [] ->
  Forall (fun b => 1 <= length b <= 1000) (insert_plan embeddingsToInsert).
Proof.
  intros Hne. unfold insert_plan.
  destruct (Nat.ltb_spec 1000 (length embeddingsToInsert)) as [Hlt|Hge].
  - apply consecutive_batches_sizes. lia.
  - constructor; [|done]. destruct embeddingsToInsert; [done|]. simpl in *. lia.
Qed.

(** What a sequence of insert calls leaves in the history. *)
Lemma issued_trace (h : History) batches out tr :
  issued env h batches out tr ->
  out <> OutOfFuel /\
  tr = map EInsert (omap inserted_batch tr) /\
  (exists later, batches = omap inserted_batch tr ++ later /\
                 (out = Returned tt -> later = [])) /\
  ((forall h' b, insert env h' b = Normal tt) -> out = Returned tt).
Proof.
  induction 1 as [h|h batch batches error Hthrow|
                  h batch batches out tr Hok Hrest IH].
  - repeat split; try done. by exists [].
  - repeat split; try done.
    + exists batches. by split.
    + intros Hall. rewrite Hall in Hthrow. done.
  - destruct IH as (Hend & Htr & (later & Hbatches & Hall) & Haccept).
    repeat split; try done.
    + cbn [omap list_omap inserted_batch map]. by rewrite <- Htr.
    + exists later. cbn [omap list_omap inserted_batch]. split; [|done].
      simpl. by rewrite <- Hbatches.
Qed.

(** An insert call that is not the last one was accepted by the store. *)
Lemma issued_sequential (h : History) batches out tr :
  issued env h batches out tr ->
  forall tr1 batch rest,
    tr = tr1 ++ EInsert batch :: rest -> rest <> [] ->
    insert env (h ++ tr1) batch = Normal tt.
Proof.
  induction 1 as [h|h batch batches error Hthrow|
                  h batch batches out tr Hok Hrest IH];
    intros tr1 b rest Htr Hmore.
  - by destruct tr1.
  - destruct tr1 as [|? [|? ?]]; try done. by injection Htr as <- <-.
  - destruct tr1 as [|a tr1]; simpl in Htr.
    + injection Htr as <- <-. by rewrite app_nil_r.
    + injection Htr as <- ->.
      replace (h ++ EInsert batch :: tr1) with ((h ++ [EInsert batch]) ++ tr1)
        by (by rewrite <- app_assoc).
      by eapply IH.
Qed.

(** The step throws exactly when the store refused the last call made,
    and throws what that call threw. *)
Lemma issued_thrown (h : History) batches out tr :
  issued env h batches out tr ->
  forall error,
    out = Threw error <->
    exists tr1 batch,
      tr = tr1 ++ [EInsert batch] /\
      insert env (h ++ tr1) batch = Throw error.
Proof.
  induction 1 as [h|h batch batches error0 Hthrow|
                  h batch batches out tr Hok Hrest IH];
    intros error.
  - split; [done|]. intros (tr1 & b & Htr & _). by destruct tr1.
  - split.
    + intros [= <-]. exists [], batch. by rewrite app_nil_r.
    + intros (tr1 & b & Htr & Hrefused).
      destruct tr1 as [|? [|? ?]]; try done.
      cbn [app] in Htr. injection Htr as <-.
      rewrite app_nil_r, Hthrow in Hrefused. by injection Hrefused as ->.
  - rewrite IH. split.
    + intros (tr1 & b & -> & Hrefused). exists (EInsert batch :: tr1), b.
      split; [done|]. by rewrite <- app_assoc in Hrefused.
    + intros (tr1 & b & Htr & Hrefused). destruct tr1 as [|a tr1].
      * cbn [app] in Htr. injection Htr as <- <-.
        rewrite app_nil_r, Hok in Hrefused. done.
      * cbn [app] in Htr. injection Htr as <- ->. exists tr1, b.
        split; [done|]. by rewrite <- app_assoc.
Qed.

Lemma flat_embeddings_returns (sessionId : string) (codeFiles : list FileNode) :
  exists embeddingsToInsert,
    flat_embeddings env sessionId codeFiles = Some embeddingsToInsert.
Proof.
  unfold flat_embeddings, processConcurrently.
  rewrite processConcurrently_run_spec by (unfold MAX_CONCURRENT_FILES; lia).
  by eexists.
Qed.

End WithEnv.

(** *** Every path of [POST] ends *)

Lemma ends_ret {A} (a : A) : ends (ret a).
Proof. by intros h. Qed.

Lemma ends_call {A} (e : Event) (reply : History -> Completion A) :
  ends (call e reply).
Proof. intros h. unfold call. by destruct (reply h). Qed.

Lemma ends_await {A} (c : Completion A) : ends (await c).
Proof. intros h. by destruct c. Qed.

Lemma ends_bind {A B} (m : M A) (f : A -> M B) :
  ends m -> (forall a, ends (f a)) -> ends (bind m f).
Proof.
  intros Hm Hf h. unfold bind. specialize (Hm h).
  destruct (m h) as [[a|error|] tr]; try done.
  specialize (Hf a (h ++ tr)). by destruct (f a (h ++ tr)).
Qed.

Lemma ends_try_catch {A} (m : M A) (handler : Thrown -> M A) :
  ends m -> (forall error, ends (handler error)) -> ends (try_catch m handler).
Proof.
  intros Hm Hhandler h. unfold try_catch. specialize (Hm h).
  destruct (m h) as [[a|error|] tr]; try done.
  specialize (Hhandler error (h ++ tr)). by destruct (handler error (h ++ tr)).
Qed.

Lemma ends_insert_embeddings env embeddingsToInsert :
  ends (insert_embeddings env embeddingsToInsert).
Proof.
  intros h. by destruct (issued_trace env _ _ _ _
                           (insert_embeddings_issued env embeddingsToInsert h)).
Qed.

Lemma ends_createIndexIfNeeded env totalEmbeddings :
  ends (createIndexIfNeeded env totalEmbeddings).
Proof.
  intros h. eapply IndexFacts.index_run_ends.
  apply IndexFacts.createIndexIfNeeded_run.
Qed.

Lemma ends_POST env req_json : ends (POST env req_json).
Proof.
  unfold POST.
  apply ends_bind; [by intros h|]. intros startTime.
  apply ends_try_catch; [|intros error; apply ends_ret].
  apply ends_bind; [apply ends_await|]. intros body.
  destruct (body_sessionId body) as [sessionId|]; [|apply ends_ret].
  destruct (body_codeFiles body) as [codeFiles|]; [|apply ends_ret].
  destruct (falsy_sessionId (Some sessionId)); [apply ends_ret|].
  destruct (flat_embeddings_returns env sessionId codeFiles)
    as [embeddingsToInsert ->].
  apply ends_bind; [by intros h|]. intros now1.
  destruct (length embeddingsToInsert =? 0); [apply ends_ret|].
  apply ends_bind; [apply ends_call|]. intros _.
  apply ends_bind; [by intros h|]. intros insertStartTime.
  apply ends_bind; [apply ends_insert_embeddings|]. intros _.
  apply ends_bind; [by intros h|]. intros now2.
  apply ends_bind; [apply ends_createIndexIfNeeded|]. intros _.
  apply ends_bind; [by intros h|]. intros now3.
  apply ends_bind; [by intros h|]. intros now4.
  apply ends_ret.
Qed.

End PostFacts.

(** ** Claims on [POST] *)

Module PostClaims.
Import Runner RunnerFacts IndexRoute PostFacts.

(** C9, as the code has it. For a non-empty array of records the insert
    step ends, makes nothing but insert calls, one after the other (a call
    is followed by another only if the store accepted it), each with at
    least one and at most 1000 records; the batches sent are, in order, a
    prefix of the array; when the step returns, which it does if the store
    accepts every call, their concatenation is the whole array; the step
    throws exactly when the store refused the last call made, and throws
    what that call threw. *)
Theorem insert_embeddings_batches
    (env : Env) (embeddingsToInsert : list EmbeddingRecord) (h : History) :
  embeddingsToInsert <> [] ->
  let run := insert_embeddings env embeddingsToInsert h in
  let batches := omap inserted_batch (snd run) in
  fst run <> OutOfFuel /\
  snd run = map EInsert batches /\
  Forall (fun b => 1 <= length b <= 1000) batches /\
  (exists rest, concat batches ++ rest = embeddingsToInsert) /\
  (forall tr1 batch rest,
     snd run = tr1 ++ EInsert batch :: rest -> rest <> [] ->
     insert env (h ++ tr1) batch = Normal tt) /\
  (fst run = Returned tt -> concat batches = embeddingsToInsert) /\
  ((forall h' b, insert env h' b = Normal tt) ->
   fst run = Returned tt /\ concat batches = embeddingsToInsert) /\
  (forall error,
     fst run = Threw error <->
     exists tr1 batch,
       snd run = tr1 ++ [EInsert batch] /\
       insert env (h ++ tr1) batch = Throw error).
Proof.
  intros Hne run batches.
  pose proof (insert_embeddings_issued env embeddingsToInsert h) as Hissued.
  fold run in Hissued.
  destruct (issued_trace env _ _ _ _ Hissued)
    as (Hend & Htr & (later & Hplan & Hall) & Haccept).
  fold batches in Htr, Hplan.
  pose proof (insert_plan_concat embeddingsToInsert) as Hconcat.
  pose proof (insert_plan_sizes embeddingsToInsert Hne) as Hsizes.
  rewrite Hplan in Hconcat, Hsizes.
  apply Forall_app in Hsizes as [Hsizes _].
  assert (Hreturned : fst run = Returned tt ->
            concat batches = embeddingsToInsert).
  { intros Hret. rewrite (Hall Hret), app_nil_r in Hconcat. done. }
  split; [done|]. split; [done|]. split; [done|].
  split; [exists (concat later); by rewrite <- concat_app|].
  split; [by apply (issued_sequential env _ _ _ _ Hissued)|].
  split; [done|]. split.
  - intros Hevery. split; [by apply Haccept|]. apply Hreturned. by apply Haccept.
  - by apply (issued_thrown env _ _ _ _ Hissued).
Qed.

Lemma insert_embeddings_batches_witness :
  replicate 2001 sample_record <> [] /\
  fst (insert_embeddings env_finishing (replicate 2001 sample_record) []) =
    Returned tt /\
  concat (omap inserted_batch
            (snd (insert_embeddings env_finishing
                    (replicate 2001 sample_record) []))) =
    replicate 2001 sample_record.
Proof.
  split; [done|].
  destruct (insert_embeddings_batches env_finishing
              (replicate 2001 sample_record) [])
    as (_ & _ & _ & _ & _ & _ & Haccepted & _); [done|].
  apply Haccepted. intros h' b. reflexivity.
Defined.

(** C9 as stated fails: when the store refuses an insert call the step
    stops there, and the batches sent are not the whole array. *)
Lemma insert_embeddings_refused_counterexample :
  fst (insert_embeddings env_insert_refused (replicate 2001 sample_record) [])
    = Threw (JsError "insert: denied") /\
  map length
    (omap inserted_batch
       (snd (insert_embeddings env_insert_refused
               (replicate 2001 sample_record) []))) = [1000; 1000] /\
  concat (omap inserted_batch
            (snd (insert_embeddings env_insert_refused
                    (replicate 2001 sample_record) []))) <>
    replicate 2001 sample_record.
Proof.
  split; [vm_compute; reflexivity|]. split; [vm_compute; reflexivity|].
  intros Heq. apply (f_equal length) in Heq. vm_compute in Heq. discriminate.
Qed.

Example insert_embeddings_2001 :
  map length
    (omap inserted_batch
       (snd (insert_embeddings env_finishing (replicate 2001 sample_record) [])))
  = [1000; 1000; 1].
Proof. vm_compute. reflexivity. Qed.

Section WithEnv.
Variable env : Env.

(** The inner runner always returns: a file gives the records of its
    chunks whose embedding call answered with at least one vector. *)
Lemma processCodeFileContent_spec (sessionId : string) (f : FileNode) :
  processCodeFileContent env sessionId f =
  fulfilled
    match generateChunks env (default "" (content f))
                         (default "" (extension f)) with
    | Normal codeChunks =>
        omap id (omap fulfilled_value
                   (map (processChunk env (path f) sessionId) codeChunks))
    | Throw _ => []
    end.
Proof.
  unfold processCodeFileContent, processConcurrently.
  destruct (generateChunks env _ _) as [codeChunks|]; [|done].
  rewrite processConcurrently_run_spec
    by (unfold MAX_CONCURRENT_EMBEDDINGS; lia).
  by destruct codeChunks.
Qed.

Lemma processCodeFileContent_no_chunks (sessionId : string) (f : FileNode) :
  generateChunks env (default "" (content f)) (default "" (extension f))
    = Normal [] ->
  processCodeFileContent env sessionId f = fulfilled [].
Proof. intros Hchunks. unfold processCodeFileContent. by rewrite Hchunks. Qed.

Lemma flat_embeddings_no_chunks (sessionId : string) (codeFiles : list FileNode) :
  (forall f, In f codeFiles ->
     generateChunks env (default "" (content f)) (default "" (extension f))
       = Normal []) ->
  flat_embeddings env sessionId codeFiles = Some [].
Proof.
  intros Hfiles. unfold flat_embeddings, processConcurrently.
  rewrite processConcurrently_run_spec by (unfold MAX_CONCURRENT_FILES; lia).
  cbn [fmap option_fmap option_map results]. f_equal.
  induction codeFiles as [|f codeFiles IH]; [done|].
  cbn [map omap list_omap].
  rewrite processCodeFileContent_no_chunks by (apply Hfiles; by left).
  cbn [fulfilled_value concat app]. apply IH.
  intros g Hg. apply Hfiles. by right.
Qed.

(** The branch taken by [POST] when nothing could be embedded. *)
Lemma POST_nothing_to_insert (sessionId : string) (codeFiles : list FileNode)
    (h : History) :
  falsy_sessionId (Some sessionId) = false ->
  flat_embeddings env sessionId codeFiles = Some [] ->
  POST env (Normal {| body_sessionId := Some sessionId;
                      body_codeFiles := Some codeFiles |}) h =
  (Returned
     {| payload :=
          [("message", JStr "No embeddings could be generated");
           ("details", JStr "Check file contents and embedding generation");
           ("processingTime",
            JNum (Date_now env (h ++ [EDateNow]) - Date_now env h))];
        status := 400 |},
   [EDateNow; EDateNow]).
Proof.
  intros Hsession Hflat.
  unfold POST, bind, try_catch, date_now, await, ret.
  cbn [body_sessionId body_codeFiles].
  rewrite Hsession, Hflat. cbn [length Nat.eqb app].
  by rewrite app_nil_r.
Qed.

End WithEnv.

(** C3. When the body of the request is accepted and no embedding comes
    out of the files, which is the case when every file gives zero
    chunks, [POST] reads the clock twice and does nothing else: no insert
    call, no exception. It returns a response of status 400 whose payload
    has the fields [message], [details] and [processingTime] and no
    [success] field. *)
Theorem POST_no_embeddings
    (env : Env) (sessionId : string) (codeFiles : list FileNode) (h : History) :
  falsy_sessionId (Some sessionId) = false ->
  flat_embeddings env sessionId codeFiles = Some [] ->
  let run := POST env (Normal {| body_sessionId := Some sessionId;
                                 body_codeFiles := Some codeFiles |}) h in
  snd run = [EDateNow; EDateNow] /\
  omap inserted_batch (snd run) = [] /\
  (exists response,
     fst run = Returned response /\
     status response = 400%Z /\
     map fst (payload response) = ["message"; "details"; "processingTime"] /\
     payload_field "message" response =
       Some (JStr "No embeddings could be generated") /\
     payload_field "success" response = None) /\
  ((forall f, In f codeFiles ->
      generateChunks env (default "" (content f)) (default "" (extension f))
        = Normal []) ->
   flat_embeddings env sessionId codeFiles = Some []).
Proof.
  intros Hsession Hflat run. unfold run.
  rewrite (POST_nothing_to_insert env sessionId codeFiles h Hsession Hflat).
  cbn [fst snd]. split; [done|]. split; [done|]. split.
  - eexists. split; [reflexivity|]. by repeat split.
  - apply flat_embeddings_no_chunks.
Qed.

Lemma POST_no_embeddings_witness :
  falsy_sessionId (Some "s1") = false /\
  flat_embeddings env_building "s1" [sample_file "a.py" ""; sample_file "b.py" ""]
    = Some [] /\
  snd (POST env_building
         (Normal {| body_sessionId := Some "s1";
                    body_codeFiles :=
                      Some [sample_file "a.py" ""; sample_file "b.py" ""] |})
         []) = [EDateNow; EDateNow].
Proof.
  split; [reflexivity|]. split; [reflexivity|].
  apply (POST_no_embeddings env_building "s1"
           [sample_file "a.py" ""; sample_file "b.py" ""] []); reflexivity.
Defined.

(** C3 as stated fails: the payload returned for an upload without
    embeddings is not of the shape [{success: false, message}], it has no
    [success] field. *)
Lemma POST_no_embeddings_success_field_counterexample :
  let run := POST env_building
               (Normal {| body_sessionId := Some "s1";
                          body_codeFiles := Some [sample_file "a.py" ""] |}) [] in
  flat_embeddings env_building "s1" [sample_file "a.py" ""] = Some [] /\
  ~ (exists response,
       fst run = Returned response /\
       payload_field "success" response = Some (JBool false)).
Proof.
  split; [reflexivity|].
  intros (response & Hrun & Hfield).
  vm_compute in Hrun. injection Hrun as <-. vm_compute in Hfield. discriminate.
Qed.

End PostClaims.

(** ** Claims on [searchVectors] *)

Module SearchClaims.
Import Search SearchStores.

(** The hits of [ZillizClient.searchVectors] are built from the rows that
    pass the guard, in order. *)
Lemma zilliz_push_hits parseInt (rows : list JsValue) :
  forall acc,
    fold_left (ZillizClient.push_hit parseInt) rows acc =
    acc ++ map (ZillizClient.hit_of parseInt)
               (List.filter ZillizClient.hit_guard rows).
Proof.
  induction rows as [|row rows IH]; intros acc; simpl.
  - by rewrite app_nil_r.
  - rewrite IH. unfold ZillizClient.push_hit.
    destruct (ZillizClient.hit_guard row); [|done].
    simpl. by rewrite <- app_assoc.
Qed.

Lemma milvus_push_hits (rows : list JsValue) :
  forall acc,
    fold_left Milvus.push_hit rows acc =
    acc ++ map Milvus.chunk_of (List.filter Milvus.hit_guard rows).
Proof.
  induction rows as [|row rows IH]; intros acc; simpl.
  - by rewrite app_nil_r.
  - rewrite IH. unfold Milvus.push_hit.
    destruct (Milvus.hit_guard row); [|done].
    simpl. by rewrite <- app_assoc.
Qed.

(** The hits of a search come from rows of the first result set that the
    store returned for the query filtered on the session. *)
Lemma zilliz_hits_from_rows client_search parseInt vector sessionId limit hits hit :
  ZillizClient.searchVectors client_search parseInt vector sessionId limit
    = Normal hits ->
  In hit hits ->
  exists req res rows rest row,
    filter req = session_filter sessionId /\
    client_search req = Normal res /\
    results res = Some (JsArray rows :: rest) /\
    In row rows /\
    ZillizClient.hit_guard row = true /\
    hit = ZillizClient.hit_of parseInt row.
Proof.
  unfold ZillizClient.searchVectors. intros Hsearch Hin.
  match type of Hsearch with
  | match client_search ?r with _ => _ end = _ => set (req := r) in *
  end.
  destruct (client_search req) as [res|] eqn:Hres; [|done].
  destruct (results res) as [[|first rest]|] eqn:Hresults;
    try (injection Hsearch as <-; done).
  destruct first as [| | | | |rows|];
    try (injection Hsearch as <-; done).
  injection Hsearch as <-. rewrite zilliz_push_hits in Hin. simpl in Hin.
  apply in_map_iff in Hin as (row & <- & Hrow).
  apply filter_In in Hrow as [Hrow Hguard].
  by exists req, res, rows, rest, row.
Qed.

Lemma milvus_hits_from_rows client_search vector sessionId limit hits hit :
  Milvus.searchVectors client_search vector sessionId limit = Normal hits ->
  In hit hits ->
  exists req res rows rest row,
    filter req = session_filter sessionId /\
    client_search req = Normal res /\
    results res = Some (JsArray rows :: rest) /\
    In row rows /\
    Milvus.hit_guard row = true /\
    hit = Milvus.chunk_of row.
Proof.
  unfold Milvus.searchVectors. intros Hsearch Hin.
  match type of Hsearch with
  | match client_search ?r with _ => _ end = _ => set (req := r) in *
  end.
  destruct (client_search req) as [res|] eqn:Hres; [|done].
  destruct (results res) as [[|first rest]|] eqn:Hresults;
    try (injection Hsearch as <-; done).
  destruct (truthy first); [|injection Hsearch as <-; done].
  destruct first as [| | | | |rows|]; try done.
  injection Hsearch as <-. rewrite milvus_push_hits in Hin. simpl in Hin.
  apply in_map_iff in Hin as (row & <- & Hrow).
  apply filter_In in Hrow as [Hrow Hguard].
  by exists req, res, rows, rest, row.
Qed.

Lemma strip_prefix_app (prefix rest : string) :
  strip_prefix prefix (prefix +:+ rest) = Some rest.
Proof.
  induction prefix as [|a prefix IH]; [done|].
  change (String a prefix +:+ rest) with (String a (prefix +:+ rest)).
  cbn [strip_prefix]. by rewrite Ascii.eqb_refl.
Qed.

(** A plain text is read back as it is, up to the quote that follows it. *)
Lemma read_literal_plain (text rest : string) :
  plain text = true ->
  read_literal (text +:+ String quote_char rest) = Some (text, rest).
Proof.
  induction text as [|c text IH]; intros Hplain.
  - change (read_literal (String quote_char rest) = Some (EmptyString, rest)).
    cbn [read_literal]. by rewrite Ascii.eqb_refl.
  - cbn [plain] in Hplain.
    apply andb_true_iff in Hplain as [Hc Hplain].
    apply andb_true_iff in Hc as [Hquote Hbackslash].
    apply negb_true_iff in Hquote, Hbackslash.
    change (String c text +:+ String quote_char rest)
      with (String c (text +:+ String quote_char rest)).
    cbn [read_literal].
    rewrite Hquote, Hbackslash, (IH Hplain). done.
Qed.

(** For a plain identifier the text of the template is the one comparison
    of [sessionId] with that identifier. *)
Lemma read_filter_session (s : string) :
  plain s = true ->
  read_filter (String.length (session_filter s)) (session_filter s)
    = Some [SessionIs s].
Proof.
  intros Hplain.
  assert (exists n, String.length (session_filter s) = S n) as [n ->]
    by (eexists; reflexivity).
  cbn [read_filter]. unfold read_comparison.
  change (session_filter s)
    with (("sessionId == " +:+ double_quote) +:+ s +:+ String quote_char "").
  rewrite strip_prefix_app, (read_literal_plain s "" Hplain). done.
Qed.

Lemma plain_names_session (s : string) :
  plain s = true -> filter_names_session comparison_filter s.
Proof.
  intros Hplain row. unfold comparison_filter.
  rewrite (read_filter_session s Hplain). cbn [existsb]. unfold holds.
  destruct (get_property row "sessionId") as [| | | |value| |]; try done.
  rewrite orb_false_r. intros Heq. apply String.eqb_eq in Heq. by subst.
Qed.

Lemma evaluating_store_applies (stored : list JsValue) :
  applies_filter comparison_filter (evaluating_store stored).
Proof.
  intros req res rows rest row Hres Hresults Hrow.
  unfold evaluating_store in Hres. injection Hres as <-.
  cbn [results] in Hresults. injection Hresults as <- <-.
  by apply filter_In in Hrow as [_ Hkeep].
Qed.


Lemma append_one_inj (s1 s2 : string) (a : Ascii.ascii) :
  s1 +:+ String a "" = s2 +:+ String a "" -> s1 = s2.
Proof.
  revert s2. induction s1 as [|b s1 IH]; intros [|c s2] Heq; simpl in Heq.
  - done.
  - injection Heq as _ Heq. by destruct s2.
  - injection Heq as _ Heq. by destruct s1.
  - injection Heq as -> Heq. f_equal. by apply IH.
Qed.

Lemma session_filter_inj (s1 s2 : string) :
  session_filter s1 = session_filter s2 -> s1 = s2.
Proof.
  unfold session_filter. intros Heq.
  apply (String.app_inj "sessionId == ") in Heq.
  apply (String.app_inj double_quote) in Heq.
  by apply append_one_inj in Heq.
Qed.


(** An identifier with a double quote in it: the store applies the filter
    it is sent, and the search returns the rows of the other sessions. The
    text sent is [sessionId == "a" || sessionId != ] followed by an empty
    literal. *)
Example searchVectors_closing_sessionId :
  applies_filter comparison_filter (evaluating_store sample_rows) /\
  plain closing_sessionId = false /\
  read_filter (String.length (session_filter closing_sessionId))
    (session_filter closing_sessionId)
    = Some [SessionIs "a"; SessionIsNot EmptyString] /\
  option_map (map ZillizClient.sessionId)
    (match ZillizClient.searchVectors (evaluating_store sample_rows)
             sample_parseInt [Num 1] closing_sessionId None with
     | Normal hits => Some hits
     | Throw _ => None
     end) = Some [JsString "s1"; JsString "s2"] /\
  option_map (map Milvus.sessionId)
    (match Milvus.searchVectors (evaluating_store sample_rows)
             [Num 1] closing_sessionId None with
     | Normal hits => Some hits
     | Throw _ => None
     end) = Some [JsString "s1"; JsString "s2"].
Proof.
  split; [apply evaluating_store_applies|].
  repeat split; vm_compute; reflexivity.
Qed.

Example searchVectors_filtering_store :
  option_map (map ZillizClient.sessionId)
    (match ZillizClient.searchVectors filtering_store sample_parseInt
             [Num 1] "s1" None with
     | Normal hits => Some hits
     | Throw _ => None
     end) = Some [JsString "s1"] /\
  option_map (map Milvus.sessionId)
    (match Milvus.searchVectors filtering_store [Num 1] "s2" None with
     | Normal hits => Some hits
     | Throw _ => None
     end) = Some [JsString "s2"].
Proof. split; vm_compute; reflexivity. Qed.


End SearchClaims.

(** ** Runs on sample inputs *)

Module Samples.
Import Runner IndexRoute.

Example processConcurrently_seven_items :
  (events <$> processConcurrently_run even_processor [1; 2; 3; 4; 5; 6; 7] 5) =
    Some [Launch 1; Launch 2; Launch 3; Launch 4; Launch 5; AllSettled 5;
          Launch 6; Launch 7; AllSettled 2] /\
  processConcurrently even_processor [1; 2; 3; 4; 5; 6; 7] 5 = Some [20; 40; 60] /\
  (warnings <$> processConcurrently_run even_processor [1; 2; 3; 4; 5; 6; 7] 5) =
    Some ["odd"; "odd"; "odd"; "odd"].
Proof. repeat split; reflexivity. Qed.

(** With a ceiling of zero the loop never advances. *)
Example processConcurrently_zero_ceiling :
  processConcurrently even_processor [1; 2] 0 = None /\
  processConcurrently even_processor [] 0 = Some [].
Proof. split; reflexivity. Qed.

Example compute_nlist_values :
  map compute_nlist [1; 8; 9; 100; 254; 255; 100000]%Z =
  [4; 4; 5; 50; 127; 128; 128]%Z.
Proof. reflexivity. Qed.

Example POST_one_file :
  POST env_finishing
    (Normal {| body_sessionId := Some "s1";
               body_codeFiles := Some [sample_file "a.py" "def f(): pass"] |})
    [] =
  (Returned
     {| payload := [("success", JBool true);
                    ("message", JStr "Codebase indexed successfully.");
                    ("totalChunks", JNum 1);
                    ("processingTime", JNum 1);
                    ("indexingTime", JNum 9)];
        status := 200 |},
   [EDateNow; EDateNow; EGetMilvusClient; EDateNow;
    EInsert [sample_record]; EDateNow;
    EDescribeIndex; ECreateIndex (index_request 1); EGetIndexState;
    EDateNow; EDateNow]).
Proof. vm_compute. reflexivity. Qed.

Example POST_missing_session :
  POST env_finishing
    (Normal {| body_sessionId := Some "";
               body_codeFiles := Some [sample_file "a.py" "def f(): pass"] |})
    [] =
  (Returned
     {| payload := [("error", JStr "Invalid request parameters");
                    ("details", JStr "SessionId and codeFiles array are required")];
        status := 400 |},
   [EDateNow]).
Proof. reflexivity. Qed.

End Samples.

(** * Further properties of the indexing route *)

Module RunnerExtras.
Import Runner RunnerFacts.

Lemma consecutive_batches_length {T : Type} (n : nat) (l : list T) :
  1 <= n -> length (consecutive_batches n l) = (length l + n - 1) / n.
Proof.
  intros Hn. pattern l. apply (batches_ind n); [done| |]; clear l.
  - simpl. symmetry. apply Nat.div_small. lia.
  - intros l Hl IH. rewrite consecutive_batches_unfold by done.
    cbn [length]. rewrite IH, length_drop.
    destruct (decide (length l <= n)) as [Hle|Hgt].
    + replace (length l - n + n - 1) with (n - 1) by lia.
      rewrite Nat.div_small by lia.
      apply (Nat.div_unique _ _ _ (length l - 1));
        destruct l; (done || (simpl in *; lia)).
    + replace (length l + n - 1) with ((length l - n + n - 1) + 1 * n) by lia.
      rewrite Nat.div_add by lia. lia.
Qed.

Lemma zero_ceiling_loop {T R E : Type} (processor : T -> PromiseSettledResult R E)
    (items : list T) :
  forall fuel i (st : RunnerState T R E),
    i < length items ->
    processConcurrently_loop processor fuel items 0 i st = None.
Proof.
  induction fuel as [|fuel IH]; intros i st Hi; cbn [processConcurrently_loop];
    destruct (Nat.ltb_spec i (length items)); try lia; [done|].
  rewrite Nat.add_0_r. by apply IH.
Qed.

Section Extras.
Context {T R E : Type}.
Variable processor : T -> PromiseSettledResult R E.

(** X11. With a ceiling of zero and at least one item the loop never
    ends: the index does not advance, so whatever the number of
    iterations allowed the loop condition still holds. *)
Theorem processConcurrently_zero_ceiling_stalls (items : list T) :
  items <> [] ->
  processConcurrently processor items 0 = None /\
  forall fuel st, processConcurrently_loop processor fuel items 0 0 st = None.
Proof.
  intros Hne.
  assert (Hlen : 0 < length items) by (destruct items; [done|simpl; lia]).
  split.
  - unfold processConcurrently, processConcurrently_run.
    by rewrite zero_ceiling_loop.
  - intros fuel st. by apply zero_ceiling_loop.
Qed.

(** X12. For a ceiling [maxConcurrency >= 1] the number of batches, hence
    of waits, is the ceiling of [items.length / maxConcurrency]; when the
    items are no more than the ceiling they are all launched at once, in
    one batch. *)
Theorem processConcurrently_batch_count (items : list T) (maxConcurrency : nat) :
  1 <= maxConcurrency ->
  exists st,
    processConcurrently_run processor items maxConcurrency = Some st /\
    length (launched_batches (events st)) =
      (length items + maxConcurrency - 1) / maxConcurrency /\
    (items <> [] -> length items <= maxConcurrency ->
     events st = map Launch items ++ [AllSettled (length items)]).
Proof.
  intros Hmc. eexists. split; [by apply processConcurrently_run_spec|].
  cbn [events]. rewrite launched_batches_batch_events. split.
  - by apply consecutive_batches_length.
  - intros Hne Hle. rewrite consecutive_batches_unfold by done.
    rewrite drop_ge, take_ge by done. cbn. by rewrite app_nil_r.
Qed.
End Extras.

Lemma processConcurrently_zero_ceiling_stalls_witness :
  [1; 2] <> [] /\ processConcurrently even_processor [1; 2] 0 = None.
Proof.
  split; [done|].
  by apply (processConcurrently_zero_ceiling_stalls even_processor [1; 2]).
Defined.

Lemma processConcurrently_batch_count_witness :
  1 <= 3 /\
  exists st,
    processConcurrently_run even_processor [1; 2; 3; 4; 5; 6; 7] 3 = Some st /\
    length (launched_batches (events st)) = 3.
Proof.
  split; [lia|].
  destruct (processConcurrently_batch_count even_processor [1; 2; 3; 4; 5; 6; 7] 3)
    as (st & Hrun & Hcount & _); [lia|].
  exists st. split; [exact Hrun|]. rewrite Hcount. reflexivity.
Defined.

End RunnerExtras.

Module IndexExtras.
Import Runner RunnerFacts IndexRoute RouteRuns IndexFacts PostFacts.

Lemma polled_unreachable_last env e p r h out tr :
  polled env e p r h out tr ->
  forall tr1 rest error,
    tr = tr1 ++ EGetIndexState :: rest ->
    getIndexState env (h ++ tr1) = Throw error ->
    rest = [] /\ out = Threw error.
Proof.
  induction 1 as [|e p r h error Hb Hs|e p r h s Hb Hs Hfin|
                  e p r h s Hb Hs Hfin Hfail|
                  e p r h s out tr Hb Hs Hfin Hfail Hrec IH];
    intros tr1 rest error' Htr Hthrow.
  - by destruct tr1.
  - destruct tr1 as [|? [|? ?]]; try done.
    rewrite app_nil_r in Hthrow. injection Htr as <-. split; [done|congruence].
  - destruct tr1 as [|? [|? ?]]; try done.
    rewrite app_nil_r in Hthrow. congruence.
  - destruct tr1 as [|? [|? ?]]; try done.
    rewrite app_nil_r in Hthrow. congruence.
  - destruct tr1 as [|a [|b tr1]].
    + rewrite app_nil_r in Hthrow. congruence.
    + done.
    + simpl in Htr. injection Htr as <- <- Htr.
      apply (IH tr1 rest error'); [done|]. by rewrite <- app_assoc.
Qed.

Lemma polled_returned env e p r h b tr :
  polled env e p r h (Returned b) tr ->
  b = true /\
  exists tr0 indexState,
    tr = tr0 ++ [EGetIndexState] /\
    getIndexState env (h ++ tr0) = Normal indexState /\
    index_finished indexState = true.
Proof.
  intros Hpolled. remember (Returned b) as out eqn:Hout.
  induction Hpolled as [| |e p r h s Hb Hs Hfin| |
                        e p r h s out tr Hb Hs Hfin Hfail Hrec IH];
    try done.
  - injection Hout as <-. split; [done|]. exists [], s.
    by rewrite app_nil_r.
  - destruct (IH Hout) as (-> & tr0 & s' & -> & Hs' & Hfin').
    split; [done|]. exists (EGetIndexState :: ESetTimeout p :: tr0), s'.
    split; [done|]. split; [|done]. by rewrite <- app_assoc in Hs'.
Qed.

Lemma index_run_returned env n h b tr :
  index_run env n h (Returned b) tr ->
  b = true /\
  (reports_index env h = true /\ tr = [EDescribeIndex] \/
   reports_index env h = false /\
   exists tr0 indexState,
     tr = tr0 ++ [EGetIndexState] /\
     getIndexState env (h ++ tr0) = Normal indexState /\
     index_finished indexState = true).
Proof.
  inversion 1 as [Hex| |out tr' Habsent Hcreate Hpolled]; subst.
  - split; [done|]. by left.
  - destruct (polled_returned _ _ _ _ _ _ _ Hpolled)
      as (-> & tr0 & s & -> & Hs & Hfin).
    split; [done|]. right. split; [done|].
    exists (EDescribeIndex :: ECreateIndex (index_request n) :: tr0), s.
    split; [done|]. split; [|done]. by rewrite <- app_assoc in Hs.
Qed.

(** X7. [createIndexIfNeeded] returns nothing but [true], and only when
    the index is there: either the describe-index query reported it, and
    nothing else was done, or the last thing done is a state check that
    the store answered with a finished state. *)
Theorem createIndexIfNeeded_success_means_ready env (n : Z) (h : History) b :
  fst (createIndexIfNeeded env n h) = Returned b ->
  b = true /\
  (reports_index env h = true /\
   snd (createIndexIfNeeded env n h) = [EDescribeIndex] \/
   reports_index env h = false /\
   exists tr0 indexState,
     snd (createIndexIfNeeded env n h) = tr0 ++ [EGetIndexState] /\
     getIndexState env (h ++ tr0) = Normal indexState /\
     index_finished indexState = true).
Proof.
  pose proof (createIndexIfNeeded_run env n h) as Hrun.
  destruct (createIndexIfNeeded env n h) as [out tr]. cbn [fst snd] in *.
  intros ->. by apply (index_run_returned env n).
Qed.

Lemma createIndexIfNeeded_success_means_ready_witness :
  fst (createIndexIfNeeded env_finishing 9 []) = Returned true /\
  reports_index env_finishing [] = false /\
  snd (createIndexIfNeeded env_finishing 9 []) =
    [EDescribeIndex; ECreateIndex (index_request 9)] ++ [EGetIndexState].
Proof.
  split; [reflexivity|].
  destruct (createIndexIfNeeded_success_means_ready env_finishing 9 [] true)
    as [_ [[Hreports _]|[Hreports _]]]; [reflexivity|discriminate Hreports|].
  split; [exact Hreports|reflexivity].
Defined.

(** X8. Failures of the store during index creation: a failing
    describe-index query is swallowed and the creation is requested; a
    refused creation request is rethrown as it is, without any state
    check; a failing state query is rethrown as it is and is the last
    thing done. *)
Theorem createIndexIfNeeded_store_errors env (n : Z) (h : History) :
  let run := createIndexIfNeeded env n h in
  (forall error,
     describeIndex env h = Throw error ->
     exists tr, snd run = EDescribeIndex :: ECreateIndex (index_request n) :: tr) /\
  (forall error,
     reports_index env h = false ->
     createIndex env (h ++ [EDescribeIndex]) (index_request n) = Throw error ->
     run = (Threw error, [EDescribeIndex; ECreateIndex (index_request n)])) /\
  (forall tr1 rest error,
     snd run = tr1 ++ EGetIndexState :: rest ->
     getIndexState env (h ++ tr1) = Throw error ->
     rest = [] /\ fst run = Threw error).
Proof.
  intros run. pose proof (createIndexIfNeeded_run env n h) as Hrun.
  fold run in Hrun. destruct run as [out tr]. cbn [fst snd] in *.
  split; [|split].
  - intros error Hdescribe.
    assert (Habsent : reports_index env h = false)
      by (unfold reports_index; by rewrite Hdescribe).
    destruct Hrun; try congruence; by eexists.
  - intros error Habsent Hcreate. destruct Hrun; congruence.
  - intros tr1 rest error Htr Hthrow.
    destruct Hrun as [| |out tr ? ? Hpolled].
    + by destruct tr1 as [|? [|? ?]].
    + by destruct tr1 as [|? [|? [|? ?]]].
    + destruct tr1 as [|a [|b tr1]]; try done.
      simpl in Htr. injection Htr as <- <- Htr.
      eapply (polled_unreachable_last _ _ _ _ _ _ _ Hpolled tr1 rest error);
        [done|]. by rewrite <- app_assoc.
Qed.

Lemma createIndexIfNeeded_store_errors_witness :
  reports_index env_refusing [] = false /\
  createIndex env_refusing ([] ++ [EDescribeIndex]) (index_request 9)
    = Throw (JsError "create index: denied") /\
  createIndexIfNeeded env_refusing 9 [] =
    (Threw (JsError "create index: denied"),
     [EDescribeIndex; ECreateIndex (index_request 9)]) /\
  fst (createIndexIfNeeded env_unreachable 9 []) =
    Threw (JsError "get index state: unavailable").
Proof.
  split; [reflexivity|]. split; [reflexivity|]. split.
  - destruct (createIndexIfNeeded_store_errors env_refusing 9 [])
      as (_ & Hrefused & _). by apply Hrefused.
  - destruct (createIndexIfNeeded_store_errors env_unreachable 9 [])
      as (_ & _ & Hstate).
    apply (Hstate [EDescribeIndex; ECreateIndex (index_request 9)] []);
      reflexivity.
Defined.

(** X9. The sleep budget of the polling loop; its numbers are binary64.
    In every run of [createIndexIfNeeded] the sleeps are the first
    intervals of one schedule, at most [MAX_RETRIES] of them, each between
    2000 and 10000 milliseconds and none shorter than the one before.
    After [j] of them the variable [elapsedTime] is their sum, each
    addition rounded; it is at most 300000 and passes the test
    [elapsedTime < MAX_INDEX_WAIT_TIME]. Hence a run whose last event is a
    sleep, the loop having ended through its guard, made exactly
    [MAX_RETRIES] sleeps and throws the timeout error: of the two bounds
    only the retry counter ends this loop. In the loop entered in any
    state, a state check that follows [j] sleeps is made only if the
    elapsed time on entry plus these sleeps is below
    [MAX_INDEX_WAIT_TIME]. *)
Theorem createIndexIfNeeded_sleep_budget env (n : Z) (h : History) :
  let run := createIndexIfNeeded env n h in
  let sleeps := omap timeout_ms (snd run) in
  let elapsedTime := elapsed_after (Binary64.of_Z 0) POLLING_INTERVAL in
  length sleeps <= MAX_RETRIES /\
  sleeps = map (interval_at POLLING_INTERVAL) (seq 0 (length sleeps)) /\
  Forall (fun ms => (2000 <= Binary64.to_Q ms)%Q /\
                    (Binary64.to_Q ms <= 10000)%Q) sleeps /\
  (forall k a b, sleeps !! k = Some a -> sleeps !! S k = Some b ->
     (Binary64.to_Q a <= Binary64.to_Q b)%Q) /\
  (forall j, j <= length sleeps ->
     elapsedTime j = fold_left Binary64.add (take j sleeps) (Binary64.of_Z 0) /\
     (Binary64.to_Q (elapsedTime j) <= 300000)%Q /\
     Binary64.ltb (elapsedTime j) MAX_INDEX_WAIT_TIME = true) /\
  (forall tr0 ms, snd run = tr0 ++ [ESetTimeout ms] ->
     length sleeps = MAX_RETRIES /\ fst run = Threw timeout_error) /\
  (forall fuel e p r h' j,
     MAX_RETRIES - r <= fuel ->
     j < length (List.filter is_getIndexState
                   (snd (poll_loop env fuel e p r h'))) ->
     Binary64.ltb (elapsed_after e p j) MAX_INDEX_WAIT_TIME = true).
Proof.
  intros run sleeps elapsedTime.
  assert (Hlen : length sleeps <= MAX_RETRIES).
  { unfold sleeps, run. pose proof (createIndexIfNeeded_run env n h) as Hrun.
    destruct (createIndexIfNeeded env n h) as [out tr]. cbn [fst snd] in *.
    destruct Hrun as [| |out tr ? ? Hpolled];
      try (cbn; unfold MAX_RETRIES; lia).
    cbn [omap list_omap timeout_ms].
    pose proof (polled_sleeps_count _ _ _ _ _ _ _ Hpolled). lia. }
  assert (Hschedule :
            sleeps = map (interval_at POLLING_INTERVAL) (seq 0 (length sleeps))).
  { unfold sleeps, run. pose proof (createIndexIfNeeded_run env n h) as Hrun.
    destruct (createIndexIfNeeded env n h) as [out tr]. cbn [fst snd] in *.
    destruct Hrun as [| |out tr ? ? Hpolled]; try done.
    cbn [omap list_omap timeout_ms].
    by apply (polled_schedule _ _ _ _ _ _ _ Hpolled). }
  assert (Hat : forall k ms, sleeps !! k = Some ms ->
            ms = interval_at POLLING_INTERVAL k /\ k < MAX_RETRIES).
  { intros k ms Hk. apply lookup_lt_Some in Hk as Hlt.
    rewrite Hschedule in Hk. apply list_lookup_fmap_Some in Hk
      as (i & -> & Hi). apply lookup_seq in Hi as [-> _]. split; [done|lia]. }
  split; [exact Hlen|]. split; [exact Hschedule|].
  split; [|split; [|split; [|split]]].
  - apply Forall_forall. intros ms Hin.
    apply list_elem_of_lookup in Hin as [k Hk].
    destruct (Hat k ms Hk) as [-> Hlt].
    destruct (schedule_values k Hlt) as (_ & _ & Hlo & Hhi & _). done.
  - intros k a b Ha Hb.
    destruct (Hat k a Ha) as [-> Hlt]. destruct (Hat (S k) b Hb) as [-> _].
    by destruct (schedule_values k Hlt) as (_ & _ & _ & _ & Hup).
  - intros j Hj. split; [|split].
    + unfold elapsedTime, elapsed_after. f_equal.
      rewrite Hschedule at 1.
      change (take j (map ?f ?l)) with (take j (f <$> l)).
      rewrite <- fmap_take, take_seq. f_equal. f_equal. lia.
    + apply schedule_elapsed. lia.
    + apply schedule_within_bounds. lia.
  - intros tr0 ms Htr.
    unfold sleeps, run in *. pose proof (createIndexIfNeeded_run env n h) as Hrun.
    destruct (createIndexIfNeeded env n h) as [out tr]. cbn [fst snd] in *.
    destruct Hrun as [| |out tr ? ? Hpolled].
    + by destruct tr0 as [|? [|? ?]].
    + by destruct tr0 as [|? [|? [|? ?]]].
    + destruct tr0 as [|a [|b tr0]]; try done.
      cbn [app] in Htr. injection Htr as _ _ Htr.
      destruct (polled_ends_after_sleep _ _ _ _ _ _ _ Hpolled tr0 ms Htr)
        as [-> Hend].
      cbn [omap list_omap timeout_ms] in *. split; [|done].
      apply within_bounds_false in Hend as [Hwait|Hretry]; [|lia].
      rewrite schedule_within_bounds in Hwait by done. done.
  - intros fuel e p r h' j Hfuel Hj.
    eapply within_bounds_true, polled_guard; [|exact Hj].
    by apply poll_loop_polled.
Qed.

Lemma createIndexIfNeeded_sleep_budget_witness :
  length (omap timeout_ms (snd (createIndexIfNeeded env_building 9 [])))
    = MAX_RETRIES /\
  fst (createIndexIfNeeded env_building 9 []) = Threw timeout_error.
Proof.
  destruct (createIndexIfNeeded_sleep_budget env_building 9 [])
    as (_ & _ & _ & _ & _ & Hexit & _).
  apply (Hexit (removelast (snd (createIndexIfNeeded env_building 9 [])))
               (Binary64.of_Z 10000)).
  vm_compute. reflexivity.
Defined.

(** X10. When the store accepts every insert call, the insert step makes
    exactly [ceil(n / 1000)] calls for [n >= 1] records; whatever the
    store does it never makes more. *)
Theorem insert_embeddings_call_count env
    (embeddingsToInsert : list EmbeddingRecord) (h : History) :
  embeddingsToInsert <> [] ->
  let calls := omap inserted_batch (snd (insert_embeddings env embeddingsToInsert h)) in
  length calls <= (length embeddingsToInsert + 999) / 1000 /\
  ((forall h' b, insert env h' b = Normal tt) ->
   length calls = (length embeddingsToInsert + 999) / 1000).
Proof.
  intros Hne calls.
  pose proof (insert_embeddings_issued env embeddingsToInsert h) as Hissued.
  destruct (issued_trace env _ _ _ _ Hissued)
    as (_ & _ & (later & Hplan & Hall) & Haccept).
  fold calls in Hplan.
  assert (Hlen : length (insert_plan embeddingsToInsert) =
                 (length embeddingsToInsert + 999) / 1000).
  { unfold insert_plan.
    destruct (Nat.ltb_spec 1000 (length embeddingsToInsert)) as [Hlt|Hge].
    - rewrite RunnerExtras.consecutive_batches_length by lia. f_equal. lia.
    - cbn [length]. apply (Nat.div_unique _ _ _ (length embeddingsToInsert - 1));
        destruct embeddingsToInsert; (done || (simpl in *; lia)). }
  rewrite Hplan, length_app in Hlen. split; [lia|].
  intros Hok. rewrite (Hall (Haccept Hok)) in Hlen. cbn [length] in Hlen. lia.
Qed.

Lemma insert_embeddings_call_count_witness :
  replicate 2001 sample_record <> [] /\
  length (omap inserted_batch
            (snd (insert_embeddings env_finishing
                    (replicate 2001 sample_record) []))) = 3.
Proof.
  split; [done|].
  destruct (insert_embeddings_call_count env_finishing
              (replicate 2001 sample_record) []) as [_ Hcount]; [done|].
  rewrite Hcount; [reflexivity|]. intros h' b. reflexivity.
Defined.

End IndexExtras.

Module RouteExtras.
Import Runner RunnerFacts IndexRoute RouteRuns IndexFacts PostFacts.

(** What one chunk contributes to the records of its file. *)
Lemma processChunk_cases env filePath sessionId chunk :
  (exists embeddingResponse embedding others,
     generateEmbeddings env (chunk_content chunk) = Normal embeddingResponse /\
     data embeddingResponse = Some (embedding :: others) /\
     processChunk env filePath sessionId chunk =
       fulfilled (Some {| rec_content := chunk_content chunk;
                          rec_file_path := filePath;
                          rec_embedding := embedding;
                          rec_sessionId := sessionId;
                          rec_startLine := chunk_startLine chunk;
                          rec_endLine := chunk_endLine chunk;
                          rec_chunkType := chunk_type chunk |})) \/
  ((forall embeddingResponse embedding others,
      generateEmbeddings env (chunk_content chunk) = Normal embeddingResponse ->
      data embeddingResponse <> Some (embedding :: others)) /\
   processChunk env filePath sessionId chunk = fulfilled None).
Proof.
  unfold processChunk.
  destruct (generateEmbeddings env (chunk_content chunk)) as [resp|error].
  - destruct (data resp) as [[|embedding others]|] eqn:Hdata.
    + right. split; [|done]. intros ? ? ? [= <-]. by rewrite Hdata.
    + left. by exists resp, embedding, others.
    + right. split; [|done]. intros ? ? ? [= <-]. by rewrite Hdata.
  - right. split; [|done]. by intros ? ? ? [=].
Qed.

Lemma chunk_record_in env filePath sessionId (codeChunks : list Chunk) r :
  In r (omap id (omap fulfilled_value
                   (map (processChunk env filePath sessionId) codeChunks))) <->
  exists chunk, In chunk codeChunks /\
    processChunk env filePath sessionId chunk = fulfilled (Some r).
Proof.
  rewrite RunnerClaims.omap_in_iff. split.
  - intros (o & Ho & Hid). cbn in Hid. subst o.
    apply RunnerClaims.omap_in_iff in Ho as (x & Hx & Hval).
    apply in_map_iff in Hx as (chunk & <- & Hchunk).
    apply RunnerClaims.fulfilled_value_Some in Hval. eauto.
  - intros (chunk & Hchunk & Hval). exists (Some r). split; [|done].
    apply RunnerClaims.omap_in_iff.
    exists (processChunk env filePath sessionId chunk). split.
    + by apply in_map.
    + by rewrite Hval.
Qed.

Lemma chunk_records_sublist env filePath sessionId (codeChunks : list Chunk) :
  sublist
    (map rec_content
       (omap id (omap fulfilled_value
                   (map (processChunk env filePath sessionId) codeChunks))))
    (map chunk_content codeChunks).
Proof.
  induction codeChunks as [|c chunks IH]; [constructor|].
  cbn [map omap list_omap].
  destruct (processChunk_cases env filePath sessionId c)
    as [(resp & embedding & others & Hcall & Hdata & ->)|[Hnone ->]];
    cbn [fulfilled_value omap list_omap id map]; by constructor.
Qed.

Lemma file_elements_results env (sessionId : string)
    (codeFiles : list (option FileNode)) :
  omap fulfilled_value (map (processCodeFileElement env sessionId) codeFiles) =
  omap fulfilled_value
    (map (processCodeFileContent env sessionId) (omap id codeFiles)).
Proof.
  induction codeFiles as [|[f|] files IH]; [done| |].
  - cbn [map omap list_omap id processCodeFileElement].
    destruct (fulfilled_value (processCodeFileContent env sessionId f));
      by rewrite IH.
  - cbn [map omap list_omap id processCodeFileElement fulfilled_value].
    exact IH.
Qed.

(** X1. [processCodeFileContent] rejects on an element of [codeFiles] that
    is [null]: the [catch] block reads [file.path] and throws in its turn.
    On a file object it is fulfilled. The records it returns then all
    carry the session and the path of the file; their contents are, in
    order, contents of the chunks of the file; a chunk content has a record
    exactly when the embedding call for it answered with at least one
    vector; when the chunker throws there is no record. In [POST] a [null]
    element adds no record: the records are those of the file objects of
    the array. The limit that an engine puts on the number of arguments
    of [push(...validResults)] is not modelled: the statement is about
    files whose chunks stay below it. *)
Theorem processCodeFileContent_records env (sessionId : string) :
  processCodeFileElement env sessionId None
    = rejected (JsError "Cannot read properties of null (reading 'path')") /\
  (forall f : FileNode, exists records,
    processCodeFileElement env sessionId (Some f) = fulfilled records /\
    processCodeFileContent env sessionId f = fulfilled records /\
    Forall (fun r => rec_sessionId r = sessionId /\ rec_file_path r = path f)
           records /\
    (forall error,
       generateChunks env (default "" (content f)) (default "" (extension f))
         = Throw error -> records = []) /\
    (forall codeChunks,
       generateChunks env (default "" (content f)) (default "" (extension f))
         = Normal codeChunks ->
       sublist (map rec_content records) (map chunk_content codeChunks) /\
       forall chunk, In chunk codeChunks ->
         (exists r, In r records /\ rec_content r = chunk_content chunk) <->
         (exists embeddingResponse embedding others,
            generateEmbeddings env (chunk_content chunk)
              = Normal embeddingResponse /\
            data embeddingResponse = Some (embedding :: others)))) /\
  (forall codeFiles : list (option FileNode),
     flat_embeddings_elements env sessionId codeFiles =
     flat_embeddings env sessionId (omap id codeFiles)).
Proof.
  split; [reflexivity|]. split.
  - intros f. eexists.
    split; [apply PostClaims.processCodeFileContent_spec|].
    split; [apply PostClaims.processCodeFileContent_spec|].
    destruct (generateChunks env _ _) as [codeChunks|error].
    + split; [|split; [done|]].
      * apply Forall_forall. intros r Hr. apply list_elem_of_In in Hr.
        apply chunk_record_in in Hr as (chunk & _ & Hr).
        destruct (processChunk_cases env (path f) sessionId chunk)
          as [(? & ? & ? & _ & _ & Heq)|[_ Heq]]; rewrite Heq in Hr; [|done].
        by injection Hr as <-.
      * intros ? [= <-]. split; [apply chunk_records_sublist|].
        intros chunk Hchunk. split.
        -- intros (r & Hr & Hcontent).
           apply chunk_record_in in Hr as (chunk' & _ & Hr).
           destruct (processChunk_cases env (path f) sessionId chunk')
             as [(resp & embedding & others & Hcall & Hdata & Heq)|[_ Heq]];
             rewrite Heq in Hr; [|done].
           injection Hr as <-. cbn [rec_content] in Hcontent.
           rewrite <- Hcontent. eauto.
        -- intros (resp & embedding & others & Hcall & Hdata).
           destruct (processChunk_cases env (path f) sessionId chunk)
             as [(? & ? & ? & _ & _ & Heq)|[Hnone _]].
           ++ eexists. split; [apply chunk_record_in; eauto|done].
           ++ by destruct (Hnone resp embedding others Hcall).
    + split; [done|]. split; [done|]. by intros ? [=].
  - intros codeFiles. unfold flat_embeddings_elements, flat_embeddings.
    unfold processConcurrently.
    rewrite !processConcurrently_run_spec
      by (unfold MAX_CONCURRENT_FILES; lia).
    cbn [fmap option_fmap option_map results].
    by rewrite file_elements_results.
Qed.

Lemma flat_embeddings_from_files env (sessionId : string)
    (codeFiles : list FileNode) (embeddingsToInsert : list EmbeddingRecord) r :
  flat_embeddings env sessionId codeFiles = Some embeddingsToInsert ->
  In r embeddingsToInsert ->
  exists f records,
    In f codeFiles /\
    processCodeFileContent env sessionId f = fulfilled records /\
    In r records.
Proof.
  unfold flat_embeddings, processConcurrently.
  rewrite processConcurrently_run_spec by (unfold MAX_CONCURRENT_FILES; lia).
  cbn [fmap option_fmap option_map results]. intros [= <-] Hr.
  apply in_concat in Hr as (records & Hrecords & Hr).
  apply RunnerClaims.omap_in_iff in Hrecords as (x & Hx & Hval).
  apply in_map_iff in Hx as (f & <- & Hf).
  apply RunnerClaims.fulfilled_value_Some in Hval. eauto.
Qed.

Lemma insert_embeddings_sent env (embeddingsToInsert : list EmbeddingRecord)
    (h : History) :
  let run := insert_embeddings env embeddingsToInsert h in
  snd run = map EInsert (omap inserted_batch (snd run)) /\
  (exists later, inserted_records (snd run) ++ later = embeddingsToInsert) /\
  (fst run = Returned tt -> inserted_records (snd run) = embeddingsToInsert).
Proof.
  intros run.
  pose proof (insert_embeddings_issued env embeddingsToInsert h) as Hissued.
  fold run in Hissued.
  destruct (issued_trace env _ _ _ _ Hissued)
    as (_ & Htr & (later & Hplan & Hall) & _).
  pose proof (insert_plan_concat embeddingsToInsert) as Hconcat.
  rewrite Hplan, concat_app in Hconcat. unfold inserted_records.
  split; [done|]. split; [by eauto|].
  intros Hret. rewrite (Hall Hret) in Hconcat. simpl in Hconcat.
  by rewrite app_nil_r in Hconcat.
Qed.

Lemma polled_no_insert env e p r h out tr :
  polled env e p r h out tr -> omap inserted_batch tr = [].
Proof. induction 1; done. Qed.

Lemma index_run_no_insert env n h out tr :
  index_run env n h out tr -> omap inserted_batch tr = [].
Proof. destruct 1; try done. cbn. by eapply polled_no_insert. Qed.

Lemma POST_run env (sessionId : string) (codeFiles : list FileNode)
    (embeddingsToInsert : list EmbeddingRecord) (h : History) :
  falsy_sessionId (Some sessionId) = false ->
  flat_embeddings env sessionId codeFiles = Some embeddingsToInsert ->
  embeddingsToInsert <> [] ->
  post_run env embeddingsToInsert h
    (fst (POST env (Normal {| body_sessionId := Some sessionId;
                              body_codeFiles := Some codeFiles |}) h))
    (snd (POST env (Normal {| body_sessionId := Some sessionId;
                              body_codeFiles := Some codeFiles |}) h)).
Proof.
  intros Hsession Hflat Hne.
  pose proof (ends_insert_embeddings env embeddingsToInsert) as Hins_ends.
  pose proof (ends_createIndexIfNeeded env (Z.of_nat (length embeddingsToInsert)))
    as Hidx_ends.
  pose proof (post_no_client env embeddingsToInsert h) as Hcase1.
  pose proof (post_insert_refused env embeddingsToInsert h) as Hcase2.
  pose proof (post_index_failed env embeddingsToInsert h) as Hcase3.
  pose proof (post_indexed env embeddingsToInsert h) as Hcase4.
  unfold POST.
  unfold bind, try_catch, date_now, await, ret, call.
  cbn [body_sessionId body_codeFiles].
  rewrite Hsession, Hflat.
  set (ins := insert_embeddings env embeddingsToInsert) in *.
  set (idx := createIndexIfNeeded env (Z.of_nat (length embeddingsToInsert))) in *.
  clearbody ins idx.
  assert ((length embeddingsToInsert =? 0) = false) as ->.
  { destruct embeddingsToInsert; [done|]. done. }
  rewrite !app_nil_r, <- !app_assoc. cbn [app].
  destruct (getMilvusClient env (h ++ [EDateNow; EDateNow])) as [[]|error]
    eqn:Hclient; cbn [fst snd app].
  2: { rewrite ?app_nil_r. by apply Hcase1. }
  rewrite <- !app_assoc. cbn [app].
  specialize (Hins_ends (h ++ [EDateNow; EDateNow; EGetMilvusClient; EDateNow])).
  destruct (ins (h ++ [EDateNow; EDateNow; EGetMilvusClient; EDateNow]))
    as [[[]|error|] tr] eqn:Hins; cbn [fst snd app] in *; try done.
  2: { rewrite ?app_nil_r. by apply (Hcase2 error tr). }
  rewrite <- !app_assoc. cbn [app].
  specialize (Hidx_ends (h ++ EDateNow :: EDateNow :: EGetMilvusClient :: EDateNow
                           :: tr ++ [EDateNow])).
  destruct (idx (h ++ EDateNow :: EDateNow :: EGetMilvusClient :: EDateNow
                   :: tr ++ [EDateNow]))
    as [[b|error|] tr'] eqn:Hidx; cbn [fst snd app] in *; try done.
  - rewrite <- !app_assoc. cbn [app]. rewrite <- !app_assoc.
    by apply (Hcase4 tr b tr').
  - rewrite ?app_nil_r, <- ?app_assoc. by apply (Hcase3 error tr tr').
Qed.

Lemma POST_invalid env (body : IndexRequestBody) (h : History) :
  falsy_sessionId (body_sessionId body) = true \/ body_codeFiles body = None ->
  POST env (Normal body) h = (Returned invalid_request_response, [EDateNow]).
Proof.
  intros Hbad. unfold POST, bind, try_catch, date_now, await, ret.
  destruct (body_sessionId body) as [s|]; [|done].
  destruct (body_codeFiles body) as [files|]; [|done].
  destruct Hbad as [->|]; done.
Qed.

Lemma POST_unreadable env (error : Thrown) (h : History) :
  POST env (Throw error) h =
  (Returned (error_response (NODE_ENV_development env) error), [EDateNow]).
Proof. by destruct error. Qed.

(** The ways a call of [POST] goes. *)
Lemma POST_cases env (req_json : Completion IndexRequestBody) (h : History) :
  (exists error,
     req_json = Throw error /\
     POST env req_json h =
       (Returned (error_response (NODE_ENV_development env) error), [EDateNow])) \/
  (exists body,
     req_json = Normal body /\
     (falsy_sessionId (body_sessionId body) = true \/ body_codeFiles body = None) /\
     POST env req_json h = (Returned invalid_request_response, [EDateNow])) \/
  (exists sessionId codeFiles response,
     req_json = Normal {| body_sessionId := Some sessionId;
                          body_codeFiles := Some codeFiles |} /\
     falsy_sessionId (Some sessionId) = false /\
     flat_embeddings env sessionId codeFiles = Some [] /\
     POST env req_json h = (Returned response, [EDateNow; EDateNow]) /\
     status response = 400%Z /\
     payload_field "success" response = None) \/
  (exists sessionId codeFiles embeddingsToInsert,
     req_json = Normal {| body_sessionId := Some sessionId;
                          body_codeFiles := Some codeFiles |} /\
     falsy_sessionId (Some sessionId) = false /\
     flat_embeddings env sessionId codeFiles = Some embeddingsToInsert /\
     embeddingsToInsert <> [] /\
     post_run env embeddingsToInsert h
       (fst (POST env req_json h)) (snd (POST env req_json h))).
Proof.
  destruct req_json as [[sessionId codeFiles]|error].
  2: { left. exists error. split; [done|]. apply POST_unreadable. }
  right.
  destruct sessionId as [sessionId|].
  2: { left. eexists. split; [done|]. split; [by left|].
       apply POST_invalid. by left. }
  destruct codeFiles as [codeFiles|].
  2: { left. eexists. split; [done|]. split; [by right|].
       apply POST_invalid. by right. }
  destruct (falsy_sessionId (Some sessionId)) eqn:Hsession.
  { left. eexists. split; [done|]. split; [by left|].
    apply POST_invalid. by left. }
  right.
  destruct (flat_embeddings_returns env sessionId codeFiles)
    as [[|r0 rs] Hflat].
  - left. eexists sessionId, codeFiles, _. split; [done|]. split; [done|].
    split; [done|]. split.
    + by apply PostClaims.POST_nothing_to_insert.
    + done.
  - right. exists sessionId, codeFiles, (r0 :: rs).
    repeat split; try done. by apply POST_run.
Qed.


Lemma inserted_records_app (tr1 tr2 : list Event) :
  inserted_records (tr1 ++ tr2) = inserted_records tr1 ++ inserted_records tr2.
Proof. unfold inserted_records. by rewrite omap_app, concat_app. Qed.



(** X3. [POST] never throws: whatever the request and whatever the
    chunker, the embedding service and the store do, it returns a
    response. Its status is 200, 400 or 500, and the [success] field of
    the payload is [true] exactly for 200, [false] exactly for 500 and
    absent exactly for 400. *)
Theorem POST_always_answers env (req_json : Completion IndexRequestBody)
    (h : History) :
  exists response,
    fst (POST env req_json h) = Returned response /\
    (status response = 200 \/ status response = 400 \/ status response = 500)%Z /\
    (payload_field "success" response = Some (JBool true) <->
     status response = 200%Z) /\
    (payload_field "success" response = Some (JBool false) <->
     status response = 500%Z) /\
    (payload_field "success" response = None <-> status response = 400%Z).
Proof.
  assert (Herr : forall error,
    let response := error_response (NODE_ENV_development env) error in
    (status response = 200 \/ status response = 400 \/ status response = 500)%Z /\
    (payload_field "success" response = Some (JBool true) <->
     status response = 200%Z) /\
    (payload_field "success" response = Some (JBool false) <->
     status response = 500%Z) /\
    (payload_field "success" response = None <-> status response = 400%Z)).
  { intros error. cbn. repeat split; (done || auto). }
  destruct (POST_cases env req_json h)
    as [(error & _ & ->)|[(body & _ & _ & ->)|
        [(s & files & response & _ & _ & _ & -> & Hstatus & Hsuccess)|
         (s & files & recs & _ & _ & _ & _ & Hrun)]]].
  - eexists. split; [done|]. apply Herr.
  - eexists. split; [done|]. cbn. repeat split; (done || auto).
  - exists response. split; [done|]. rewrite Hstatus, Hsuccess.
    repeat split; (done || auto).
  - destruct Hrun; (eexists; split; [done|]); try apply Herr.
    cbn. repeat split; (done || auto).
Qed.

Lemma index_run_inserted env n h out tr :
  index_run env n h out tr -> inserted_records tr = [].
Proof.
  intros Hrun. unfold inserted_records.
  by rewrite (index_run_no_insert _ _ _ _ _ Hrun).
Qed.

(** The records sent by a run of [POST] are the first records of the
    array, all of them when the index step was reached. *)
Lemma post_run_inserted env (embeddingsToInsert : list EmbeddingRecord)
    (h : History) out tr :
  post_run env embeddingsToInsert h out tr ->
  exists later,
    inserted_records tr ++ later = embeddingsToInsert /\
    (forall response, out = Returned response -> status response = 200%Z ->
       later = []).
Proof.
  destruct 1 as [error Hclient|error tr Hclient Hins|
                 error tr tr' Hclient Hins Hidx|tr b tr' Hclient Hins Hidx].
  - exists embeddingsToInsert. split; [done|]. by intros ? [= <-].
  - destruct (insert_embeddings_sent env embeddingsToInsert
                (h ++ [EDateNow; EDateNow; EGetMilvusClient; EDateNow]))
      as (_ & (later & Hlater) & _).
    rewrite Hins in Hlater. cbn [snd] in Hlater.
    exists later. split; [|by intros ? [= <-]].
    by rewrite inserted_records_app.
  - destruct (insert_embeddings_sent env embeddingsToInsert
                (h ++ [EDateNow; EDateNow; EGetMilvusClient; EDateNow]))
      as (_ & _ & Hall).
    rewrite Hins in Hall. cbn [fst snd] in Hall.
    pose proof (createIndexIfNeeded_run env
      (Z.of_nat (length embeddingsToInsert))
      (h ++ [EDateNow; EDateNow; EGetMilvusClient; EDateNow] ++ tr ++ [EDateNow]))
      as Hindex.
    rewrite Hidx in Hindex. cbn [fst snd] in Hindex.
    exists []. split; [|done].
    rewrite !inserted_records_app, (index_run_inserted _ _ _ _ _ Hindex), Hall by done.
    cbn. by rewrite !app_nil_r.
  - destruct (insert_embeddings_sent env embeddingsToInsert
                (h ++ [EDateNow; EDateNow; EGetMilvusClient; EDateNow]))
      as (_ & _ & Hall).
    rewrite Hins in Hall. cbn [fst snd] in Hall.
    pose proof (createIndexIfNeeded_run env
      (Z.of_nat (length embeddingsToInsert))
      (h ++ [EDateNow; EDateNow; EGetMilvusClient; EDateNow] ++ tr ++ [EDateNow]))
      as Hindex.
    rewrite Hidx in Hindex. cbn [fst snd] in Hindex.
    exists []. split; [|done].
    rewrite !inserted_records_app, (index_run_inserted _ _ _ _ _ Hindex), Hall by done.
    cbn. by rewrite !app_nil_r.
Qed.

Lemma processCodeFileContent_tags env (sessionId : string) (f : FileNode)
    records r :
  processCodeFileContent env sessionId f = fulfilled records ->
  In r records ->
  rec_sessionId r = sessionId /\ rec_file_path r = path f.
Proof.
  rewrite PostClaims.processCodeFileContent_spec. intros [= <-] Hr.
  destruct (generateChunks env _ _) as [codeChunks|error]; [|done].
  apply chunk_record_in in Hr as (chunk & _ & Hr).
  destruct (processChunk_cases env (path f) sessionId chunk)
    as [(? & ? & ? & _ & _ & Heq)|[_ Heq]]; rewrite Heq in Hr; [|done].
  by injection Hr as <-.
Qed.

(** X4. Every record that [POST] sends to the store belongs to the
    session of the request and to one of its files: its [sessionId] is the
    one of the body and its [file_path] the path of a file of
    [codeFiles]. *)
Theorem POST_inserts_session_records env (body : IndexRequestBody)
    (h : History) batch r :
  In (EInsert batch) (snd (POST env (Normal body) h)) ->
  In r batch ->
  body_sessionId body = Some (rec_sessionId r) /\
  exists codeFiles f,
    body_codeFiles body = Some codeFiles /\ In f codeFiles /\
    rec_file_path r = path f.
Proof.
  intros Hbatch Hr.
  assert (Hsent : In r (inserted_records (snd (POST env (Normal body) h)))).
  { unfold inserted_records. apply in_concat. exists batch. split; [|done].
    apply RunnerClaims.omap_in_iff. by exists (EInsert batch). }
  clear Hbatch Hr batch.
  destruct (POST_cases env (Normal body) h)
    as [(error & ? & _)|[(body' & _ & _ & Hpost)|
        [(s & files & response & _ & _ & _ & Hpost & _)|
         (s & files & recs & [= ->] & Hsession & Hflat & Hne & Hrun)]]];
    try done; try (by rewrite Hpost in Hsent).
  destruct (post_run_inserted _ _ _ _ _ Hrun) as (later & Hlater & _).
  assert (Hrecs : In r recs).
  { rewrite <- Hlater. apply in_app_iff. by left. }
  destruct (flat_embeddings_from_files env s files recs r Hflat Hrecs)
    as (f & records & Hf & Hfile & Hrecord).
  destruct (processCodeFileContent_tags env s f records r Hfile Hrecord)
    as [<- Hpath].
  split; [done|]. by exists files, f.
Qed.

Lemma POST_inserts_session_records_witness :
  In (EInsert [sample_record])
     (snd (POST env_finishing
             (Normal {| body_sessionId := Some "s1";
                        body_codeFiles :=
                          Some [sample_file "a.py" "def f(): pass"] |}) [])) /\
  In sample_record [sample_record] /\
  Some "s1" = Some (rec_sessionId sample_record).
Proof.
  assert (Hin : In (EInsert [sample_record])
     (snd (POST env_finishing
             (Normal {| body_sessionId := Some "s1";
                        body_codeFiles :=
                          Some [sample_file "a.py" "def f(): pass"] |}) []))).
  { vm_compute. do 4 right. by left. }
  split; [exact Hin|]. split; [by left|].
  apply (POST_inserts_session_records env_finishing _ [] [sample_record]
           sample_record Hin). by left.
Defined.

(** X5. The records [POST] sends to the store are, in order, the first
    records of the flattened array: none is sent twice, none is skipped.
    When the response has status 200 all of them were sent, before the
    index step began, [totalChunks] is their number and the index step
    returned [true]. *)
Theorem POST_records_sent env (sessionId : string) (codeFiles : list FileNode)
    (embeddingsToInsert : list EmbeddingRecord) (h : History) :
  falsy_sessionId (Some sessionId) = false ->
  flat_embeddings env sessionId codeFiles = Some embeddingsToInsert ->
  let run := POST env (Normal {| body_sessionId := Some sessionId;
                                 body_codeFiles := Some codeFiles |}) h in
  (exists later, inserted_records (snd run) ++ later = embeddingsToInsert) /\
  (forall response,
     fst run = Returned response -> status response = 200%Z ->
     inserted_records (snd run) = embeddingsToInsert /\
     embeddingsToInsert <> [] /\
     payload_field "totalChunks" response =
       Some (JNum (Z.of_nat (length embeddingsToInsert))) /\
     exists tr_insert tr_index,
       snd run = [EDateNow; EDateNow; EGetMilvusClient; EDateNow] ++
                 tr_insert ++ [EDateNow] ++ tr_index ++ [EDateNow; EDateNow] /\
       inserted_records tr_insert = embeddingsToInsert /\
       createIndexIfNeeded env (Z.of_nat (length embeddingsToInsert))
         (h ++ [EDateNow; EDateNow; EGetMilvusClient; EDateNow] ++
            tr_insert ++ [EDateNow]) = (Returned true, tr_index)).
Proof.
  intros Hsession Hflat run.
  destruct (POST_cases env (Normal {| body_sessionId := Some sessionId;
                                      body_codeFiles := Some codeFiles |}) h)
    as [(error & ? & _)|[(body' & [= <-] & Hbad & _)|
        [(s & files & response & [= <- <-] & _ & Hflat' & Hpost & Hst & _)|
         (s & files & recs & [= <- <-] & _ & Hflat' & Hne & Hrun)]]];
    try done.
  - cbn [body_sessionId body_codeFiles] in Hbad.
    rewrite Hsession in Hbad. by destruct Hbad.
  - fold run in Hpost. rewrite Hpost. cbn [fst snd].
    rewrite Hflat in Hflat'. injection Hflat' as ->.
    split; [by exists []|]. intros response' [= <-]. congruence.
  - fold run in Hrun. rewrite Hflat in Hflat'. injection Hflat' as <-.
    destruct (post_run_inserted _ _ _ _ _ Hrun) as (later & Hlater & Hall).
    split; [by exists later|].
    intros response Hresponse Hstatus.
    rewrite (Hall response Hresponse Hstatus), app_nil_r in Hlater.
    split; [done|]. split; [done|].
    destruct Hrun as [error Hclient|error tr Hclient Hins|
                      error tr tr' Hclient Hins Hidx|tr b tr' Hclient Hins Hidx];
      injection Hresponse as <-; try done.
    split; [done|]. exists tr, tr'. split; [done|].
    destruct (insert_embeddings_sent env embeddingsToInsert
                (h ++ [EDateNow; EDateNow; EGetMilvusClient; EDateNow]))
      as (_ & _ & Hsent).
    rewrite Hins in Hsent. split; [by apply Hsent|].
    pose proof (createIndexIfNeeded_run env
      (Z.of_nat (length embeddingsToInsert))
      (h ++ [EDateNow; EDateNow; EGetMilvusClient; EDateNow] ++ tr ++ [EDateNow]))
      as Hindex.
    rewrite Hidx in Hindex. cbn [fst snd] in Hindex.
    apply IndexExtras.index_run_returned in Hindex as [-> _]. done.
Qed.

Lemma POST_records_sent_witness :
  falsy_sessionId (Some "s1") = false /\
  flat_embeddings env_finishing "s1" [sample_file "a.py" "def f(): pass"]
    = Some [sample_record] /\
  exists later,
    inserted_records
      (snd (POST env_finishing
              (Normal {| body_sessionId := Some "s1";
                         body_codeFiles :=
                           Some [sample_file "a.py" "def f(): pass"] |}) []))
      ++ later = [sample_record].
Proof.
  split; [reflexivity|]. split; [reflexivity|].
  apply (POST_records_sent env_finishing "s1"
           [sample_file "a.py" "def f(): pass"] [sample_record] []);
    reflexivity.
Defined.

(** X6. A response of status 500 is always the payload of the [catch]
    block for some thrown value: [success] is [false]; [message] is the
    message of the error, or a fixed text when the thrown value is not an
    [Error]; the [error] field is present only in development mode and
    only for an [Error]. When the client cannot be obtained no insert call
    and no index call is made. *)
Theorem POST_error_payload env (req_json : Completion IndexRequestBody)
    (h : History) response :
  fst (POST env req_json h) = Returned response ->
  status response = 500%Z ->
  (exists error,
     response = error_response (NODE_ENV_development env) error /\
     payload_field "message" response =
       Some (JStr match error with
                  | JsError message => message
                  | ThrownValue _ =>
                      "An unexpected error occurred during indexing."
                  end) /\
     payload_field "error" response =
       match error with
       | JsError message =>
           if NODE_ENV_development env then Some (JStr message) else None
       | ThrownValue _ => None
       end) /\
  (forall sessionId codeFiles embeddingsToInsert error,
     req_json = Normal {| body_sessionId := Some sessionId;
                          body_codeFiles := Some codeFiles |} ->
     falsy_sessionId (Some sessionId) = false ->
     flat_embeddings env sessionId codeFiles = Some embeddingsToInsert ->
     embeddingsToInsert <> [] ->
     getMilvusClient env (h ++ [EDateNow; EDateNow]) = Throw error ->
     snd (POST env req_json h) = [EDateNow; EDateNow; EGetMilvusClient]).
Proof.
  intros Hresponse Hstatus.
  assert (Hshape : forall error,
    payload_field "message" (error_response (NODE_ENV_development env) error) =
      Some (JStr match error with
                 | JsError message => message
                 | ThrownValue _ =>
                     "An unexpected error occurred during indexing."
                 end) /\
    payload_field "error" (error_response (NODE_ENV_development env) error) =
      match error with
      | JsError message =>
          if NODE_ENV_development env then Some (JStr message) else None
      | ThrownValue _ => None
      end).
  { intros [message|text]; [|done]. cbn.
    by destruct (NODE_ENV_development env). }
  split.
  - destruct (POST_cases env req_json h)
      as [(error & _ & Hpost)|[(body & _ & _ & Hpost)|
          [(s & files & response' & _ & _ & _ & Hpost & Hst & _)|
           (s & files & recs & _ & _ & _ & _ & Hrun)]]].
    + rewrite Hpost in Hresponse. injection Hresponse as <-.
      exists error. split; [done|]. apply Hshape.
    + rewrite Hpost in Hresponse. by injection Hresponse as <-.
    + rewrite Hpost in Hresponse. injection Hresponse as <-. congruence.
    + destruct Hrun; injection Hresponse as <-; try done;
        (eexists; split; [done|]; apply Hshape).
  - intros s files recs error -> Hsession Hflat Hne Hclient.
    pose proof (POST_run env s files recs h Hsession Hflat Hne) as Hrun.
    destruct Hrun; congruence.
Qed.

Lemma POST_error_payload_witness :
  fst (POST env_finishing (Throw (JsError "Unexpected end of JSON input")) [])
    = Returned (error_response false (JsError "Unexpected end of JSON input")) /\
  status (error_response false (JsError "Unexpected end of JSON input")) = 500%Z /\
  exists error,
    error_response false (JsError "Unexpected end of JSON input") =
    error_response (NODE_ENV_development env_finishing) error.
Proof.
  split; [reflexivity|]. split; [reflexivity|].
  destruct (POST_error_payload env_finishing
              (Throw (JsError "Unexpected end of JSON input")) []
              (error_response false (JsError "Unexpected end of JSON input")))
    as [(error & Heq & _) _]; [reflexivity|reflexivity|].
  by exists error.
Defined.

End RouteExtras.

(** * Further properties of the store gateways *)

Module GatewayExtras.
Import Search SearchStores StoreCalls.

Lemma fold_push_queried parseInt (items : list JsValue) :
  forall acc,
    fold_left (ZillizMethods.push_queried parseInt) items acc =
    acc ++ map (ZillizMethods.queried_chunk parseInt)
               (List.filter ZillizMethods.query_guard items).
Proof.
  induction items as [|item items IH]; intros acc; simpl.
  - by rewrite app_nil_r.
  - rewrite IH. unfold ZillizMethods.push_queried.
    destruct (ZillizMethods.query_guard item); [|done].
    simpl. by rewrite <- app_assoc.
Qed.

Lemma fold_push_chunk parseInt (items : list JsValue) :
  forall acc,
    fold_left (ZillizMethods.push_chunk parseInt) items acc =
    acc ++ map (ZillizMethods.listed_chunk parseInt)
               (List.filter ZillizMethods.chunks_guard items).
Proof.
  induction items as [|item items IH]; intros acc; simpl.
  - by rewrite app_nil_r.
  - rewrite IH. unfold ZillizMethods.push_chunk.
    destruct (ZillizMethods.chunks_guard item); [|done].
    simpl. by rewrite <- app_assoc.
Qed.

Lemma numeric_id_number parseInt item :
  (String.eqb (typeof (get_property item "id")) "number" ||
   String.eqb (typeof (get_property item "id")) "string") = true ->
  typeof (ZillizMethods.numeric_id parseInt item) = "number".
Proof.
  unfold ZillizMethods.numeric_id.
  by destruct (get_property item "id") as [| | | | | |].
Qed.

Lemma query_guard_fields item :
  ZillizMethods.query_guard item = true ->
  (String.eqb (typeof (get_property item "id")) "number" ||
   String.eqb (typeof (get_property item "id")) "string") = true /\
  typeof (get_property item "content") = "string" /\
  typeof (get_property item "filePath") = "string" /\
  Array_isArray (get_property item "embedding") = true /\
  typeof (get_property item "sessionId") = "string" /\
  typeof (get_property item "lineNumber") = "number".
Proof.
  unfold ZillizMethods.query_guard. rewrite !andb_true_iff, !String.eqb_eq.
  tauto.
Qed.

Lemma chunks_guard_fields item :
  ZillizMethods.chunks_guard item = true ->
  (String.eqb (typeof (get_property item "id")) "number" ||
   String.eqb (typeof (get_property item "id")) "string") = true /\
  typeof (get_property item "content") = "string" /\
  typeof (get_property item "filePath") = "string" /\
  typeof (get_property item "sessionId") = "string" /\
  typeof (get_property item "lineNumber") = "number".
Proof.
  unfold ZillizMethods.chunks_guard. rewrite !andb_true_iff, !String.eqb_eq.
  tauto.
Qed.

Lemma query_guard_chunks_guard item :
  ZillizMethods.query_guard item = true -> ZillizMethods.chunks_guard item = true.
Proof.
  unfold ZillizMethods.query_guard, ZillizMethods.chunks_guard.
  rewrite !andb_true_iff. tauto.
Qed.

Section Zilliz.
Variable client : StoreClient.
Variable parseInt : string -> number.

(** X13. The type guards of [queryBySessionId] and [getAllChunks] are
    sound: whatever rows the store returns, every chunk the methods return
    has a number as [id] (an identifier given as a string having gone
    through [parseInt]), strings as [content], [filePath] and [sessionId]
    and a number as [lineNumber]; its [embedding] is an array for
    [queryBySessionId] and always the empty array for [getAllChunks]. *)
Theorem stored_chunks_typed (calls : list StoreCall) (s : string)
    (limit : option Z) :
  (forall chunks,
     fst (ZillizMethods.queryBySessionId client parseInt calls s) = Normal chunks ->
     Forall (fun c =>
       typeof (ZillizMethods.s_id c) = "number" /\
       typeof (ZillizMethods.s_content c) = "string" /\
       typeof (ZillizMethods.s_filePath c) = "string" /\
       Array_isArray (ZillizMethods.s_embedding c) = true /\
       typeof (ZillizMethods.s_sessionId c) = "string" /\
       typeof (ZillizMethods.s_lineNumber c) = "number") chunks) /\
  (forall chunks,
     fst (ZillizMethods.getAllChunks client parseInt calls s limit) = Normal chunks ->
     Forall (fun c =>
       typeof (ZillizMethods.s_id c) = "number" /\
       typeof (ZillizMethods.s_content c) = "string" /\
       typeof (ZillizMethods.s_filePath c) = "string" /\
       ZillizMethods.s_embedding c = JsArray [] /\
       typeof (ZillizMethods.s_sessionId c) = "string" /\
       typeof (ZillizMethods.s_lineNumber c) = "number") chunks).
Proof.
  split; intros chunks Hrun.
  - unfold ZillizMethods.queryBySessionId in Hrun. cbn [fst] in Hrun.
    destruct (query client calls _) as [res|]; [|done].
    destruct (data res) as [items|]; injection Hrun as <-; [|constructor].
    rewrite fold_push_queried. cbn [app].
    apply List.Forall_forall. intros c Hin.
    apply in_map_iff in Hin as (item & <- & Hitem).
    apply filter_In in Hitem as [_ Hguard].
    apply query_guard_fields in Hguard as (Hid & ? & ? & ? & ? & ?).
    cbn. by rewrite (numeric_id_number _ _ Hid).
  - unfold ZillizMethods.getAllChunks in Hrun. cbn [fst] in Hrun.
    destruct (query client calls _) as [res|]; [|done].
    destruct (data res) as [items|]; injection Hrun as <-; [|constructor].
    rewrite fold_push_chunk. cbn [app].
    apply List.Forall_forall. intros c Hin.
    apply in_map_iff in Hin as (item & <- & Hitem).
    apply filter_In in Hitem as [_ Hguard].
    apply chunks_guard_fields in Hguard as (Hid & ? & ? & ? & ?).
    cbn. by rewrite (numeric_id_number _ _ Hid).
Qed.

End Zilliz.

Lemma stored_chunks_typed_witness :
  Forall (fun c =>
     typeof (ZillizMethods.s_id c) = "number" /\
     typeof (ZillizMethods.s_content c) = "string" /\
     typeof (ZillizMethods.s_filePath c) = "string" /\
     ZillizMethods.s_embedding c = JsArray [] /\
     typeof (ZillizMethods.s_sessionId c) = "string" /\
     typeof (ZillizMethods.s_lineNumber c) = "number")
    [ZillizMethods.listed_chunk sample_parseInt
       (ZillizMethods.returned_row ZillizMethods.chunk_s1 (Num 11) (Num 1))].
Proof.
  apply (proj2 (stored_chunks_typed ZillizMethods.sample_client sample_parseInt
                  [] "s1" None)).
  vm_compute. reflexivity.
Defined.

Lemma evaluating_client_applies (stored : list JsValue) :
  ZillizMethods.applies_query_filter comparison_filter
    (ZillizMethods.evaluating_client stored).
Proof.
  intros calls req res rows row Hres Hdata Hrow.
  cbn [ZillizMethods.evaluating_client query] in Hres. injection Hres as <-.
  cbn [data] in Hdata. injection Hdata as <-.
  by apply filter_In in Hrow as [_ Hkeep].
Qed.

(** X14. [queryBySessionId] and [getAllChunks] send the store the filter
    text [sessionId == "s"], the identifier put between the quotes as it
    is, and do not compare the rows with the session themselves. The
    chunks they return all carry the session [s] when the store returns
    only rows that the filter text of the query selects, and that text
    selects only rows of the session [s]; in the language
    [comparison_filter] the latter holds for every identifier without
    double quote or backslash. For the identifier [closing_sessionId],
    which has a double quote, a store that evaluates the filter returns
    the chunks of the other sessions. *)
Theorem stored_chunks_session_scoped client parseInt calls (s : string)
    (limit : option Z) :
  let session_scoped :=
    (forall chunks c,
       fst (ZillizMethods.queryBySessionId client parseInt calls s)
         = Normal chunks ->
       In c chunks -> ZillizMethods.s_sessionId c = JsString s) /\
    (forall chunks c,
       fst (ZillizMethods.getAllChunks client parseInt calls s limit)
         = Normal chunks ->
       In c chunks -> ZillizMethods.s_sessionId c = JsString s) in
  (forall selects : FilterLanguage,
     ZillizMethods.applies_query_filter selects client ->
     filter_names_session selects s ->
     session_scoped) /\
  (ZillizMethods.applies_query_filter comparison_filter client ->
   plain s = true ->
   session_scoped) /\
  (ZillizMethods.applies_query_filter comparison_filter
     (ZillizMethods.evaluating_client ZillizMethods.sample_stored_rows) /\
   option_map (map ZillizMethods.s_sessionId)
     (match fst (ZillizMethods.getAllChunks
                   (ZillizMethods.evaluating_client ZillizMethods.sample_stored_rows)
                   parseInt calls closing_sessionId limit) with
      | Normal chunks => Some chunks
      | Throw _ => None
      end) = Some [JsString "s1"; JsString "s2"]).
Proof.
  intros session_scoped.
  assert (Hscoped : forall selects : FilterLanguage,
            ZillizMethods.applies_query_filter selects client ->
            filter_names_session selects s -> session_scoped).
  { intros selects Hstore Hnames. split; intros chunks c Hrun Hin.
    - unfold ZillizMethods.queryBySessionId in Hrun. cbn [fst] in Hrun.
      match type of Hrun with
      | match query client calls ?r with _ => _ end = _ => set (req := r) in *
      end.
      destruct (query client calls req) as [res|] eqn:Hres; [|done].
      destruct (data res) as [items|] eqn:Hdata; injection Hrun as <-; [|done].
      rewrite fold_push_queried in Hin. cbn [app] in Hin.
      apply in_map_iff in Hin as (item & <- & Hitem).
      apply filter_In in Hitem as [Hitem _].
      cbn [ZillizMethods.s_sessionId ZillizMethods.queried_chunk].
      apply Hnames. by apply (Hstore calls req res items item).
    - unfold ZillizMethods.getAllChunks in Hrun. cbn [fst] in Hrun.
      match type of Hrun with
      | match query client calls ?r with _ => _ end = _ => set (req := r) in *
      end.
      destruct (query client calls req) as [res|] eqn:Hres; [|done].
      destruct (data res) as [items|] eqn:Hdata; injection Hrun as <-; [|done].
      rewrite fold_push_chunk in Hin. cbn [app] in Hin.
      apply in_map_iff in Hin as (item & <- & Hitem).
      apply filter_In in Hitem as [Hitem _].
      cbn [ZillizMethods.s_sessionId ZillizMethods.listed_chunk].
      apply Hnames. by apply (Hstore calls req res items item). }
  split; [exact Hscoped|]. split.
  - intros Hstore Hplain.
    exact (Hscoped comparison_filter Hstore
             (SearchClaims.plain_names_session s Hplain)).
  - split; [apply evaluating_client_applies|].
    unfold ZillizMethods.getAllChunks. cbn [fst].
    cbn [ZillizMethods.evaluating_client query data q_filter].
    rewrite fold_push_chunk. vm_compute. reflexivity.
Qed.

Lemma stored_chunks_session_scoped_witness :
  ZillizMethods.applies_query_filter comparison_filter
    (ZillizMethods.evaluating_client ZillizMethods.sample_stored_rows) /\
  plain "s2" = true /\
  (forall chunks c,
     fst (ZillizMethods.getAllChunks
            (ZillizMethods.evaluating_client ZillizMethods.sample_stored_rows)
            sample_parseInt [] "s2" None) = Normal chunks ->
     In c chunks -> ZillizMethods.s_sessionId c = JsString "s2").
Proof.
  split; [apply evaluating_client_applies|]. split; [reflexivity|].
  apply (proj1 (proj2 (stored_chunks_session_scoped
                         (ZillizMethods.evaluating_client ZillizMethods.sample_stored_rows)
                         sample_parseInt [] "s2" None))
           (evaluating_client_applies ZillizMethods.sample_stored_rows) eq_refl).
Defined.

Lemma filter_sublist {A} (P Q : A -> bool) (l : list A) :
  (forall x, P x = true -> Q x = true) ->
  sublist (List.filter P l) (List.filter Q l).
Proof.
  intros HPQ. induction l as [|x l IH]; simpl; [done|].
  destruct (P x) eqn:HP.
  - rewrite (HPQ x HP). by apply sublist_skip.
  - destruct (Q x); [by apply sublist_cons|done].
Qed.

(** X15. [getAllChunks] accepts every row that [queryBySessionId]
    accepts: when the store answers the queries of a session with the same
    rows, the chunks of [queryBySessionId], their embeddings emptied, are a
    subsequence of the chunks of [getAllChunks]. *)
Theorem getAllChunks_keeps_queried_rows client parseInt calls calls' (s : string)
    (limit : option Z) (items : list JsValue) :
  (forall history req,
     q_filter req = session_filter s ->
     query client history req = Normal {| data := Some items |}) ->
  exists queried listed,
    fst (ZillizMethods.queryBySessionId client parseInt calls s) = Normal queried /\
    fst (ZillizMethods.getAllChunks client parseInt calls' s limit) = Normal listed /\
    sublist
      (map (fun c =>
              {| ZillizMethods.s_id := ZillizMethods.s_id c;
                 ZillizMethods.s_content := ZillizMethods.s_content c;
                 ZillizMethods.s_filePath := ZillizMethods.s_filePath c;
                 ZillizMethods.s_embedding := JsArray [];
                 ZillizMethods.s_sessionId := ZillizMethods.s_sessionId c;
                 ZillizMethods.s_lineNumber := ZillizMethods.s_lineNumber c |})
           queried)
      listed.
Proof.
  intros Hstore.
  unfold ZillizMethods.queryBySessionId, ZillizMethods.getAllChunks.
  cbn [fst]. rewrite !Hstore by done. cbn [data].
  eexists; eexists. split; [done|]. split; [done|].
  rewrite fold_push_queried, fold_push_chunk. cbn [app].
  rewrite map_map.
  change (map _ (List.filter ZillizMethods.query_guard items))
    with (ZillizMethods.listed_chunk parseInt <$>
            List.filter ZillizMethods.query_guard items).
  change (map (ZillizMethods.listed_chunk parseInt) ?l)
    with (ZillizMethods.listed_chunk parseInt <$> l).
  apply fmap_sublist, filter_sublist, query_guard_chunks_guard.
Qed.

Lemma getAllChunks_keeps_queried_rows_witness :
  exists queried listed,
    fst (ZillizMethods.queryBySessionId
           (ZillizMethods.answering_client sample_rows)
           sample_parseInt [] "s1") = Normal queried /\
    fst (ZillizMethods.getAllChunks
           (ZillizMethods.answering_client sample_rows)
           sample_parseInt [] "s1" None) = Normal listed /\
    sublist
      (map (fun c =>
              {| ZillizMethods.s_id := ZillizMethods.s_id c;
                 ZillizMethods.s_content := ZillizMethods.s_content c;
                 ZillizMethods.s_filePath := ZillizMethods.s_filePath c;
                 ZillizMethods.s_embedding := JsArray [];
                 ZillizMethods.s_sessionId := ZillizMethods.s_sessionId c;
                 ZillizMethods.s_lineNumber := ZillizMethods.s_lineNumber c |})
           queried)
      listed.
Proof.
  apply (getAllChunks_keeps_queried_rows
           (ZillizMethods.answering_client sample_rows) sample_parseInt
           [] [] "s1" None sample_rows).
  reflexivity.
Defined.

Lemma returned_row_hit_guard chunk row_id score :
  ZillizClient.hit_guard (ZillizMethods.returned_row chunk row_id score) = true.
Proof. reflexivity. Qed.

Lemma returned_row_hit_of parseInt chunk row_id score :
  ZillizClient.hit_of parseInt (ZillizMethods.returned_row chunk row_id score) =
  {| ZillizClient.id := JsNumber row_id;
     ZillizClient.content := JsString (ZillizMethods.content chunk);
     ZillizClient.filePath := JsString (ZillizMethods.filePath chunk);
     ZillizClient.sessionId := JsString (ZillizMethods.sessionId chunk);
     ZillizClient.score := JsNumber score;
     ZillizClient.lineNumber := JsNumber (ZillizMethods.lineNumber chunk) |}.
Proof. reflexivity. Qed.

Lemma returned_row_chunks_guard chunk row_id score :
  ZillizMethods.chunks_guard (ZillizMethods.returned_row chunk row_id score) = true.
Proof. reflexivity. Qed.

Lemma returned_row_query_guard chunk row_id score :
  ZillizMethods.query_guard (ZillizMethods.returned_row chunk row_id score) = false.
Proof. reflexivity. Qed.

Lemma returned_row_listed_chunk parseInt chunk row_id score :
  ZillizMethods.listed_chunk parseInt
    (ZillizMethods.returned_row chunk row_id score) =
  {| ZillizMethods.s_id := JsNumber row_id;
     ZillizMethods.s_content := JsString (ZillizMethods.content chunk);
     ZillizMethods.s_filePath := JsString (ZillizMethods.filePath chunk);
     ZillizMethods.s_embedding := JsArray [];
     ZillizMethods.s_sessionId := JsString (ZillizMethods.sessionId chunk);
     ZillizMethods.s_lineNumber := JsNumber (ZillizMethods.lineNumber chunk) |}.
Proof. reflexivity. Qed.

(** X16. Rows written by [insertVectors] are found again by
    [searchVectors]: when the store answers the search of a session with
    rows that hold the properties [insertVectors] writes, an identifier and
    a score, every row passes the guard, and the hits are, in order, the
    identifier, content, file path, session, score and line number of the
    rows. *)
Theorem insertVectors_rows_searchable
    (client_search : SearchReq -> Completion SearchResults)
    (parseInt : string -> number) (vector : list number) (s : string)
    (limit : option Z)
    (stored : list (ZillizMethods.CodeChunk * number * number)) :
  (forall req,
     filter req = session_filter s ->
     client_search req =
       Normal {| results := Some [JsArray (ZillizMethods.stored_rows stored)] |}) ->
  ZillizClient.searchVectors client_search parseInt vector s limit =
  Normal
    (map (fun '(chunk, row_id, score) =>
            {| ZillizClient.id := JsNumber row_id;
               ZillizClient.content := JsString (ZillizMethods.content chunk);
               ZillizClient.filePath := JsString (ZillizMethods.filePath chunk);
               ZillizClient.sessionId := JsString (ZillizMethods.sessionId chunk);
               ZillizClient.score := JsNumber score;
               ZillizClient.lineNumber :=
                 JsNumber (ZillizMethods.lineNumber chunk) |})
         stored).
Proof.
  intros Hstore. unfold ZillizClient.searchVectors.
  rewrite Hstore by done. cbn [results].
  rewrite SearchClaims.zilliz_push_hits. cbn [app]. f_equal. clear Hstore.
  induction stored as [|[[chunk row_id] score] stored IH]; [done|].
  cbn [ZillizMethods.stored_rows map List.filter].
  rewrite returned_row_hit_guard. cbn [map].
  rewrite returned_row_hit_of. f_equal. apply IH.
Qed.

Lemma insertVectors_rows_searchable_witness :
  ZillizClient.searchVectors
    (ZillizMethods.answering_search
       (ZillizMethods.stored_rows
          [(ZillizMethods.chunk_s1, Num 11, Num 1)]))
    sample_parseInt [Num 1] "s1" None =
  Normal
    [{| ZillizClient.id := JsNumber (Num 11);
        ZillizClient.content := JsString "def f(): pass";
        ZillizClient.filePath := JsString "a.py";
        ZillizClient.sessionId := JsString "s1";
        ZillizClient.score := JsNumber (Num 1);
        ZillizClient.lineNumber := JsNumber (Num 1) |}].
Proof.
  apply (insertVectors_rows_searchable
           (ZillizMethods.answering_search
              (ZillizMethods.stored_rows
                 [(ZillizMethods.chunk_s1, Num 11, Num 1)]))
           sample_parseInt [Num 1] "s1" None
           [(ZillizMethods.chunk_s1, Num 11, Num 1)]).
  reflexivity.
Defined.

(** X17. Rows that hold what [insertVectors] writes (the embedding under
    [vector]), an identifier and a score are all returned by
    [getAllChunks], with an empty embedding, and all dropped by
    [queryBySessionId], whose guard asks for an [embedding] property. *)
Theorem insertVectors_rows_queried (client : StoreClient)
    (parseInt : string -> number) (calls : list StoreCall) (s : string)
    (limit : option Z)
    (stored : list (ZillizMethods.CodeChunk * number * number)) :
  (forall req,
     q_filter req = session_filter s ->
     query client calls req =
       Normal {| data := Some (ZillizMethods.stored_rows stored) |}) ->
  fst (ZillizMethods.getAllChunks client parseInt calls s limit) =
    Normal
      (map (fun '(chunk, row_id, _) =>
              {| ZillizMethods.s_id := JsNumber row_id;
                 ZillizMethods.s_content := JsString (ZillizMethods.content chunk);
                 ZillizMethods.s_filePath :=
                   JsString (ZillizMethods.filePath chunk);
                 ZillizMethods.s_embedding := JsArray [];
                 ZillizMethods.s_sessionId :=
                   JsString (ZillizMethods.sessionId chunk);
                 ZillizMethods.s_lineNumber :=
                   JsNumber (ZillizMethods.lineNumber chunk) |})
           stored) /\
  fst (ZillizMethods.queryBySessionId client parseInt calls s) = Normal [].
Proof.
  intros Hstore.
  unfold ZillizMethods.getAllChunks, ZillizMethods.queryBySessionId.
  cbn [fst]. rewrite !Hstore by done. cbn [data].
  rewrite fold_push_chunk, fold_push_queried. cbn [app]. clear Hstore.
  split; f_equal.
  - induction stored as [|[[chunk row_id] score] stored IH]; [done|].
    cbn [ZillizMethods.stored_rows map List.filter].
    rewrite returned_row_chunks_guard. cbn [map].
    rewrite returned_row_listed_chunk. f_equal. apply IH.
  - induction stored as [|[[chunk row_id] score] stored IH]; [done|].
    cbn [ZillizMethods.stored_rows map List.filter].
    rewrite returned_row_query_guard. apply IH.
Qed.

Lemma insertVectors_rows_queried_witness :
  fst (ZillizMethods.queryBySessionId
         (ZillizMethods.answering_client
            (ZillizMethods.stored_rows
               [(ZillizMethods.chunk_s1, Num 11, Num 1)]))
         sample_parseInt [] "s1") = Normal [].
Proof.
  apply (insertVectors_rows_queried
           (ZillizMethods.answering_client
              (ZillizMethods.stored_rows
                 [(ZillizMethods.chunk_s1, Num 11, Num 1)]))
           sample_parseInt [] "s1" None
           [(ZillizMethods.chunk_s1, Num 11, Num 1)]).
  reflexivity.
Defined.

(** X18. [createCollection] on a store that keeps the collections it
    created: after a run that returned, a second run for the same name
    makes, together with the first, at most one creation request; when the
    first run created the collection, the second only checks that it
    exists. *)
Theorem createCollection_creates_once (client : StoreClient)
    (calls : list StoreCall) (name : string) (dimension dimension' : number) :
  remembers_collections client ->
  let first := ZillizMethods.createCollection client calls name dimension in
  let second :=
    ZillizMethods.createCollection client (calls ++ snd first) name dimension' in
  fst first = Normal tt ->
  length (List.filter is_createCollection (snd first ++ snd second)) <= 1 /\
  (existsb is_createCollection (snd first) = true ->
   second = (Normal tt, [HasCollection name])).
Proof.
  intros Hstore first second Hfirst. subst first second.
  unfold ZillizMethods.createCollection in *.
  destruct (hasCollection client calls name) as [[|]|] eqn:Hhas;
    cbn [negb] in *; [| |done].
  - cbn [snd fst] in *. split; [|done].
    destruct (hasCollection client (calls ++ [HasCollection name]) name)
      as [[|]|]; cbn [negb snd]; [cbn; lia| |cbn; lia].
    destruct (createCollection_ client _ _); cbn; lia.
  - destruct (createCollection_ client (calls ++ [HasCollection name])
                (ZillizMethods.collection_request name dimension))
      as [[]|] eqn:Hcreate; [|done].
    cbn [snd fst] in *.
    pose proof (Hstore _ _ [] Hcreate) as Hseen. cbn in Hseen.
    rewrite <- app_assoc in Hseen. cbn [app] in Hseen.
    rewrite Hseen. cbn [negb snd]. split; [cbn; lia|done].
Qed.

Lemma sample_client_remembers :
  remembers_collections ZillizMethods.sample_client.
Proof.
  intros before req after _. cbn [hasCollection ZillizMethods.sample_client].
  f_equal. rewrite existsb_app. cbn. apply orb_true_r.
Qed.

Lemma createCollection_creates_once_witness :
  ZillizMethods.createCollection ZillizMethods.sample_client
    ([] ++ snd (ZillizMethods.createCollection ZillizMethods.sample_client
                  [] "code_embeddings" (Num 1024)))
    "code_embeddings" (Num 1024)
  = (Normal tt, [HasCollection "code_embeddings"]).
Proof.
  apply (createCollection_creates_once ZillizMethods.sample_client []
           "code_embeddings" (Num 1024) (Num 1024) sample_client_remembers);
    reflexivity.
Defined.

(** X22. When the first element of [results] is not an array,
    [ZillizClient.searchVectors] returns no hit, whereas [searchVectors] of
    [lib/milvus.ts] returns no hit only if the element is falsy and
    otherwise fails with [Failed to search session data: ...], the call of
    [forEach] on it being a type error. *)
Theorem searchVectors_non_array_result
    (client_search : SearchReq -> Completion SearchResults)
    (parseInt : string -> number) (vector : list number) (s : string)
    (limit : option Z) (first : JsValue) (rest : list JsValue) :
  Array_isArray first = false ->
  (forall req,
     filter req = session_filter s ->
     client_search req = Normal {| results := Some (first :: rest) |}) ->
  ZillizClient.searchVectors client_search parseInt vector s limit = Normal [] /\
  Milvus.searchVectors client_search vector s limit =
    if truthy first
    then Throw (JsError ("Failed to search session data: " +:+
                         "searchResult.results[0].forEach is not a function"))
    else Normal [].
Proof.
  intros Hfirst Hstore.
  unfold ZillizClient.searchVectors, Milvus.searchVectors.
  rewrite !Hstore by done. cbn [results].
  by destruct first as [| | | | | |].
Qed.

Lemma searchVectors_non_array_result_witness :
  ZillizClient.searchVectors
    (fun _ => Normal {| results := Some [JsString "busy"] |})
    sample_parseInt [Num 1] "s1" None = Normal [] /\
  Milvus.searchVectors
    (fun _ => Normal {| results := Some [JsString "busy"] |})
    [Num 1] "s1" None =
  Throw (JsError ("Failed to search session data: " +:+
                  "searchResult.results[0].forEach is not a function")).
Proof.
  apply (searchVectors_non_array_result
           (fun _ => Normal {| results := Some [JsString "busy"] |})
           sample_parseInt [Num 1] "s1" None (JsString "busy") []);
    reflexivity.
Defined.


Section Milvus.
Variable process_env : MilvusMethods.ProcessEnv.
Variable parseInt : string -> number.
Variable client : MilvusMethods.ClientConfig -> StoreClient.

Lemma getMilvusClient_cases (calls : list StoreCall) :
  let store := client (MilvusMethods.client_config process_env parseInt) in
  let run := MilvusMethods.getMilvusClient process_env parseInt client calls in
  (run = (Normal (MilvusMethods.client_config process_env parseInt),
          [HasCollection MilvusMethods.COLLECTION_NAME]) /\
   hasCollection store calls MilvusMethods.COLLECTION_NAME = Normal true) \/
  (run = (Normal (MilvusMethods.client_config process_env parseInt),
          [HasCollection MilvusMethods.COLLECTION_NAME;
           CreateCollection MilvusMethods.collection_request]) /\
   createCollection_ store (calls ++ [HasCollection MilvusMethods.COLLECTION_NAME])
     MilvusMethods.collection_request = Normal tt) \/
  (exists error,
     run = (Throw error, [HasCollection MilvusMethods.COLLECTION_NAME]) /\
     hasCollection store calls MilvusMethods.COLLECTION_NAME = Throw error) \/
  (exists error,
     run = (Throw error,
            [HasCollection MilvusMethods.COLLECTION_NAME;
             CreateCollection MilvusMethods.collection_request]) /\
     createCollection_ store (calls ++ [HasCollection MilvusMethods.COLLECTION_NAME])
       MilvusMethods.collection_request = Throw error).
Proof.
  cbv zeta. unfold MilvusMethods.getMilvusClient.
  destruct (hasCollection _ calls _) as [[|]|error]; cbn [negb].
  - by left.
  - destruct (createCollection_ _ _ _) as [[]|error].
    + right; left. done.
    + right; right; right. by exists error.
  - right; right; left. by exists error.
Qed.

(** X19. [queryBySessionId] of [lib/milvus.ts] checks the collection
    before every query. When [getMilvusClient] throws, the error is
    rethrown as it is and no query is sent; otherwise the query is the last
    call, on [code_embeddings] with the filter of the session: its rows are
    returned, none when [data] is absent, and its failure is rethrown as
    [Failed to query session data: ...]. *)
Theorem milvus_queryBySessionId_checks_first (calls : list StoreCall)
    (s : string) :
  let check := MilvusMethods.getMilvusClient process_env parseInt client calls in
  let run := MilvusMethods.queryBySessionId process_env parseInt client calls s in
  (forall error,
     fst check = Throw error ->
     run = (Throw error, snd check) /\
     List.filter is_query (snd run) = []) /\
  (forall config,
     fst check = Normal config ->
     exists req,
       snd run = snd check ++ [Query req] /\
       q_collection_name req = MilvusMethods.COLLECTION_NAME /\
       q_filter req = session_filter s /\
       match query (client config) (calls ++ snd check) req with
       | Normal res => fst run = Normal (default [] (data res))
       | Throw cause =>
           fst run =
             Throw (JsError ("Failed to query session data: " +:+
                             error_text cause))
       end).
Proof.
  cbv zeta. unfold MilvusMethods.queryBySessionId.
  destruct (getMilvusClient_cases calls)
    as [[-> _]|[[-> _]|[(error & -> & _)|(error & -> & _)]]];
    cbn [fst snd]; split; try done.
  - intros config [= <-]. eexists. split; [done|]. split; [done|].
    split; [done|]. by destruct (query _ _ _).
  - intros config [= <-]. eexists. split; [done|]. split; [done|].
    split; [done|]. by destruct (query _ _ _).
  - by intros ? [= <-].
  - by intros ? [= <-].
Qed.

Lemma milvus_queryBySessionId_creations (calls : list StoreCall) (s : string) :
  length (List.filter is_createCollection
            (snd (MilvusMethods.queryBySessionId process_env parseInt client
                    calls s))) <= 1.
Proof.
  unfold MilvusMethods.queryBySessionId.
  destruct (getMilvusClient_cases calls)
    as [[-> _]|[[-> _]|[(error & -> & _)|(error & -> & _)]]];
    cbn; lia.
Qed.

(** X20. On a store that keeps the collections it created, two successive
    calls of [queryBySessionId] create the collection at most once: when
    the first call created it, the second makes no creation request. *)
Theorem getMilvusClient_creates_once (calls : list StoreCall) (s s' : string)
    (config : MilvusMethods.ClientConfig) :
  remembers_collections
    (client (MilvusMethods.client_config process_env parseInt)) ->
  fst (MilvusMethods.getMilvusClient process_env parseInt client calls)
    = Normal config ->
  let first := MilvusMethods.queryBySessionId process_env parseInt client calls s in
  let second :=
    MilvusMethods.queryBySessionId process_env parseInt client
      (calls ++ snd first) s' in
  length (List.filter is_createCollection (snd first ++ snd second)) <= 1 /\
  (existsb is_createCollection (snd first) = true ->
   List.filter is_createCollection (snd second) = []).
Proof.
  intros Hstore Hcheck first second.
  pose proof (milvus_queryBySessionId_creations (calls ++ snd first) s') as Hsecond.
  fold second in Hsecond.
  assert (existsb is_createCollection (snd first) = true ->
          List.filter is_createCollection (snd second) = []) as Hcreated.
  { destruct (getMilvusClient_cases calls)
      as [[Hrun _]|[[Hrun Hcreate]|[(error & Hrun & _)|(error & Hrun & _)]]];
      rewrite Hrun in Hcheck; cbn [fst] in Hcheck; try done.
    - subst first. unfold MilvusMethods.queryBySessionId. by rewrite Hrun.
    - set (req := {| q_collection_name := MilvusMethods.COLLECTION_NAME;
                     q_filter := session_filter s;
                     q_output_fields :=
                       ["content"; "file_path"; "embedding"; "sessionId"];
                     q_limit := None |}).
      assert (snd first =
              [HasCollection MilvusMethods.COLLECTION_NAME;
               CreateCollection MilvusMethods.collection_request;
               Query req]) as Hcalls.
      { subst first. unfold MilvusMethods.queryBySessionId. by rewrite Hrun. }
      intros _. subst second. rewrite Hcalls.
      pose proof (Hstore _ _ [Query req] Hcreate) as Hseen.
      cbn [cc_collection_name MilvusMethods.collection_request] in Hseen.
      rewrite <- app_assoc in Hseen. cbn [app] in Hseen.
      unfold MilvusMethods.queryBySessionId, MilvusMethods.getMilvusClient.
      by rewrite Hseen. }
  split; [|done].
  rewrite List.filter_app, length_app.
  destruct (existsb is_createCollection (snd first)) eqn:Hfirst.
  - rewrite Hcreated by done. cbn [length].
    pose proof (milvus_queryBySessionId_creations calls s). fold first in H. lia.
  - assert (List.filter is_createCollection (snd first) = []) as ->; [|cbn; lia].
    clear -Hfirst. induction (snd first) as [|c l IH]; [done|].
    cbn in *. destruct (is_createCollection c); [done|]. by apply IH.
Qed.

(** X21. The configuration [getMilvusClient] connects with never has an
    empty address nor an empty token, and always has [ssl] on: a host that
    is unset or empty becomes [localhost], a port that is unset or empty
    becomes 19530. *)
Theorem client_config_defaults :
  let config := MilvusMethods.client_config process_env parseInt in
  MilvusMethods.address config <> "" /\
  MilvusMethods.token config <> Some "" /\
  MilvusMethods.ssl config = true /\
  (MilvusMethods.MILVUS_HOST process_env = None \/
   MilvusMethods.MILVUS_HOST process_env = Some "" ->
   MilvusMethods.address config = "localhost") /\
  (MilvusMethods.MILVUS_PORT process_env = None \/
   MilvusMethods.MILVUS_PORT process_env = Some "" ->
   MilvusMethods.port config = Num 19530).
Proof.
  cbv zeta. unfold MilvusMethods.client_config, MilvusMethods.env_value.
  cbn [MilvusMethods.address MilvusMethods.token MilvusMethods.ssl
       MilvusMethods.port].
  repeat split.
  - destruct (MilvusMethods.MILVUS_HOST process_env) as [h|]; [|done].
    destruct (String.eqb h "") eqn:Hh; [done|].
    cbn. intros ->. done.
  - destruct (MilvusMethods.MILVUS_TOKEN process_env) as [t|]; [|done].
    destruct (String.eqb t "") eqn:Ht; [done|].
    intros [= ->]. done.
  - by intros [->| ->].
  - by intros [->| ->].
Qed.

End Milvus.

Lemma getMilvusClient_creates_once_witness :
  List.filter is_createCollection
    (snd (MilvusMethods.queryBySessionId
            (MilvusMethods.mkProcessEnv None None None) sample_parseInt
            (fun _ => ZillizMethods.sample_client)
            ([] ++ snd (MilvusMethods.queryBySessionId
                          (MilvusMethods.mkProcessEnv None None None)
                          sample_parseInt
                          (fun _ => ZillizMethods.sample_client) [] "s1"))
            "s2")) = [].
Proof.
  apply (getMilvusClient_creates_once
           (MilvusMethods.mkProcessEnv None None None) sample_parseInt
           (fun _ => ZillizMethods.sample_client) [] "s1" "s2"
           (MilvusMethods.client_config
              (MilvusMethods.mkProcessEnv None None None) sample_parseInt)
           sample_client_remembers);
    reflexivity.
Defined.


Lemma milvus_queryBySessionId_checks_first_witness :
  MilvusMethods.queryBySessionId (MilvusMethods.mkProcessEnv None None None)
    sample_parseInt (fun _ => ZillizMethods.failing_client) [] "s1" =
    (Throw (JsError "connection refused"),
     snd (MilvusMethods.getMilvusClient (MilvusMethods.mkProcessEnv None None None)
            sample_parseInt (fun _ => ZillizMethods.failing_client) [])) /\
  List.filter is_query
    (snd (MilvusMethods.queryBySessionId
            (MilvusMethods.mkProcessEnv None None None)
            sample_parseInt (fun _ => ZillizMethods.failing_client) [] "s1")) = [].
Proof.
  apply (proj1 (milvus_queryBySessionId_checks_first
                  (MilvusMethods.mkProcessEnv None None None)
                  sample_parseInt (fun _ => ZillizMethods.failing_client)
                  [] "s1")).
  reflexivity.
Defined.

Lemma client_config_defaults_witness :
  MilvusMethods.port
    (MilvusMethods.client_config
       (MilvusMethods.mkProcessEnv (Some "") (Some "") (Some ""))
       sample_parseInt) = Num 19530.
Proof.
  destruct (client_config_defaults
              (MilvusMethods.mkProcessEnv (Some "") (Some "") (Some ""))
              sample_parseInt) as (_ & _ & _ & _ & Hport).
  apply Hport. by right.
Defined.

Lemma zilliz_hit_guard_fields item :
  ZillizClient.hit_guard item = true ->
  (String.eqb (typeof (get_property item "id")) "number" ||
   String.eqb (typeof (get_property item "id")) "string") = true /\
  typeof (get_property item "content") = "string" /\
  typeof (get_property item "filePath") = "string" /\
  typeof (get_property item "sessionId") = "string" /\
  typeof (get_property item "score") = "number" /\
  typeof (get_property item "lineNumber") = "number".
Proof.
  unfold ZillizClient.hit_guard. rewrite !andb_true_iff, !String.eqb_eq.
  tauto.
Qed.

Lemma milvus_hit_guard_fields hit :
  Milvus.hit_guard hit = true ->
  typeof (get_property hit "id") = "number" /\
  typeof (get_property hit "content") = "string" /\
  typeof (get_property hit "file_path") = "string" /\
  Array_isArray (get_property hit "embedding") = true /\
  typeof (get_property hit "sessionId") = "string".
Proof.
  unfold Milvus.hit_guard. rewrite !andb_true_iff, !String.eqb_eq.
  tauto.
Qed.

(** X23. The type guards of the two [searchVectors] are sound: whatever
    the store answers, a hit of [ZillizClient.searchVectors] has a number
    as [id], [score] and [lineNumber] and strings as [content], [filePath]
    and [sessionId]; a hit of [searchVectors] of [lib/milvus.ts] has a
    number as [id], strings as [content], [file_path] and [sessionId] and
    an array as [embedding] (its [similarity] is not checked). *)
Theorem searchVectors_hits_typed
    (client_search : SearchReq -> Completion SearchResults)
    (parseInt : string -> number) (vector : list number) (s : string)
    (limit : option Z) :
  (forall hits,
     ZillizClient.searchVectors client_search parseInt vector s limit
       = Normal hits ->
     Forall (fun hit =>
       typeof (ZillizClient.id hit) = "number" /\
       typeof (ZillizClient.content hit) = "string" /\
       typeof (ZillizClient.filePath hit) = "string" /\
       typeof (ZillizClient.sessionId hit) = "string" /\
       typeof (ZillizClient.score hit) = "number" /\
       typeof (ZillizClient.lineNumber hit) = "number") hits) /\
  (forall hits,
     Milvus.searchVectors client_search vector s limit = Normal hits ->
     Forall (fun hit =>
       typeof (Milvus.id hit) = "number" /\
       typeof (Milvus.content hit) = "string" /\
       typeof (Milvus.file_path hit) = "string" /\
       Array_isArray (Milvus.embedding hit) = true /\
       typeof (Milvus.sessionId hit) = "string") hits).
Proof.
  split; intros hits Hsearch; apply List.Forall_forall; intros hit Hin.
  - destruct (SearchClaims.zilliz_hits_from_rows _ _ _ _ _ _ _ Hsearch Hin)
      as (req & res & rows & rest & row & _ & _ & _ & _ & Hguard & ->).
    apply zilliz_hit_guard_fields in Hguard as (Hid & ? & ? & ? & ? & ?).
    cbn [ZillizClient.id ZillizClient.content ZillizClient.filePath
         ZillizClient.sessionId ZillizClient.score ZillizClient.lineNumber
         ZillizClient.hit_of].
    repeat split; try done.
    by destruct (get_property row "id") as [| | | | | |].
  - destruct (SearchClaims.milvus_hits_from_rows _ _ _ _ _ _ Hsearch Hin)
      as (req & res & rows & rest & row & _ & _ & _ & _ & Hguard & ->).
    by apply milvus_hit_guard_fields in Hguard.
Qed.

Lemma searchVectors_hits_typed_witness :
  Forall (fun hit =>
       typeof (ZillizClient.id hit) = "number" /\
       typeof (ZillizClient.content hit) = "string" /\
       typeof (ZillizClient.filePath hit) = "string" /\
       typeof (ZillizClient.sessionId hit) = "string" /\
       typeof (ZillizClient.score hit) = "number" /\
       typeof (ZillizClient.lineNumber hit) = "number")
    [ZillizClient.hit_of sample_parseInt (stored_row 1 "def f(): pass" "a.py" "s1")].
Proof.
  apply (proj1 (searchVectors_hits_typed filtering_store sample_parseInt
                  [Num 1] "s1" None)).
  vm_compute. reflexivity.
Defined.

End GatewayExtras.

(** * Properties of the client of the routes *)

Module StreamExtras.
Import BuildGuideStream.

Lemma indexOf_blank_line_bound (buffer : text) (i : nat) :
  indexOf_blank_line buffer = Some i -> i + 2 <= length buffer.
Proof.
  revert i. induction buffer as [|a rest IH]; intros i Hi; [done|].
  cbn [indexOf_blank_line] in Hi.
  destruct (Ascii.eqb a newline && _) eqn:Hhere.
  - injection Hi as <-. destruct rest; [|cbn; lia].
    by rewrite andb_false_r in Hhere.
  - destruct (indexOf_blank_line rest) as [j|]; [|done].
    injection Hi as <-. specialize (IH j eq_refl). cbn. lia.
Qed.

Lemma indexOf_blank_line_app (buffer more : text) (i : nat) :
  indexOf_blank_line buffer = Some i ->
  indexOf_blank_line (buffer ++ more) = Some i.
Proof.
  revert i. induction buffer as [|a rest IH]; intros i Hi; [done|].
  cbn [indexOf_blank_line app] in *.
  destruct rest as [|b rest].
  - rewrite andb_false_r in Hi. done.
  - cbn [app]. destruct (Ascii.eqb a newline && Ascii.eqb b newline); [done|].
    destruct (indexOf_blank_line (b :: rest)) as [j|]; [|done].
    change (b :: rest ++ more) with ((b :: rest) ++ more).
    by rewrite (IH j eq_refl).
Qed.

Lemma indexOf_blank_line_None_app (buffer more : text) :
  indexOf_blank_line buffer = None ->
  indexOf_blank_line more = None ->
  head more <> Some newline ->
  indexOf_blank_line (buffer ++ more) = None.
Proof.
  intros Hbuffer Hmore Hhead.
  induction buffer as [|a rest IH]; [done|].
  cbn [indexOf_blank_line app] in *.
  destruct (Ascii.eqb a newline &&
            match rest with b :: _ => Ascii.eqb b newline | [] => false end)
    eqn:Hhere; [done|].
  destruct (indexOf_blank_line rest) as [j|]; [done|].
  rewrite IH by done.
  destruct rest as [|b rest]; cbn [app]; [|by rewrite Hhere].
  destruct more as [|c more]; [by rewrite andb_false_r|].
  destruct (Ascii.eqb_spec c newline) as [->|_]; [done|].
  by rewrite andb_false_r.
Qed.

Lemma indexOf_blank_line_here (line rest : text) :
  newline ∉ line ->
  indexOf_blank_line (line ++ newline :: newline :: rest) = Some (length line).
Proof.
  induction line as [|a line IH]; intros Hline; [done|].
  apply not_elem_of_cons in Hline as [Ha Hline].
  cbn [indexOf_blank_line app length].
  destruct (Ascii.eqb_spec a newline) as [->|_]; [done|].
  cbn [andb]. by rewrite IH.
Qed.

Lemma split_lines_one (line : text) :
  newline ∉ line -> split_lines line = [line].
Proof.
  induction line as [|a line IH]; intros Hline; [done|].
  apply not_elem_of_cons in Hline as [Ha Hline].
  cbn [split_lines].
  destruct (Ascii.eqb_spec a newline) as [->|_]; [done|].
  by rewrite IH.
Qed.

Section Facts.
Variable Parsed : Type.
Variable JSON_parse : text -> Completion Parsed.
Variable trim : text -> text.


Lemma process_events_fuel (fuel fuel' : nat) (buffer : text) r :
  BuildGuideStream.process_events Parsed JSON_parse trim fuel buffer = Some r ->
  fuel <= fuel' ->
  BuildGuideStream.process_events Parsed JSON_parse trim fuel' buffer = Some r.
Proof.
  revert fuel' buffer r.
  induction fuel as [|fuel IH]; intros fuel' buffer r Hrun Hle; [done|].
  destruct fuel' as [|fuel']; [lia|].
  cbn [BuildGuideStream.process_events] in *.
  destruct (indexOf_blank_line buffer) as [i|]; [|done].
  destruct (BuildGuideStream.process_events Parsed JSON_parse trim fuel _) as [[later rest]|] eqn:Hrest; [|done].
  by rewrite (IH fuel' _ _ Hrest) by lia.
Qed.

Lemma process_events_total (fuel : nat) (buffer : text) :
  length buffer < fuel ->
  exists events rest,
    BuildGuideStream.process_events Parsed JSON_parse trim fuel buffer = Some (events, rest) /\
    indexOf_blank_line rest = None.
Proof.
  revert buffer. induction fuel as [|fuel IH]; intros buffer Hlen; [lia|].
  cbn [BuildGuideStream.process_events].
  destruct (indexOf_blank_line buffer) as [i|] eqn:Hi.
  - apply indexOf_blank_line_bound in Hi.
    destruct (IH (drop (i + 2) buffer)) as (later & rest & -> & Hrest).
    { rewrite length_drop. lia. }
    by eexists; eexists.
  - by eexists; eexists.
Qed.

Lemma process_events_app (fuel1 fuel2 fuel : nat) (buffer more : text)
    events1 rest1 events2 rest2 :
  BuildGuideStream.process_events Parsed JSON_parse trim fuel1 buffer = Some (events1, rest1) ->
  BuildGuideStream.process_events Parsed JSON_parse trim fuel2 (rest1 ++ more) = Some (events2, rest2) ->
  length (buffer ++ more) < fuel ->
  BuildGuideStream.process_events Parsed JSON_parse trim fuel (buffer ++ more) = Some (events1 ++ events2, rest2).
Proof.
  revert fuel buffer events1.
  induction fuel1 as [|fuel1 IH]; intros fuel buffer events1 Hfirst Hsecond Hlen;
    [done|].
  cbn [BuildGuideStream.process_events] in Hfirst.
  destruct (indexOf_blank_line buffer) as [i|] eqn:Hi.
  - destruct (BuildGuideStream.process_events Parsed JSON_parse trim fuel1 _) as [[later rest]|] eqn:Hrest; [|done].
    injection Hfirst as <- <-.
    destruct fuel as [|fuel]; [lia|].
    cbn [BuildGuideStream.process_events].
    rewrite (indexOf_blank_line_app _ more _ Hi).
    apply indexOf_blank_line_bound in Hi.
    rewrite take_app_le by lia. rewrite drop_app_le by lia.
    rewrite (IH fuel _ _ Hrest Hsecond).
    + by rewrite app_assoc.
    + rewrite length_app, length_drop. rewrite length_app in Hlen. lia.
  - injection Hfirst as <- <-. cbn [app].
    apply (process_events_fuel fuel2 (Nat.max fuel2 fuel)) in Hsecond; [|lia].
    destruct (process_events_total fuel (buffer ++ more) Hlen)
      as (events & rest & Hrun & _).
    rewrite Hrun.
    apply (process_events_fuel fuel (Nat.max fuel2 fuel)) in Hrun; [|lia].
    congruence.
Qed.

Lemma read_loop_concat (chunks : list text) (ending : ReadEnd) (buffer : text) :
  indexOf_blank_line buffer = None ->
  BuildGuideStream.read_loop Parsed JSON_parse trim chunks ending buffer = BuildGuideStream.read_loop Parsed JSON_parse trim [concat chunks] ending buffer.
Proof.
  revert buffer. induction chunks as [|value chunks IH]; intros buffer Hbuffer.
  - cbn [concat BuildGuideStream.read_loop]. rewrite app_nil_r.
    cbn [BuildGuideStream.process_events]. rewrite Hbuffer. by destruct ending.
  - cbn [concat]. cbn [BuildGuideStream.read_loop].
    destruct (process_events_total (S (length (buffer ++ value)))
                (buffer ++ value)) as (events1 & rest1 & Hfirst & Hrest1);
      [lia|].
    rewrite Hfirst, (IH rest1 Hrest1). cbn [BuildGuideStream.read_loop].
    destruct (process_events_total (S (length (rest1 ++ concat chunks)))
                (rest1 ++ concat chunks)) as (events2 & rest2 & Hsecond & _);
      [lia|].
    rewrite Hsecond.
    pose proof (process_events_app _ _
                  (S (length ((buffer ++ value) ++ concat chunks)))
                  _ _ _ _ _ _ Hfirst Hsecond) as Hall.
    rewrite <- app_assoc in Hall. rewrite Hall by lia.
    destruct ending; by rewrite app_assoc.
Qed.


(** X24. The callbacks of the stream do not depend on how the text is cut
    into chunks: two readers whose chunks concatenate to the same text,
    and that end the same way, give the same calls of [onUpdate],
    [onError] and [onComplete] in the same order. *)
Theorem read_loop_chunking (chunks chunks' : list text) (ending : ReadEnd) :
  concat chunks = concat chunks' ->
  BuildGuideStream.read_loop Parsed JSON_parse trim chunks ending [] =
  BuildGuideStream.read_loop Parsed JSON_parse trim chunks' ending [].
Proof.
  intros Hsame.
  rewrite (read_loop_concat chunks), (read_loop_concat chunks') by done.
  by rewrite Hsame.
Qed.

(** X26. An event that is not closed by a blank line is never delivered:
    a last chunk without blank line, not starting with a line break, adds
    no callback, whatever [data] lines it holds. *)
Theorem read_loop_unterminated_event (chunks : list text) (tail : text)
    (ending : ReadEnd) :
  indexOf_blank_line tail = None ->
  head tail <> Some newline ->
  BuildGuideStream.read_loop Parsed JSON_parse trim (chunks ++ [tail]) ending [] =
  BuildGuideStream.read_loop Parsed JSON_parse trim chunks ending [].
Proof.
  intros Htail Hhead.
  rewrite (read_loop_concat (chunks ++ [tail])), (read_loop_concat chunks)
    by done.
  rewrite concat_app. cbn [concat]. rewrite app_nil_r.
  cbn [BuildGuideStream.read_loop app].
  destruct (process_events_total (S (length (concat chunks))) (concat chunks))
    as (events1 & rest1 & Hfirst & Hrest1); [lia|].
  assert (BuildGuideStream.process_events Parsed JSON_parse trim 1 (rest1 ++ tail)
          = Some ([], rest1 ++ tail)) as Hsecond.
  { cbn [BuildGuideStream.process_events].
    by rewrite indexOf_blank_line_None_app. }
  rewrite (process_events_app _ _ (S (length (concat chunks ++ tail)))
             _ _ _ _ _ _ Hfirst Hsecond) by lia.
  rewrite Hfirst, app_nil_r. done.
Qed.

Lemma process_line_callbacks (line : text) :
  Forall (fun c => is_OnComplete c = false)
    (BuildGuideStream.process_line Parsed JSON_parse trim line).
Proof.
  unfold BuildGuideStream.process_line.
  destruct (startsWith _ line).
  - destruct (trim (drop 6 line)) as [|a jsonString]; [constructor|].
    destruct (JSON_parse _); by repeat constructor.
  - destruct (_ || _); [constructor|]. destruct line; constructor.
Qed.

Lemma process_events_callbacks (fuel : nat) (buffer : text) events rest :
  BuildGuideStream.process_events Parsed JSON_parse trim fuel buffer
    = Some (events, rest) ->
  Forall (fun c => is_OnComplete c = false) events.
Proof.
  revert buffer events.
  induction fuel as [|fuel IH]; intros buffer events Hrun; [done|].
  cbn [BuildGuideStream.process_events] in Hrun.
  destruct (indexOf_blank_line buffer) as [i|].
  - destruct (BuildGuideStream.process_events _ _ _ fuel _)
      as [[later rest']|] eqn:Hrest; [|done].
    injection Hrun as <- <-. apply Forall_app. split; [|by eapply IH].
    induction (split_lines _) as [|line lines IHl]; [constructor|].
    cbn [flat_map]. apply Forall_app. split; [apply process_line_callbacks|done].
  - injection Hrun as <- <-. constructor.
Qed.

Lemma read_loop_ends (chunks : list text) (ending : ReadEnd) (buffer : text) :
  exists before,
    BuildGuideStream.read_loop Parsed JSON_parse trim chunks ending buffer =
      Some (before ++
            [match ending with
             | Done => OnComplete
             | ReadFails error => OnError (stream_error error)
             end]) /\
    Forall (fun c => is_OnComplete c = false) before.
Proof.
  revert buffer. induction chunks as [|value chunks IH]; intros buffer.
  - exists []. split; [by destruct ending|constructor].
  - cbn [BuildGuideStream.read_loop].
    destruct (process_events_total (S (length (buffer ++ value)))
                (buffer ++ value)) as (events & rest & Hrun & _); [lia|].
    rewrite Hrun. destruct (IH rest) as (before & -> & Hbefore).
    exists (events ++ before). split; [by rewrite app_assoc|].
    apply Forall_app. split; [|done]. by eapply process_events_callbacks.
Qed.

(** X25. [getBuildGuideStream] always ends, with exactly one final
    callback: [onComplete] or [onError]. [onComplete] is never called
    before the end, and it is the final callback exactly when the response
    was fetched, is [ok], has a body and the reader ended with [done]; an
    error of [JSON.parse] on an event does not end the stream. *)
Theorem getBuildGuideStream_ends
    (fetch : string -> string -> Completion StreamResponse)
    (baseUrl sessionId : string) :
  exists before last,
    getBuildGuideStream Parsed JSON_parse trim fetch baseUrl sessionId
      = Some (before ++ [last]) /\
    Forall (fun c => is_OnComplete c = false) before /\
    (last = OnComplete \/ exists message, last = OnError message) /\
    (last = OnComplete <->
     exists response reader,
       fetch (baseUrl +:+ "/build-guide-stream") sessionId = Normal response /\
       ok response = true /\
       body response = Some reader /\
       ending reader = Done).
Proof.
  unfold getBuildGuideStream.
  destruct (fetch _ sessionId) as [response|error] eqn:Hfetch.
  2: { exists [], (OnError (stream_error error)).
       split; [done|]. split; [constructor|]. split; [right; by eexists|].
       split; [done|]. by intros (? & ? & ? & _). }
  destruct (ok response) eqn:Hok; cbn [negb].
  2: { destruct (response_text response) as [errorText|error];
         (eexists [], _; split; [done|]; split; [constructor|];
          split; [right; by eexists|]; split; [done|]);
         intros (? & ? & [= <-] & ? & _); congruence. }
  destruct (body response) as [reader|] eqn:Hbody.
  2: { eexists [], _. split; [done|]. split; [constructor|].
       split; [right; by eexists|]. split; [done|].
       intros (? & ? & [= <-] & _ & ? & _). congruence. }
  destruct (read_loop_ends (chunks reader) (ending reader) [])
    as (before & -> & Hbefore).
  eexists before, _. split; [done|]. split; [done|].
  destruct (ending reader) as [|error] eqn:Hending.
  - split; [by left|]. split; [|done]. intros _. by exists response, reader.
  - split; [right; by eexists|]. split; [done|].
    intros (? & ? & [= <-] & _ & Hb & He). congruence.
Qed.

(** X27. A stream made of events [data: <message>] each closed by a blank
    line, for messages that are not empty, hold no line break and have no
    surrounding white space, gives one callback per message, in order:
    [onUpdate] with the value parsed from the message, or [onError] when
    [JSON.parse] rejects it; then [onComplete]. This holds however the
    text is cut into chunks. *)
Theorem read_loop_delivers_events (messages : list text) (chunks : list text) :
  Forall (fun message =>
            message <> [] /\
            (newline ∉ message) /\
            trim (String.list_ascii_of_string "data: " ++ message) =
              String.list_ascii_of_string "data: " ++ message /\
            trim message = message) messages ->
  concat chunks = concat (map sse_event messages) ->
  BuildGuideStream.read_loop Parsed JSON_parse trim chunks Done [] =
  Some (map (delivered JSON_parse) messages ++ [OnComplete]).
Proof.
  intros Hmessages Hchunks.
  rewrite read_loop_concat by done. rewrite Hchunks. clear chunks Hchunks.
  cbn [BuildGuideStream.read_loop app].
  assert (forall fuel,
            length (concat (map sse_event messages)) < fuel ->
            BuildGuideStream.process_events Parsed JSON_parse trim fuel
              (concat (map sse_event messages)) =
            Some (map (delivered JSON_parse) messages, [])) as Hrun.
  { induction Hmessages as [|message messages (Hne & Hnl & Hblock & Hmsg) _ IH];
      intros fuel Hfuel.
    - destruct fuel; [lia|]. done.
    - destruct fuel as [|fuel]; [lia|].
      cbn [map concat] in *.
      set (rest := concat (map sse_event messages)) in *.
      unfold sse_event in Hfuel |- *.
      rewrite <- !app_assoc in Hfuel |- *. cbn [app] in Hfuel |- *.
      cbn [BuildGuideStream.process_events].
      rewrite (app_assoc _ message).
      rewrite indexOf_blank_line_here.
      2: { intros Hin. apply elem_of_app in Hin as [Hin|Hin]; [|done].
           revert Hin. cbn. rewrite !elem_of_cons, elem_of_nil.
           intros [H|[H|[H|[H|[H|[H|[]]]]]]]; discriminate H. }
      rewrite take_app_length.
      replace (length (String.list_ascii_of_string "data: " ++ message) + 2)
        with (length ((String.list_ascii_of_string "data: " ++ message) ++
                      [newline; newline]))
        by (rewrite !length_app; cbn; lia).
      change (newline :: newline :: rest) with ([newline; newline] ++ rest).
      rewrite app_assoc, drop_app_length.
      rewrite IH.
      2: { rewrite !length_app in Hfuel. cbn [length] in Hfuel. lia. }
      rewrite Hblock, split_lines_one.
      2: { intros Hin. apply elem_of_app in Hin as [Hin|Hin]; [|done].
           revert Hin. cbn. rewrite !elem_of_cons, elem_of_nil.
           intros [H|[H|[H|[H|[H|[H|[]]]]]]]; discriminate H. }
      cbn [flat_map]. rewrite app_nil_r.
      unfold BuildGuideStream.process_line.
      cbn [String.list_ascii_of_string app startsWith Ascii.eqb Bool.eqb andb
           drop].
      rewrite drop_0, Hmsg. unfold delivered.
      destruct message as [|a message]; [done|].
      by destruct (JSON_parse _). }
  by rewrite Hrun by lia.
Qed.

End Facts.

Lemma read_loop_chunking_witness :
  BuildGuideStream.read_loop text sample_parse sample_trim
    [String.list_ascii_of_string "data: {}"; [newline]; [newline]] Done [] =
  BuildGuideStream.read_loop text sample_parse sample_trim
    [sse_event (String.list_ascii_of_string "{}")] Done [].
Proof.
  apply (read_loop_chunking text sample_parse sample_trim
           [String.list_ascii_of_string "data: {}"; [newline]; [newline]]
           [sse_event (String.list_ascii_of_string "{}")] Done).
  reflexivity.
Defined.

Lemma read_loop_unterminated_event_witness :
  BuildGuideStream.read_loop text sample_parse sample_trim
    ([sse_event (String.list_ascii_of_string "{}")] ++
     [String.list_ascii_of_string "data: {}" ++ [newline]]) Done [] =
  BuildGuideStream.read_loop text sample_parse sample_trim
    [sse_event (String.list_ascii_of_string "{}")] Done [].
Proof.
  apply (read_loop_unterminated_event text sample_parse sample_trim
           [sse_event (String.list_ascii_of_string "{}")]
           (String.list_ascii_of_string "data: {}" ++ [newline]) Done).
  - reflexivity.
  - discriminate.
Defined.

Lemma read_loop_delivers_events_witness :
  BuildGuideStream.read_loop text sample_parse sample_trim
    [String.list_ascii_of_string "data: {}"; [newline];
     newline :: String.list_ascii_of_string "data: oops"; [newline; newline]]
    Done [] =
  Some [OnUpdate (String.list_ascii_of_string "{}");
        OnError "Failed to parse stream data: Unexpected token";
        OnComplete].
Proof.
  apply (read_loop_delivers_events text sample_parse sample_trim
           [String.list_ascii_of_string "{}"; String.list_ascii_of_string "oops"]).
  - repeat constructor; try done;
      (intros Hin; revert Hin; cbn; rewrite !elem_of_cons, elem_of_nil;
       intuition discriminate).
  - reflexivity.
Defined.

End StreamExtras.

Module ApiExtras.
Import IndexRoute RouteRuns.

(** The responses of [POST]. *)
Lemma POST_responses env (req_json : Completion IndexRequestBody) (h : History) :
  exists response,
    fst (POST env req_json h) = Returned response /\
    ((exists totalChunks processingTime indexingTime,
        response = success_response totalChunks processingTime indexingTime) \/
     response = invalid_request_response \/
     (exists processingTime,
        response =
          {| payload :=
               [("message", JStr "No embeddings could be generated");
                ("details", JStr "Check file contents and embedding generation");
                ("processingTime", JNum processingTime)];
             status := 400 |}) \/
     (exists error,
        response = error_response (NODE_ENV_development env) error)).
Proof.
  destruct (RouteExtras.POST_cases env req_json h)
    as [(error & _ & ->)|[(body & _ & _ & ->)|
        [(s & files & response & -> & Hs & Hflat & _)|
         (s & files & recs & _ & _ & _ & _ & Hrun)]]].
  - eexists. split; [done|]. right; right; right. by eexists.
  - eexists. split; [done|]. right; left. done.
  - rewrite (PostClaims.POST_nothing_to_insert env s files h Hs Hflat).
    eexists. split; [done|]. right; right; left. by eexists.
  - destruct Hrun; (eexists; split; [done|]).
    + right; right; right. by eexists.
    + right; right; right. by eexists.
    + right; right; right. by eexists.
    + left. by eexists _, _, _.
Qed.

(** X28. [indexCode] against the indexing route: [POST] always returns
    a response, and when the client receives it [indexCode] returns
    exactly for status 200; for any other status it throws an [Error]
    whose message is [Indexing failed: ] followed by a reason that is not
    empty: the [error] field of the payload, else its [message] field,
    else [HTTP 500]. *)
Theorem indexCode_after_POST env (req_json : Completion IndexRequestBody)
    (h : History) (ToString : JsValue -> string)
    (baseUrl sessionId : string) (codeFiles tempDir totalFiles : JsValue) :
  exists response,
    fst (POST env req_json h) = Returned response /\
    let outcome :=
      ApiClient.indexCode ToString (fun _ => Normal (ApiClient.received response))
        baseUrl sessionId codeFiles tempDir totalFiles in
    (status response = 200%Z -> outcome = Normal tt) /\
    (status response <> 200%Z ->
     exists reason,
       outcome = Throw (JsError ("Indexing failed: " +:+ reason)) /\
       reason <> "" /\
       (payload_field "error" response = Some (JStr reason) \/
        payload_field "message" response = Some (JStr reason) \/
        reason = "HTTP 500")).
Proof.
  destruct (POST_responses env req_json h)
    as (response & Hrun & [(n & t1 & t2 & ->)|[->|[(t & ->)|(error & ->)]]]);
    (eexists; split; [exact Hrun|]); cbv zeta.
  - split; [done|]. by intros [].
  - split; [done|]. intros _. exists "Invalid request parameters".
    split; [reflexivity|]. split; [done|]. by left.
  - split; [done|]. intros _. exists "No embeddings could be generated".
    split; [reflexivity|]. split; [done|]. right; by left.
  - split; [by destruct error as [m|v]; destruct (NODE_ENV_development env)|].
    intros _.
    destruct error as [m|v].
    + destruct (String.eqb m "") eqn:Hm.
      * apply String.eqb_eq in Hm as ->. exists "HTTP 500".
        split; [by destruct (NODE_ENV_development env)|].
        split; [done|]. by right; right.
      * exists m. split.
        { unfold ApiClient.indexCode, ApiClient.received, error_response.
          destruct (NODE_ENV_development env);
            cbn -[String.eqb pretty]; unfold ApiClient.or_else;
            cbn -[String.eqb pretty]; simplify_map_eq;
            cbn -[String.eqb pretty]; by rewrite Hm. }
        split; [by intros ->|].
        destruct (NODE_ENV_development env); [by left|right; by left].
    + exists "An unexpected error occurred during indexing.".
      split; [reflexivity|]. split; [done|]. right; by left.
Qed.

(** X29. [indexCode] throws nothing but [Error] objects, and returns
    exactly when the request to [<baseUrl>/index] was answered with an
    [ok] response whose body parses to a value other than [null]. *)
Theorem indexCode_outcomes (ToString : JsValue -> string)
    (fetch : ApiClient.Request -> Completion ApiClient.HttpResponse)
    (baseUrl sessionId : string) (codeFiles tempDir totalFiles : JsValue) :
  let outcome :=
    ApiClient.indexCode ToString fetch baseUrl sessionId codeFiles tempDir
      totalFiles in
  (outcome = Normal tt \/ exists message, outcome = Throw (JsError message)) /\
  (outcome = Normal tt <->
   exists response data,
     fetch (ApiClient.index_request baseUrl sessionId codeFiles tempDir totalFiles)
       = Normal response /\
     ApiClient.ok response = true /\
     ApiClient.json response = Normal data /\
     data <> JsNull /\ data <> JsUndefined).
Proof.
  cbv zeta. unfold ApiClient.indexCode.
  destruct (fetch _) as [response|error] eqn:Hfetch.
  2: { split; [right; destruct error; by eexists|].
       split; [by destruct error|]. by intros (? & ? & ? & _). }
  destruct (ApiClient.ok response) eqn:Hok; cbn [negb].
  - destruct (ApiClient.json response) as [data|error] eqn:Hjson.
    + assert (data = JsUndefined \/ data = JsNull \/
              ApiClient.property_of data "message"
                = Normal (get_property data "message")) as [->|[->|Hdata]]
        by (destruct data; auto).
      * split; [right; by eexists|]. split; [done|].
        intros (r & d & [= <-] & _ & Hd & _ & Hu).
        rewrite Hjson in Hd. by injection Hd as <-.
      * split; [right; by eexists|]. split; [done|].
        intros (r & d & [= <-] & _ & Hd & Hn & _).
        rewrite Hjson in Hd. by injection Hd as <-.
      * rewrite Hdata. split; [by left|]. split; [|done].
        intros _. exists response, data. repeat split; try done.
        -- by intros ->.
        -- by intros ->.
    + split; [right; destruct error; by eexists|].
      split; [by destruct error|].
      intros (? & ? & [= <-] & _ & ? & _). congruence.
  - split.
    + right. destruct (ApiClient.property_of _ "error") as [?|[?|?]];
        by eexists.
    + split.
      * by destruct (ApiClient.property_of _ "error") as [?|[?|?]].
      * intros (? & ? & [= <-] & ? & _). congruence.
Qed.

Lemma indexCode_outcomes_witness :
  ApiClient.indexCode ApiClient.sample_ToString
    (fun _ => Normal (ApiClient.received (RouteRuns.success_response 3 10 20)))
    "/api" "s1" (JsArray []) (JsString "/tmp/s1") (JsNumber (Num 0)) = Normal tt.
Proof.
  apply (indexCode_outcomes ApiClient.sample_ToString
           (fun _ => Normal (ApiClient.received
                               (RouteRuns.success_response 3 10 20)))
           "/api" "s1" (JsArray []) (JsString "/tmp/s1") (JsNumber (Num 0))).
  eexists _, _. repeat split; done.
Defined.

Lemma indexCode_after_POST_witness :
  exists response reason,
    fst (POST env_finishing (Throw (JsError "Unexpected end of JSON input")) [])
      = Returned response /\
    status response <> 200%Z /\
    ApiClient.indexCode ApiClient.sample_ToString
      (fun _ => Normal (ApiClient.received response))
      "/api" "s1" (JsArray []) (JsString "/tmp/s1") (JsNumber (Num 0)) =
    Throw (JsError ("Indexing failed: " +:+ reason)) /\
    reason <> "".
Proof.
  destruct (indexCode_after_POST env_finishing
              (Throw (JsError "Unexpected end of JSON input")) []
              ApiClient.sample_ToString "/api" "s1" (JsArray [])
              (JsString "/tmp/s1") (JsNumber (Num 0)))
    as (response & Hrun & _ & Hfailed).
  assert (status response <> 200%Z) as Hstatus.
  { vm_compute in Hrun. injection Hrun as <-. done. }
  destruct (Hfailed Hstatus) as (reason & Houtcome & Hreason & _).
  by exists response, reason.
Defined.

End ApiExtras.

Module ChatExtras.
Import ChatMode.

Lemma fold_apply_app (st : State) (us vs : list Update) :
  fold_left apply_update (us ++ vs) st =
  fold_left apply_update vs (fold_left apply_update us st).
Proof. apply fold_left_app. Qed.

(** X30. An exchange of the chat panel. An event without a usable session
    only sets the error [No session ID available. ...], whatever the
    server would answer: no message is added. An event with a session adds exactly
    two messages after the ones already shown, the user's message and one
    reply, and leaves [isTyping] off. The error is cleared exactly when
    the request returned a response with a truthy [success], the reply
    being its [response]; otherwise the error is set and the reply shows
    the same text. *)
Theorem handleChatMessage_exchange (ToString : JsValue -> string)
    (fetch : ApiClient.Request -> Completion ApiClient.HttpResponse)
    (userMessage currentSessionId : JsValue) (st : State) :
  let st' :=
    fold_left apply_update
      (handleChatMessage ToString fetch userMessage currentSessionId) st in
  (truthy currentSessionId = false ->
   st' =
     {| messages := messages st;
        isTyping := isTyping st;
        chatError :=
          Some (JsString
                  "No session ID available. Please upload a codebase first.") |}) /\
  (truthy currentSessionId = true ->
   isTyping st' = false /\
   exists reply,
     messages st' =
       messages st ++ [{| type := user; content := userMessage |};
                       {| type := ai; content := reply |}] /\
     (chatError st' = None \/ chatError st' = Some reply) /\
     (chatError st' = None <->
      exists response success,
        ApiClient.chatWithCode ToString fetch apiClient_baseUrl
          userMessage currentSessionId None = Normal response /\
        ApiClient.property_of response "success" = Normal success /\
        truthy success = true /\
        reply = get_property response "response")).
Proof.
  cbv zeta. unfold handleChatMessage.
  destruct (truthy currentSessionId) eqn:Hsession; (split; [|]); try done.
  intros _. unfold sendChatMessage, addMessage.
  destruct (ApiClient.chatWithCode _ _ _ _ _ _) as [response|error] eqn:Hchat.
  2: { cbn. split; [done|]. eexists. split; [rewrite <- app_assoc; reflexivity|].
       split; [by right|]. split; [done|]. intros (? & ? & ? & _). done. }
  destruct (ApiClient.property_of response "success") as [success|error]
    eqn:Hsuccess.
  2: { cbn. split; [done|]. eexists. split; [rewrite <- app_assoc; reflexivity|].
       split; [by right|]. split; [done|].
       intros (r & s & [= <-] & Hs & _). congruence. }
  destruct (truthy success) eqn:Htruthy.
  - cbn. split; [done|]. eexists. split; [rewrite <- app_assoc; reflexivity|].
    split; [by left|]. split; [|done].
    intros _. by exists response, success.
  - cbn. split; [done|]. eexists. split; [rewrite <- app_assoc; reflexivity|].
    split; [by right|]. split; [done|].
    intros (r & s & [= <-] & Hs & Ht & _). congruence.
Qed.

Lemma handleChatMessage_exchange_witness :
  messages
    (fold_left apply_update
       (handleChatMessage ApiClient.sample_ToString answering_fetch
          (JsString "What does it do?") (JsString "s1")) initial_state) =
  messages initial_state ++
    [{| type := user; content := JsString "What does it do?" |};
     {| type := ai; content := JsString "It parses the files." |}].
Proof.
  destruct (handleChatMessage_exchange ApiClient.sample_ToString answering_fetch
              (JsString "What does it do?") (JsString "s1") initial_state)
    as [_ Hsent].
  destruct (Hsent eq_refl) as (_ & reply & Hmessages & _ & Hnone).
  rewrite Hmessages. do 3 f_equal.
  destruct (proj1 Hnone eq_refl) as (response & success & Hchat & _ & _ & ->).
  vm_compute in Hchat. by injection Hchat as <-.
Defined.

End ChatExtras.
